(** * jobSync.ai: the job-board crawler and its reconciliation against the store

    A shallow embedding of [backend/app/services/crawler] (the orchestrator
    [crawl_source] / [crawl_all_sources] of [__init__.py] and the four
    platform adapters [lever.py], [greenhouse.py], [workday.py], [ashby.py])
    together with the storage helpers of [backend/app/database.py], the
    endpoint [POST /trigger] of [backend/app/routers/crawl.py] that calls
    the orchestrator, and the retention job of
    [backend/app/services/retention.py] that archives and deletes rows of
    the table the crawler writes.

    Conventions of the embedding:
    - Python [str] is [string], holding the UTF-8 encoding of the text:
      a character is a byte with the continuation bytes that follow it,
      [len] counts characters, and [strip] removes the characters that
      [str.isspace] accepts, the ones outside ASCII included. Case folding
      and the classes of the regular expressions are the ASCII ones.
    - the relational store, the crawl log and the schedule of storage faults
      form an explicit [World]; code runs in a state-and-exception monad [M].
    - library code that is not part of the repository ([re], [urlparse],
      [urljoin], [datetime.fromisoformat]) and the [jobs] table's unique
      index (its DDL is not among the sources) are fields of [Externals];
      the store's reading of column [posting_date] and its [DATE_SUB] are
      fields of [StoreClock]. *)

From Stdlib Require Import ZArith Ascii String List Bool Lia DecimalString.
From stdpp Require Import base decidable option list gmap sets strings.

Open Scope string_scope.
Open Scope list_scope.

(** ** Python string primitives used by the crawler *)
Module PyStr.

Definition code (c : ascii) : nat := nat_of_ascii c.

Definition in_range (lo hi : nat) (c : ascii) : bool :=
  Nat.leb lo (code c) && Nat.leb (code c) hi.

(** [str.lower()] on one ASCII character. *)
Definition lower_char (c : ascii) : ascii :=
  if in_range 65 90 c then ascii_of_nat (code c + 32) else c.

(** [str.lower()] *)
Fixpoint lower (s : string) : string :=
  match s with
  | EmptyString => EmptyString
  | String c s' => String (lower_char c) (lower s')
  end.

(** The whitespace characters of one byte: tab, newline, vertical tab,
    form feed, carriage return, the four separators 0x1c-0x1f and the
    space. *)
Definition is_space (c : ascii) : bool :=
  in_range 9 13 c || in_range 28 32 c.

(** A continuation byte of UTF-8: [10xxxxxx]. *)
Definition is_continuation (c : ascii) : bool := in_range 128 191 c.

(** The characters of a string: each byte that is not a continuation byte,
    with the continuation bytes that follow it. *)
Fixpoint chars (s : string) : list string :=
  match s with
  | EmptyString => []
  | String c s' =>
      let r := chars s' in
      if match s' with
         | String b _ => is_continuation b
         | EmptyString => false
         end
      then match r with
           | h :: t => String c h :: t
           | [] => [String c EmptyString]
           end
      else String c EmptyString :: r
  end.

(** [len(s)] *)
Definition len (s : string) : nat := List.length (chars s).

Definition of_codes (l : list nat) : string :=
  string_of_list_ascii (map ascii_of_nat l).

(** The characters outside ASCII that [str.isspace] accepts: U+0085,
    U+00A0, U+1680, U+2000 to U+200A, U+2028, U+2029, U+202F, U+205F and
    U+3000. *)
Definition wide_spaces : list string :=
  map of_codes
      [[194; 133]; [194; 160]; [225; 154; 128];
       [226; 128; 128]; [226; 128; 129]; [226; 128; 130]; [226; 128; 131];
       [226; 128; 132]; [226; 128; 133]; [226; 128; 134]; [226; 128; 135];
       [226; 128; 136]; [226; 128; 137]; [226; 128; 138];
       [226; 128; 168]; [226; 128; 169]; [226; 128; 175];
       [226; 129; 159]; [227; 128; 128]].

(** [ch.isspace()] on one character. *)
Definition is_space_char (ch : string) : bool :=
  match ch with
  | String c EmptyString => is_space c
  | _ => existsb (String.eqb ch) wide_spaces
  end.

Fixpoint lstrip_chars (l : list string) : list string :=
  match l with
  | [] => []
  | ch :: l' => if is_space_char ch then lstrip_chars l' else l
  end.

Fixpoint rstrip_chars (l : list string) : list string :=
  match l with
  | [] => []
  | ch :: l' =>
      match rstrip_chars l' with
      | [] => if is_space_char ch then [] else [ch]
      | r => ch :: r
      end
  end.

(** [\w]: letters, digits and the underscore. *)
Definition is_word (c : ascii) : bool :=
  in_range 97 122 c || in_range 65 90 c || in_range 48 57 c
  || Nat.eqb (code c) 95.

Definition is_empty (s : string) : bool :=
  match s with EmptyString => true | _ => false end.

(** [s.lstrip(chars)], [s.rstrip(chars)], [s.strip(chars)] for a class of
    characters given as a predicate. *)
Fixpoint lstrip_by (p : ascii -> bool) (s : string) : string :=
  match s with
  | EmptyString => EmptyString
  | String c s' => if p c then lstrip_by p s' else s
  end.

Fixpoint rstrip_by (p : ascii -> bool) (s : string) : string :=
  match s with
  | EmptyString => EmptyString
  | String c s' =>
      let r := rstrip_by p s' in
      if p c && is_empty r then EmptyString else String c r
  end.

Definition strip_by (p : ascii -> bool) (s : string) : string :=
  rstrip_by p (lstrip_by p s).

(** [[EmptyString].join(l)] *)
Definition join (l : list string) : string :=
  fold_right String.append EmptyString l.

(** [s.strip()] *)
Definition strip (s : string) : string :=
  join (rstrip_chars (lstrip_chars (chars s))).

(** [s.strip("/")] *)
Definition strip_slash (s : string) : string :=
  strip_by (Ascii.eqb "/"%char) s.

(** [s.split(sep)] for a one-character separator: never returns the
    empty list, and keeps empty pieces. *)
Fixpoint split (sep : ascii) (s : string) : list string :=
  match s with
  | EmptyString => [EmptyString]
  | String c s' =>
      let r := split sep s' in
      if Ascii.eqb c sep then EmptyString :: r
      else match r with
           | h :: t => String c h :: t
           | [] => [String c EmptyString]
           end
  end.

(** [s.startswith(p)] *)
Fixpoint startswith (p s : string) : bool :=
  match p, s with
  | EmptyString, _ => true
  | String a p', String b s' => Ascii.eqb a b && startswith p' s'
  | String _ _, EmptyString => false
  end.

(** [needle in hay] *)
Fixpoint contains (needle hay : string) : bool :=
  startswith needle hay ||
  match hay with
  | EmptyString => false
  | String _ hay' => contains needle hay'
  end.

(** [s.endswith("Z")] together with [s[:-1]] : the string without its
    final character when that character is [c]. *)
Fixpoint drop_final (c : ascii) (s : string) : option string :=
  match s with
  | EmptyString => None
  | String a EmptyString => if Ascii.eqb a c then Some EmptyString else None
  | String a s' => option_map (String a) (drop_final c s')
  end.

(** [s.replace(" ", by)] *)
Fixpoint replace_space (by_ : string) (s : string) : string :=
  match s with
  | EmptyString => EmptyString
  | String c s' =>
      if Ascii.eqb c " "%char then (by_ ++ replace_space by_ s')%string
      else String c (replace_space by_ s')
  end.

(** [bool(s)] : a string is truthy when it is not empty. *)
Definition truthy (s : string) : bool := negb (is_empty s).

(** [x or d] for an optional string [x]. *)
Definition or_else (x : option string) (d : string) : string :=
  match x with
  | Some s => if truthy s then s else d
  | None => d
  end.

End PyStr.

(** ** A model of the fragment of Python's [re] that the crawler's patterns
    live in: literals, [.], [\b], [\s], [\w], [\d], groups, [|] and the
    postfix operators [?], [+], [*], matched with [re.I]. *)
Module Regex.

Inductive regex : Type :=
| Eps
| Chr (c : ascii)
| Dot
| Space
| Word
| Digit
| Boundary
| Cat (r1 r2 : regex)
| Alt (r1 r2 : regex)
| Opt (r : regex)
| Plus (r : regex).

Definition word_at (o : option ascii) : bool :=
  match o with Some c => PyStr.is_word c | None => false end.

Definition head (s : string) : option ascii :=
  match s with String c _ => Some c | EmptyString => None end.

Definition eat (p : ascii -> bool) (s : string)
    (k : option ascii -> string -> bool) : bool :=
  match s with
  | String d s' => p d && k (Some d) s'
  | EmptyString => false
  end.

(** Backtracking matcher in continuation-passing style: [prev] is the
    character just before the current position (for [\b]), [k] receives
    the position after the match. *)
Fixpoint matches (r : regex) (prev : option ascii) (s : string)
    (k : option ascii -> string -> bool) {struct r} : bool :=
  match r with
  | Eps => k prev s
  | Chr c =>
      eat (fun d => Ascii.eqb (PyStr.lower_char d) (PyStr.lower_char c)) s k
  | Dot => eat (fun d => negb (Ascii.eqb d "010"%char)) s k
  | Space => eat PyStr.is_space s k
  | Word => eat PyStr.is_word s k
  | Digit => eat (PyStr.in_range 48 57) s k
  | Boundary => xorb (word_at prev) (word_at (head s)) && k prev s
  | Cat r1 r2 => matches r1 prev s (fun p s' => matches r2 p s' k)
  | Alt r1 r2 => matches r1 prev s k || matches r2 prev s k
  | Opt r1 => matches r1 prev s k || k prev s
  | Plus r1 =>
      (fix iter (n : nat) (prev : option ascii) (s : string) : bool :=
         match n with
         | O => false
         | S n' =>
             matches r1 prev s
               (fun p s' =>
                  k p s' ||
                  (Nat.ltb (String.length s') (String.length s)
                   && iter n' p s'))
         end) (S (String.length s)) prev s
  end.

(** [pattern.search(s)]: a match starting at some position of [s]. *)
Fixpoint search_from (r : regex) (prev : option ascii) (s : string) : bool :=
  matches r prev s (fun _ _ => true) ||
  match s with
  | EmptyString => false
  | String c s' => search_from r (Some c) s'
  end.

Definition search (r : regex) (s : string) : bool := search_from r None s.

(** *** Reading a pattern source *)

Definition postfix (a : regex) (s : list ascii) : option (regex * list ascii) :=
  let repeated (rest : list ascii) :=
    match rest with
    | ("+" :: _ | "*" :: _ | "?" :: _ | "{" :: _)%char => true
    | _ => false
    end in
  match s with
  | ("+" :: rest)%char =>
      if repeated rest then None else Some (Plus a, rest)
  | ("*" :: rest)%char =>
      if repeated rest then None else Some (Opt (Plus a), rest)
  | ("?" :: rest)%char =>
      if repeated rest then None else Some (Opt a, rest)
  | _ => Some (a, s)
  end.

Definition escape (c : ascii) : option regex :=
  if Ascii.eqb c "b" then Some Boundary
  else if Ascii.eqb c "s" then Some Space
  else if Ascii.eqb c "w" then Some Word
  else if Ascii.eqb c "d" then Some Digit
  else if PyStr.is_word c then None
  else Some (Chr c).

Definition plain (c : ascii) : bool :=
  negb (existsb (Ascii.eqb c)
          (list_ascii_of_string ".^$*+?{}[]\|()")).

Fixpoint parse_alt (fuel : nat) (s : list ascii) {struct fuel}
    : option (regex * list ascii) :=
  match fuel with
  | O => None
  | S f =>
      match parse_seq f s with
      | Some (r, ("|" :: rest)%char) =>
          match parse_alt f rest with
          | Some (r2, rest') => Some (Alt r r2, rest')
          | None => None
          end
      | other => other
      end
  end
with parse_seq (fuel : nat) (s : list ascii) {struct fuel}
    : option (regex * list ascii) :=
  match fuel with
  | O => None
  | S f =>
      match s with
      | [] => Some (Eps, [])
      | ("|" :: _)%char | (")" :: _)%char => Some (Eps, s)
      | _ =>
          match parse_atom f s with
          | Some (a, rest) =>
              match postfix a rest with
              | Some (a', rest') =>
                  match parse_seq f rest' with
                  | Some (r, rest'') => Some (Cat a' r, rest'')
                  | None => None
                  end
              | None => None
              end
          | None => None
          end
      end
  end
with parse_atom (fuel : nat) (s : list ascii) {struct fuel}
    : option (regex * list ascii) :=
  match fuel with
  | O => None
  | S f =>
      match s with
      | [] => None
      | ("(" :: "?" :: _)%char => None
      | ("(" :: rest)%char =>
          match parse_alt f rest with
          | Some (r, (")" :: rest')%char) => Some (r, rest')
          | _ => None
          end
      | ("\" :: c :: rest)%char =>
          match escape c with
          | Some r => Some (r, rest)
          | None => None
          end
      | ("." :: rest)%char => Some (Dot, rest)
      | (c :: rest)%char => if plain c then Some (Chr c, rest) else None
      end
  end.

(** [re.compile(src, re.I)] on the modelled fragment; [None] stands for
    [re.error] and for syntax outside the fragment. *)
Definition parse (src : string) : option regex :=
  let cs := list_ascii_of_string src in
  match parse_alt (3 * S (List.length cs)) cs with
  | Some (r, []) => Some r
  | _ => None
  end.

Definition compile (src : string) : option (string -> bool) :=
  option_map search (parse src).

End Regex.

(** ** Data model *)

(** A [datetime]: the wall-clock reading in microseconds since
    1970-01-01T00:00:00, and the UTC offset of its [tzinfo] in microseconds
    ([None] for a naive value). *)
Record datetime : Type := mkDatetime {
  dt_wall : Z;
  dt_tzinfo : option Z
}.

(** The values a listing's ["posting_date"] can hold. *)
Inductive PyVal : Type :=
| PyNone
| PyStr (s : string)
| PyDatetime (d : datetime)
| PyOther.

(** The dictionary every adapter produces for one posting. *)
Record Job : Type := mkJob {
  external_id : option string;
  title : string;
  company : string;
  location : string;
  department : option string;
  description : string;
  job_type : string;
  url : string;
  posting_date : PyVal
}.

Definition set_department (d : option string) (j : Job) : Job :=
  mkJob (external_id j) (title j) (company j) (location j) d
        (description j) (job_type j) (url j) (posting_date j).

Definition set_company (c : string) (j : Job) : Job :=
  mkJob (external_id j) (title j) c (location j) (department j)
        (description j) (job_type j) (url j) (posting_date j).

(** A row of table [jobs]. *)
Record JobRow : Type := mkJobRow {
  id : nat;
  source_id : nat;
  r_external_id : option string;
  r_title : string;
  r_company : string;
  r_location : string;
  r_department : option string;
  r_description : string;
  r_job_type : string;
  r_url : string;
  r_posting_date : PyVal;
  is_active : bool;
  crawled_at : Z;
  last_updated : option Z
}.

(** A row of table [job_sources]. [target_departments] is held decoded:
    the writers of the column ([add_source], [bootstrap_db.py]) store
    [json.dumps] of a list, or NULL. *)
Record SourceRow : Type := mkSourceRow {
  src_id : nat;
  src_name : string;
  src_url : string;
  scraper_type : string;
  enabled : bool;
  target_departments : option (list string)
}.

Inductive RunStatus : Type := started | completed | failed.

(** A row of table [crawler_runs]. *)
Record RunRow : Type := mkRunRow {
  run_id : nat;
  run_source_id : nat;
  status : RunStatus;
  jobs_found : option nat;
  jobs_new : option nat;
  jobs_updated : option nat;
  started_at : Z;
  completed_at : option Z
}.

Inductive Exn : Type :=
| DbError          (* raised by the storage layer *)
| FetchError       (* httpx / playwright: unreachable host, timeout, bad status *)
| ParseError       (* an element or a JSON value of unexpected shape *)
| RegexError       (* re.error *)
| ValueError
| OverflowError.

Inductive LogEvent : Type :=
| QueryExecutionError
| InsertExecutionError
| UpdateExecutionError
| LeverCrawlError (e : Exn)
| LeverParseWarning (e : Exn)
| GreenhouseCrawlError (e : Exn)
| GreenhouseParseWarning (e : Exn)
| WorkdayCrawlError (e : Exn)
| WorkdayParseWarning (e : Exn)
| AshbyCrawling (base_url : string)
| AshbyJob (title url : string)
| AshbyFound (n : nat) (slug : string)
| FilteredTo (n : nat) (departments : list string)
| ErrorStoringJob (e : Exn)
| ErrorMarkingInactive (source : nat) (e : Exn)
| CrawlSourceError (source : nat) (e : Exn).

(** The store, the log, and the schedule of storage faults: the n-th entry
    tells whether the n-th storage call from now on raises; past the end of
    the schedule no call raises. *)
Record World : Type := mkWorld {
  w_sources : list SourceRow;
  w_jobs : list JobRow;
  w_next_job_id : nat;
  w_runs : list RunRow;
  w_next_run_id : nat;
  w_log : list LogEvent;
  w_faults : list bool
}.

Definition with_jobs (js : list JobRow) (n : nat) (w : World) : World :=
  mkWorld (w_sources w) js n (w_runs w) (w_next_run_id w) (w_log w) (w_faults w).

Definition with_runs (rs : list RunRow) (n : nat) (w : World) : World :=
  mkWorld (w_sources w) (w_jobs w) (w_next_job_id w) rs n (w_log w) (w_faults w).

Definition with_log (l : list LogEvent) (w : World) : World :=
  mkWorld (w_sources w) (w_jobs w) (w_next_job_id w) (w_runs w)
          (w_next_run_id w) l (w_faults w).

Definition with_faults (f : list bool) (w : World) : World :=
  mkWorld (w_sources w) (w_jobs w) (w_next_job_id w) (w_runs w)
          (w_next_run_id w) (w_log w) f.

(** ** The world outside the process *)

(** An element picked by a selector: its text and its [href] attribute. *)
Record Element : Type := mkElement {
  el_text : string;
  el_href : option string
}.

(** One container matched by [soup.find_all('div', class_=...)] on a static
    board. [Card] lists what the selectors of the adapter find in it
    ([title_elem]: [a.posting-title] on Lever, [h4] on Greenhouse,
    [a.job-title] on Workday); [Broken] is a container on which the
    extraction raises. *)
Inductive Container : Type :=
| Broken
| Card (data_job_id : option string) (title_elem : option Element)
       (location_elem company_elem : option string)
       (link_elem : option Element) (text : string).

Inductive StaticFetch : Type :=
| Unreachable
| Html (items : list Container).

Inductive WorkdayFetch : Type :=
| WorkdayRenderFailure
| WorkdayPage (items : list Container) (close_raises : bool).

(** An entry of [secondaryLocations]: a dictionary, or something else. *)
Inductive SecLoc : Type :=
| NotADict
| LocDict (locationName : option string).

(** An entry of [window.__appData.jobBoard.jobPostings]. *)
Record Posting : Type := mkPosting {
  p_id : option string;
  p_title : option string;
  p_departmentName : option string;
  p_teamName : option string;
  p_locationName : option string;
  p_secondaryLocations : list SecLoc;
  p_employmentType : option string;
  p_publishedDate : PyVal
}.

(** An [<a href=...>] of the rendered page: the attribute and
    [get_text(strip=True)]. *)
Record Anchor : Type := mkAnchor {
  a_href : string;
  a_text : string
}.

(** What the browser gives for a board: [async_playwright()], [launch()]
    or [new_page()] raises; or [goto()], [content()] or [close()] raises;
    or the anchors of the rendered page with [window.__appData]. *)
Inductive AshbyFetch : Type :=
| AshbyLaunchFailure
| AshbyRenderFailure
| AshbyPage (anchors : list Anchor) (app_data : option (list Posting)).

Record Web : Type := mkWeb {
  lever_get : string -> StaticFetch;
  greenhouse_get : string -> StaticFetch;
  workday_render : string -> WorkdayFetch;
  ashby_render : string -> AshbyFetch
}.

Record ParseResult : Type := mkParseResult {
  scheme : string;
  netloc : string;
  path : string
}.

(** Code the crawler calls but does not define. *)
Class Externals : Type := mkExternals {
  (** [re.compile(src, re.I)] as the [search] of the compiled pattern;
      [None] is [re.error]. *)
  re_compile : string -> option (string -> bool);
  (** [datetime.fromisoformat]; [None] is [ValueError]. *)
  fromisoformat : string -> option datetime;
  (** [urllib.parse.urlparse]; [None] is [ValueError]. *)
  urlparse : string -> option ParseResult;
  (** [urllib.parse.urljoin]; [None] is [ValueError]. *)
  urljoin : string -> string -> option string;
  (** The unique index of table [jobs]: would inserting the first row
      collide with the second, stored, row? *)
  unique_conflict : JobRow -> JobRow -> bool
}.

(** ** The state-and-exception monad *)

Inductive outcome (A : Type) : Type :=
| Ret (a : A)
| Exc (e : Exn).
Arguments Ret {A} a.
Arguments Exc {A} e.

Definition M (A : Type) : Type := World -> outcome A * World.

Definition ret {A} (a : A) : M A := fun w => (Ret a, w).

Definition raise {A} (e : Exn) : M A := fun w => (Exc e, w).

Definition bind {A B} (m : M A) (k : A -> M B) : M B :=
  fun w => match m w with
           | (Ret a, w') => k a w'
           | (Exc e, w') => (Exc e, w')
           end.

(** [try: m except Exception as e: h e] *)
Definition try_except {A} (m : M A) (h : Exn -> M A) : M A :=
  fun w => match m w with
           | (Ret a, w') => (Ret a, w')
           | (Exc e, w') => h e w'
           end.

Definition logger (ev : LogEvent) : M unit :=
  fun w => (Ret tt, with_log (w_log w ++ [ev]) w).

Definition of_option {A} (e : Exn) (o : option A) : M A :=
  match o with Some a => ret a | None => raise e end.

Declare Scope crawl_scope.
Delimit Scope crawl_scope with crawl.
Notation "x <- m ;; k" := (bind m (fun x => k))
  (at level 100, m at next level, right associativity) : crawl_scope.
Notation "m ;; k" := (bind m (fun _ => k))
  (at level 100, right associativity) : crawl_scope.
Open Scope crawl_scope.

(** ** [app/database.py]: the storage helpers *)

(** Whether the storage call about to be made raises. *)
Definition next_fault : M bool :=
  fun w => match w_faults w with
           | [] => (Ret false, w)
           | b :: fs => (Ret b, with_faults fs w)
           end.

(** [execute_query]: run a SELECT (a reader of the store); on an error log
    it and re-raise. *)
Definition execute_query {A} (select : World -> A) : M A :=
  f <- next_fault ;;
  if f : bool then logger QueryExecutionError ;; raise DbError
  else fun w => (Ret (select w), w).

(** [execute_insert]: run an INSERT and return [lastrowid]. *)
Definition execute_insert (stmt : World -> nat * World) : M nat :=
  f <- next_fault ;;
  if f : bool then logger InsertExecutionError ;; raise DbError
  else fun w => let (n, w') := stmt w in (Ret n, w').

(** [execute_update]: run an UPDATE and return [rowcount]. *)
Definition execute_update (stmt : World -> nat * World) : M nat :=
  f <- next_fault ;;
  if f : bool then logger UpdateExecutionError ;; raise DbError
  else fun w => let (n, w') := stmt w in (Ret n, w').

(** *** The SQL statements of the crawler *)

(** SQL [=] on a nullable column against a non-null parameter (and
    Python [==] between an optional string and a string). Strings are
    compared exactly, as under a binary collation; a NULL column equals
    nothing. *)
Definition sql_eq (column : option string) (param : string) : bool :=
  match column with
  | Some v => String.eqb v param
  | None => false
  end.

(** [SELECT id FROM job_sources WHERE enabled = TRUE] *)
Definition select_enabled_sources (w : World) : list nat :=
  map src_id (List.filter (fun s => enabled s) (w_sources w)).

(** [SELECT scraper_type, url, name, target_departments FROM job_sources
     WHERE id = :id] *)
Definition select_source (source : nat) (w : World) : list SourceRow :=
  List.filter (fun s => Nat.eqb (src_id s) source) (w_sources w).

(** [INSERT INTO crawler_runs (source_id, status, started_at)
     VALUES (:source_id, 'started', NOW())] *)
Definition insert_run (source : nat) (now : Z) (w : World) : nat * World :=
  let rid := w_next_run_id w in
  (rid,
   with_runs (w_runs w ++ [mkRunRow rid source started None None None now None])
             (S rid) w).

(** The WHERE clause of the existence check:
    [source_id = :source_id AND (external_id = :external_id OR url = :url)] *)
Definition check_matches (source : nat) (ext u : string) (r : JobRow) : bool :=
  Nat.eqb (source_id r) source
  && (sql_eq (r_external_id r) ext || String.eqb (r_url r) u).

(** [SELECT id FROM jobs WHERE ... LIMIT 1] *)
Definition check_query (source : nat) (ext u : string) (w : World) : list nat :=
  take 1 (map id (List.filter (check_matches source ext u) (w_jobs w))).

(** The row [INSERT INTO jobs (...) VALUES (..., TRUE, NOW())] would add. *)
Definition candidate (new_id source : nat) (company_name : string) (now : Z)
    (job : Job) : JobRow :=
  mkJobRow new_id source (external_id job) (title job) company_name
           (location job) (department job) (description job) (job_type job)
           (url job) (posting_date job) true now None.

(** The assignments of [ON DUPLICATE KEY UPDATE] applied to the stored
    row [r]. *)
Definition on_duplicate_key_update (c r : JobRow) (now : Z) : JobRow :=
  mkJobRow (id r) (source_id r) (r_external_id r) (r_title c) (r_company r)
           (r_location c) (r_department c) (r_description c) (r_job_type c)
           (r_url c) (r_posting_date c) true now (Some now).

(** [UPDATE jobs SET is_active = FALSE, last_updated = NOW()] on one row. *)
Definition deactivated (now : Z) (r : JobRow) : JobRow :=
  mkJobRow (id r) (source_id r) (r_external_id r) (r_title r) (r_company r)
           (r_location r) (r_department r) (r_description r) (r_job_type r)
           (r_url r) (r_posting_date r) false (crawled_at r) (Some now).

(** [SELECT id, url FROM jobs WHERE source_id = :source_id
     AND is_active = TRUE] *)
Definition active_jobs_query (source : nat) (w : World) : list (nat * string) :=
  map (fun r => (id r, r_url r))
      (List.filter (fun r => Nat.eqb (source_id r) source && is_active r) (w_jobs w)).

(** [UPDATE jobs SET is_active = FALSE, last_updated = NOW()
     WHERE id = :job_id] *)
Definition deactivate_rows (job_id : nat) (now : Z) (rows : list JobRow)
    : list JobRow :=
  map (fun r => if Nat.eqb (id r) job_id then deactivated now r else r) rows.

Definition deactivate_query (job_id : nat) (now : Z) (w : World) : nat * World :=
  (List.length (List.filter (fun r => Nat.eqb (id r) job_id) (w_jobs w)),
   with_jobs (deactivate_rows job_id now (w_jobs w)) (w_next_job_id w) w).

(** [UPDATE crawler_runs SET status = 'completed', jobs_found = :found,
     jobs_new = :new, jobs_updated = :updated, completed_at = NOW()
     WHERE id = :run_id] *)
Definition complete_run (found new updated : nat) (now : Z) (r : RunRow)
    : RunRow :=
  mkRunRow (run_id r) (run_source_id r) completed (Some found) (Some new)
           (Some updated) (started_at r) (Some now).

Definition update_run (rid found new updated : nat) (now : Z) (w : World)
    : nat * World :=
  (List.length (List.filter (fun r => Nat.eqb (run_id r) rid) (w_runs w)),
   with_runs
     (map (fun r => if Nat.eqb (run_id r) rid
                    then complete_run found new updated now r else r)
          (w_runs w))
     (w_next_run_id w) w).

Section Store.
Context {X : Externals}.

(** [INSERT ... ON DUPLICATE KEY UPDATE ...] on the rows of [jobs]: the
    first stored row colliding with the candidate on the unique index is
    updated in place; without a collision the candidate is appended. *)
Fixpoint upsert_rows (c : JobRow) (now : Z) (rows : list JobRow)
    : list JobRow :=
  match rows with
  | [] => [c]
  | r :: rest =>
      if unique_conflict c r then on_duplicate_key_update c r now :: rest
      else r :: upsert_rows c now rest
  end.

Definition insert_query (source : nat) (company_name : string) (now : Z)
    (job : Job) (w : World) : nat * World :=
  let new_id := w_next_job_id w in
  (new_id,
   with_jobs (upsert_rows (candidate new_id source company_name now job) now
                          (w_jobs w))
             (S new_id) w).

End Store.

(** ** The adapters for the static and the Workday boards *)

Definition text_or (d : string) (e : option string) : string :=
  match e with Some t => PyStr.strip t | None => d end.

Definition href_or (base_url : string) (e : option Element) : string :=
  match e with
  | Some el => match el_href el with Some h => h | None => base_url end
  | None => base_url
  end.

(** The dictionary built in the per-item [try] of [crawl_lever]; [None]
    when building it raises. *)
Definition lever_item (base_url : string) (item : Container) : option Job :=
  match item with
  | Broken => None
  | Card jid title loc comp _ text =>
      Some (mkJob jid (text_or "N/A" (option_map el_text title))
                  (text_or "N/A" comp) (text_or "Remote" loc) None text
                  "full_time" (href_or base_url title) PyNone)
  end.

(** The dictionary built in the per-item [try] of [crawl_greenhouse]. *)
Definition greenhouse_item (base_url : string) (item : Container)
    : option Job :=
  match item with
  | Broken => None
  | Card jid title loc _ link text =>
      Some (mkJob jid (text_or "N/A" (option_map el_text title))
                  "Greenhouse" (text_or "Remote" loc) None text
                  "full_time" (href_or base_url link) PyNone)
  end.

(** The dictionary built in the per-item [try] of [crawl_workday]. *)
Definition workday_item (base_url : string) (item : Container)
    : option Job :=
  match item with
  | Broken => None
  | Card jid title loc _ _ text =>
      Some (mkJob jid (text_or "N/A" (option_map el_text title))
                  "Workday" (text_or "Remote" loc) None text
                  "full_time" (href_or base_url title) PyNone)
  end.

(** [for item in job_items: try: ... jobs.append(job_data)
     except Exception as e: logger.warning(...); continue] *)
Fixpoint parse_items (parse : Container -> option Job)
    (warn : Exn -> LogEvent) (items : list Container) (jobs : list Job)
    : M (list Job) :=
  match items with
  | [] => ret jobs
  | item :: rest =>
      jobs' <- try_except (job_data <- of_option ParseError (parse item) ;;
                           ret (jobs ++ [job_data]))
                          (fun e => logger (warn e) ;; ret jobs) ;;
      parse_items parse warn rest jobs'
  end.

(** [client.get] followed by [raise_for_status]. *)
Definition http_get (page : StaticFetch) : M (list Container) :=
  match page with
  | Unreachable => raise FetchError
  | Html items => ret items
  end.

(** [crawl_lever]: the list [jobs] is empty until the page has been
    fetched, and every statement after the fetch is inside the per-item
    [try]; so the outer handler returns the empty list. *)
Definition crawl_lever (web : Web) (base_url : string) : M (list Job) :=
  try_except
    (job_items <- http_get (lever_get web base_url) ;;
     parse_items (lever_item base_url) LeverParseWarning job_items [])
    (fun e => logger (LeverCrawlError e) ;; ret []).

(** [crawl_greenhouse] *)
Definition crawl_greenhouse (web : Web) (base_url : string) : M (list Job) :=
  try_except
    (job_items <- http_get (greenhouse_get web base_url) ;;
     parse_items (greenhouse_item base_url) GreenhouseParseWarning job_items [])
    (fun e => logger (GreenhouseCrawlError e) ;; ret []).

(** [crawl_workday]: [browser.close()] runs after the loop and inside the
    outer [try]; when it raises, the listings parsed so far are returned. *)
Definition crawl_workday (web : Web) (base_url : string) : M (list Job) :=
  match workday_render web base_url with
  | WorkdayRenderFailure => logger (WorkdayCrawlError FetchError) ;; ret []
  | WorkdayPage job_items close_raises =>
      jobs <- parse_items (workday_item base_url) WorkdayParseWarning
                          job_items [] ;;
      if close_raises : bool
      then logger (WorkdayCrawlError FetchError) ;; ret jobs
      else ret jobs
  end.

(** ** The Ashby adapter *)

(** [id_to_posting]: the postings with a truthy ["id"], later entries
    replacing earlier ones. *)
Definition index_postings (app_data : option (list Posting))
    : gmap string Posting :=
  match app_data with
  | None => ∅
  | Some postings =>
      fold_left (fun (m : gmap string Posting) p =>
                   match p_id p with
                   | Some pid => if PyStr.truthy pid then <[pid := p]> m else m
                   | None => m
                   end) postings ∅
  end.

(** [parts = [p for p in href.strip("/").split("/") if p]] *)
Definition href_parts (href : string) : list string :=
  List.filter PyStr.truthy (PyStr.split "/" (PyStr.strip_slash href)).

(** [len(parts) >= 3 and parts[1] == "jobs"] *)
Definition jobs_pattern (parts : list string) : bool :=
  Nat.leb 3 (List.length parts)
  && String.eqb (nth 1 parts EmptyString) "jobs".

(** The relative reference handed to [urljoin]. *)
Definition job_path (company_slug : string) (parts : list string)
    (ext : string) : string :=
  if jobs_pattern parts then ("/" ++ company_slug ++ "/jobs/" ++ ext)%string
  else ("/" ++ company_slug ++ "/" ++ ext)%string.

(** [a or b] on optional strings. *)
Definition or_opt (a b : option string) : option string :=
  match a with
  | Some s => if PyStr.truthy s then a else b
  | None => b
  end.

(** The anchors the loop does not [continue] past before it builds the
    URL: no ["/apply"], the slug occurs in the [href], and the final
    segment has at least 20 characters. *)
Definition accepted (company_slug : string) (a : Anchor) : option string :=
  let href := PyStr.strip (a_href a) in
  if PyStr.contains "/apply" href || negb (PyStr.contains company_slug href)
  then None
  else match last (href_parts href) with
       | None => None
       | Some ext => if Nat.ltb (PyStr.len ext) 20 then None else Some ext
       end.

Section Ashby.
Context {X : Externals}.

(** The [location] of a posting, with the first secondary location. *)
Definition posting_location (posting : option Posting) : M string :=
  let location := PyStr.or_else (posting ≫= p_locationName) "Remote" in
  match posting with
  | None => ret location
  | Some p =>
      match p_secondaryLocations p with
      | [] => ret location
      | NotADict :: _ => raise ParseError
      | LocDict name :: _ =>
          let sec := default EmptyString name in
          if PyStr.truthy sec then ret (location ++ ", " ++ sec)%string
          else ret location
      end
  end.

(** One iteration of [for a in soup.find_all("a", href=True)]: the listing
    appended, if any. *)
Definition ashby_anchor (origin company_slug : string)
    (id_to_posting : gmap string Posting) (a : Anchor) : M (option Job) :=
  match accepted company_slug a with
  | None => ret None
  | Some ext =>
      let parts := href_parts (PyStr.strip (a_href a)) in
      job_url <- of_option ValueError
                   (urljoin origin (job_path company_slug parts ext)) ;;
      let posting := id_to_posting !! ext in
      let title := PyStr.or_else (posting ≫= p_title) (a_text a) in
      if negb (PyStr.truthy title) then ret None
      else
        let dept := or_opt (posting ≫= p_departmentName)
                           (posting ≫= p_teamName) in
        location <- posting_location posting ;;
        let jt := if sql_eq (posting ≫= p_employmentType) "FullTime"
                  then "full_time" else "unknown" in
        let pd := match posting with
                  | Some p => p_publishedDate p
                  | None => PyNone
                  end in
        logger (AshbyJob title job_url) ;;
        ret (Some (mkJob (Some ext) title company_slug location dept
                         EmptyString jt job_url pd))
  end.

Fixpoint ashby_anchors (origin company_slug : string)
    (id_to_posting : gmap string Posting) (anchors : list Anchor)
    (jobs : list Job) : M (list Job) :=
  match anchors with
  | [] => ret jobs
  | a :: rest =>
      r <- ashby_anchor origin company_slug id_to_posting a ;;
      ashby_anchors origin company_slug id_to_posting rest
        (match r with Some job_data => jobs ++ [job_data] | None => jobs end)
  end.

(** [crawl_ashby]: no [try] surrounds the rendering or the anchor loop;
    the first record is logged once the browser has a page, before the
    navigation. *)
Definition crawl_ashby (web : Web) (base_url : string) : M (list Job) :=
  parsed <- of_option ValueError (urlparse base_url) ;;
  let origin := (scheme parsed ++ "://" ++ netloc parsed)%string in
  let company_slug := PyStr.strip_slash (path parsed) in
  match ashby_render web base_url with
  | AshbyLaunchFailure => raise FetchError
  | AshbyRenderFailure => logger (AshbyCrawling base_url) ;; raise FetchError
  | AshbyPage anchors app_data =>
      logger (AshbyCrawling base_url) ;;
      jobs <- ashby_anchors origin company_slug (index_postings app_data)
                            anchors [] ;;
      logger (AshbyFound (List.length jobs) company_slug) ;;
      ret jobs
  end.

End Ashby.

(** ** [app/services/crawler/__init__.py] *)

(** The dictionary [crawl_source] returns. *)
Inductive CrawlResult : Type :=
| Success (source found new updated : nat)
| FailedMessage (message : string)
| FailedError (error : Exn).

(** The instant a timezone-aware [datetime] denotes, in microseconds. *)
Definition instant (d : datetime) : Z :=
  (dt_wall d - default 0 (dt_tzinfo d))%Z.

(** [dt if dt.tzinfo else dt.replace(tzinfo=timezone.utc)] *)
Definition assume_utc (d : datetime) : datetime :=
  match dt_tzinfo d with
  | Some _ => d
  | None => mkDatetime (dt_wall d) (Some 0%Z)
  end.

Definition datetime_min : Z := (-62135596800000000)%Z.
Definition datetime_max : Z := 253402300799999999%Z.
Definition hour : Z := 3600000000%Z.

(** [datetime.now(timezone.utc) - timedelta(hours=int(max_post_age_hours))]:
    [timedelta] refuses more than 999999999 days, and the difference has
    to be a representable [datetime]. *)
Definition cutoff_of (now max_post_age_hours : Z) : M Z :=
  let days := (max_post_age_hours / 24)%Z in
  if ((days <? -999999999) || (999999999 <? days))%Z then raise OverflowError
  else
    let c := (now - max_post_age_hours * hour)%Z in
    if ((c <? datetime_min) || (datetime_max <? c))%Z then raise OverflowError
    else ret c.

Section Orchestrator.
Context {X : Externals}.

(** [_parse_iso_datetime_maybe] *)
Definition _parse_iso_datetime_maybe (value : PyVal) : option datetime :=
  match value with
  | PyNone => None
  | PyDatetime d => Some (assume_utc d)
  | PyOther => None
  | PyStr v =>
      let s := PyStr.strip v in
      if PyStr.is_empty s then None
      else
        let s := match PyStr.drop_final "Z" s with
                 | Some s0 => (s0 ++ "+00:00")%string
                 | None => s
                 end in
        match fromisoformat s with
        | Some dt => Some (assume_utc dt)
        | None => None
        end
  end.

(** The test of the age loop: [dt is None or dt >= cutoff]. *)
Definition recent (cutoff : Z) (job : Job) : bool :=
  match _parse_iso_datetime_maybe (posting_date job) with
  | None => true
  | Some dt => (cutoff <=? instant dt)%Z
  end.

(** [if max_post_age_hours is not None: ... jobs = filtered_by_age] *)
Definition filter_by_age (now : Z) (max_post_age_hours : option Z)
    (jobs : list Job) : M (list Job) :=
  match max_post_age_hours with
  | None => ret jobs
  | Some h =>
      cutoff <- cutoff_of now h ;;
      ret (List.filter (recent cutoff) jobs)
  end.

Definition engineer_pattern : string :=
  "\b(software|backend|frontend|full.?stack|devops|infrastructure|sre)\s+engineer".

(** The sources of the patterns appended to [dept_patterns] for one
    target department. *)
Definition dept_pattern_sources (dept : string) : list string :=
  let dept_normalized := PyStr.replace_space "\s+" (PyStr.lower dept) in
  ("\b" ++ dept_normalized ++ "\b")%string
  :: (if PyStr.contains "engineering" (PyStr.lower dept)
      then [engineer_pattern] else []).

(** [re.compile] over a list of sources, in order. *)
Fixpoint compile_all (sources : list string) : M (list (string -> bool)) :=
  match sources with
  | [] => ret []
  | src :: rest =>
      p <- of_option RegexError (re_compile src) ;;
      ps <- compile_all rest ;;
      ret (p :: ps)
  end.

(** The inner loop over [dept_patterns] for one listing. *)
Definition matches_department (dept_patterns : list (string -> bool))
    (job : Job) : bool :=
  let title := PyStr.lower (title job) in
  let description := PyStr.lower (description job) in
  existsb (fun pattern => pattern title || pattern description) dept_patterns.

(** [if target_departments: ... jobs = filtered_jobs] *)
Definition filter_by_department (targets : option (list string))
    (jobs : list Job) : M (list Job) :=
  match targets with
  | None | Some [] => ret jobs
  | Some (first :: others) =>
      dept_patterns <- compile_all
                         (flat_map dept_pattern_sources (first :: others)) ;;
      let filtered_jobs :=
        map (set_department (Some first))
            (List.filter (matches_department dept_patterns) jobs) in
      logger (FilteredTo (List.length filtered_jobs) (first :: others)) ;;
      ret filtered_jobs
  end.

(** The counters and the set [crawled_job_urls] of the storing loop. *)
Record Tally : Type := mkTally {
  new_count : nat;
  updated_count : nat;
  crawled_job_urls : gset string
}.

(** The body of the [try] of the storing loop. *)
Definition store_job (source : nat) (company_name : string) (now : Z)
    (job : Job) (t : Tally) : M Tally :=
  let job := set_company company_name job in
  existing <- execute_query
                (check_query source (PyStr.or_else (external_id job) "")
                             (url job)) ;;
  execute_insert (insert_query source company_name now job) ;;
  let urls := {[ url job ]} ∪ crawled_job_urls t in
  match existing with
  | _ :: _ => ret (mkTally (new_count t) (S (updated_count t)) urls)
  | [] => ret (mkTally (S (new_count t)) (updated_count t) urls)
  end.

(** [for job in jobs: try: ... except Exception as e: logger.error(...)] *)
Fixpoint store_jobs (source : nat) (company_name : string) (now : Z)
    (jobs : list Job) (t : Tally) : M Tally :=
  match jobs with
  | [] => ret t
  | job :: rest =>
      t' <- try_except (store_job source company_name now job t)
                       (fun e => logger (ErrorStoringJob e) ;; ret t) ;;
      store_jobs source company_name now rest t'
  end.

(** [for row in active_jobs: if row.get("url") not in crawled_job_urls:
     execute_update(deactivate_query, ...)] *)
Fixpoint deactivate_unseen (now : Z) (seen : gset string)
    (active_jobs : list (nat * string)) : M unit :=
  match active_jobs with
  | [] => ret tt
  | (job_id, u) :: rest =>
      (if decide (u ∈ seen) then ret tt
       else execute_update (deactivate_query job_id now) ;; ret tt) ;;
      deactivate_unseen now seen rest
  end.

(** The [try] around the deactivation sweep. *)
Definition mark_inactive (source : nat) (now : Z) (seen : gset string)
    : M unit :=
  try_except
    (active_jobs <- execute_query (active_jobs_query source) ;;
     deactivate_unseen now seen active_jobs)
    (fun e => logger (ErrorMarkingInactive source e) ;; ret tt).

(** The dispatch on [scraper_type]. *)
Definition adapter_for (web : Web) (kind : string)
    : option (string -> M (list Job)) :=
  if String.eqb kind "lever" then Some (crawl_lever web)
  else if String.eqb kind "greenhouse" then Some (crawl_greenhouse web)
  else if String.eqb kind "workday" then Some (crawl_workday web)
  else if String.eqb kind "ashby" then Some (crawl_ashby web)
  else None.

(** The storing loop, the sweep and the completion of the run row, on the
    filtered batch. *)
Definition persist (now : Z) (run source : nat) (company_name : string)
    (jobs : list Job) : M CrawlResult :=
  t <- store_jobs source company_name now jobs (mkTally 0 0 ∅) ;;
  mark_inactive source now (crawled_job_urls t) ;;
  execute_update (update_run run (List.length jobs) (new_count t)
                             (updated_count t) now) ;;
  ret (Success source (List.length jobs) (new_count t) (updated_count t)).

(** The two filters, then [persist]. *)
Definition reconcile (now : Z) (run source : nat) (company_name : string)
    (targets : option (list string)) (max_post_age_hours : option Z)
    (jobs : list Job) : M CrawlResult :=
  jobs <- filter_by_age now max_post_age_hours jobs ;;
  jobs <- filter_by_department targets jobs ;;
  persist now run source company_name jobs.

(** The body of the outer [try] of [crawl_source]. *)
Definition crawl_source_body (web : Web) (now : Z) (source : nat)
    (max_post_age_hours : option Z) : M CrawlResult :=
  run <- execute_insert (insert_run source now) ;;
  rows <- execute_query (select_source source) ;;
  match rows with
  | [] => ret (FailedMessage "Source not found")
  | s :: _ =>
      match adapter_for web (scraper_type s) with
      | None =>
          ret (FailedMessage ("Unknown scraper type: " ++ scraper_type s))
      | Some adapter =>
          jobs <- adapter (src_url s) ;;
          reconcile now run source (src_name s) (target_departments s)
                    max_post_age_hours jobs
      end
  end.

(** [crawl_source] *)
Definition crawl_source (web : Web) (now : Z) (source : nat)
    (max_post_age_hours : option Z) : M CrawlResult :=
  try_except (crawl_source_body web now source max_post_age_hours)
             (fun e => logger (CrawlSourceError source e) ;;
                       ret (FailedError e)).

(** [crawl_all_sources] *)
Fixpoint crawl_each (web : Web) (now : Z) (max_post_age_hours : option Z)
    (sources : list nat) (results : list CrawlResult)
    : M (list CrawlResult) :=
  match sources with
  | [] => ret results
  | source :: rest =>
      result <- crawl_source web now source max_post_age_hours ;;
      crawl_each web now max_post_age_hours rest (results ++ [result])
  end.

Definition crawl_all_sources (web : Web) (now : Z)
    (max_post_age_hours : option Z) : M (nat * list CrawlResult) :=
  sources <- execute_query select_enabled_sources ;;
  results <- crawl_each web now max_post_age_hours sources [] ;;
  ret (List.length results, results).

End Orchestrator.

(** ** Reference instances of the external code, for running the model *)
Module Reference.

(** Modelled from the spec: the unique index of table [jobs] (its DDL is
    not among the sources). "Natural key: (source_id, external_id) when
    external_id is non-empty; otherwise (source_id, url)", and the store
    offers "natural-key upsert". *)
Definition natural_key (r : JobRow) : nat * (string + string) :=
  let ext := PyStr.or_else (r_external_id r) "" in
  (source_id r, if PyStr.truthy ext then inl ext else inr (r_url r)).

Definition natural_key_conflict (c r : JobRow) : bool :=
  bool_decide (natural_key c = natural_key r).

(** [urlparse] on URLs of the shape [scheme://netloc/path], without query
    or fragment. *)
Fixpoint split_scheme (s : string) : option (string * string) :=
  match s with
  | EmptyString => None
  | String c s' =>
      if PyStr.startswith "://" s
      then Some (EmptyString, substring 3 (String.length s) s)
      else match split_scheme s' with
           | Some (sch, rest) => Some (String c sch, rest)
           | None => None
           end
  end.

Fixpoint split_netloc (s : string) : string * string :=
  match s with
  | EmptyString => (EmptyString, EmptyString)
  | String c s' =>
      if Ascii.eqb c "/" then (EmptyString, s)
      else let (n, p) := split_netloc s' in (String c n, p)
  end.

Definition urlparse (u : string) : option ParseResult :=
  match split_scheme u with
  | Some (sch, rest) =>
      let (n, p) := split_netloc rest in Some (mkParseResult sch n p)
  | None => Some (mkParseResult EmptyString EmptyString u)
  end.

(** [urljoin] of an origin and an absolute path. *)
Definition urljoin (base ref : string) : option string :=
  Some (base ++ ref)%string.

(** [datetime.fromisoformat] on [YYYY-MM-DD], optionally followed by
    [THH:MM:SS] and by an offset [+HH:MM] or [-HH:MM]. *)
Definition digit (c : ascii) : option Z :=
  if PyStr.in_range 48 57 c then Some (Z.of_nat (PyStr.code c) - 48)%Z
  else None.

Fixpoint number (n : nat) (s : list ascii) (acc : Z)
    : option (Z * list ascii) :=
  match n with
  | O => Some (acc, s)
  | S n' =>
      match s with
      | c :: s' =>
          match digit c with
          | Some d => number n' s' (10 * acc + d)%Z
          | None => None
          end
      | [] => None
      end
  end.

Definition days_from_civil (y m d : Z) : Z :=
  let y' := (if m <=? 2 then y - 1 else y)%Z in
  let era := (y' / 400)%Z in
  let yoe := (y' - era * 400)%Z in
  let mp := (if 2 <? m then m - 3 else m + 9)%Z in
  let doy := ((153 * mp + 2) / 5 + d - 1)%Z in
  let doe := (yoe * 365 + yoe / 4 - yoe / 100 + doy)%Z in
  (era * 146097 + doe - 719468)%Z.

Definition parse_offset (s : list ascii) : option (option Z) :=
  match s with
  | [] => Some None
  | sign :: rest =>
      match number 2 rest 0 with
      | Some (hh, (":" :: rest')%char) =>
          match number 2 rest' 0 with
          | Some (mm, []) =>
              let off := ((hh * 60 + mm) * 60000000)%Z in
              if Ascii.eqb sign "+" then Some (Some off)
              else if Ascii.eqb sign "-" then Some (Some (- off)%Z)
              else None
          | _ => None
          end
      | _ => None
      end
  end.

Definition parse_time (s : list ascii) : option (Z * option Z) :=
  match s with
  | [] => Some (0%Z, None)
  | ("T" :: rest)%char =>
      match number 2 rest 0 with
      | Some (hh, (":" :: r1)%char) =>
          match number 2 r1 0 with
          | Some (mi, (":" :: r2)%char) =>
              match number 2 r2 0 with
              | Some (ss, r3) =>
                  match parse_offset r3 with
                  | Some off =>
                      Some (((hh * 60 + mi) * 60 + ss) * 1000000, off)%Z
                  | None => None
                  end
              | None => None
              end
          | _ => None
          end
      | _ => None
      end
  | _ => None
  end.

Definition fromisoformat (s : string) : option datetime :=
  match number 4 (list_ascii_of_string s) 0 with
  | Some (y, ("-" :: r1)%char) =>
      match number 2 r1 0 with
      | Some (m, ("-" :: r2)%char) =>
          match number 2 r2 0 with
          | Some (d, r3) =>
              match parse_time r3 with
              | Some (t, off) =>
                  if ((1 <=? m) && (m <=? 12) && (1 <=? d) && (d <=? 31))%Z
                  then Some (mkDatetime
                               (days_from_civil y m d * 86400000000 + t) off)
                  else None
              | None => None
              end
          | None => None
          end
      | _ => None
      end
  | _ => None
  end.

Definition externals : Externals :=
  mkExternals Regex.compile fromisoformat urlparse urljoin
              natural_key_conflict.

End Reference.

(** ** Sequences of crawls *)

Inductive Call : Type :=
| CrawlSource (web : Web) (now : Z) (source : nat)
              (max_post_age_hours : option Z)
| CrawlAllSources (web : Web) (now : Z) (max_post_age_hours : option Z).

(** One call of the public entry points; an exception escaping
    [crawl_all_sources] is left to the caller, which carries on. *)
Definition call {X : Externals} (c : Call) : M unit :=
  match c with
  | CrawlSource web now source h => crawl_source web now source h ;; ret tt
  | CrawlAllSources web now h =>
      try_except (crawl_all_sources web now h ;; ret tt) (fun _ => ret tt)
  end.

Fixpoint calls {X : Externals} (cs : list Call) : M unit :=
  match cs with
  | [] => ret tt
  | c :: rest => call c ;; calls rest
  end.

(** ** [app/routers/crawl.py]: the endpoint [POST /trigger] *)

(** The dictionary [mapping] of [_window_to_hours]. *)
Definition mapping : gmap string Z :=
  list_to_map [("24h", 24); ("1d", 24); ("7d", 7 * 24); ("15d", 15 * 24);
               ("30d", 30 * 24); ("1m", 30 * 24); ("1mo", 30 * 24);
               ("month", 30 * 24)]%Z.

(** [_window_to_hours] *)
Definition _window_to_hours (window : option string) : option Z :=
  match window with
  | None => None
  | Some window =>
      if negb (PyStr.truthy window) then None
      else mapping !! PyStr.lower (PyStr.strip window)
  end.

(** The resolution of the three query parameters into one window:
    [max_post_age_hours], else [max_post_age_days * 24], else the preset. *)
Definition effective_hours (max_post_age_hours max_post_age_days : option Z)
    (age_window : option string) : option Z :=
  match max_post_age_hours with
  | Some hours => Some hours
  | None =>
      match max_post_age_days with
      | Some days => Some (days * 24)%Z
      | None => _window_to_hours age_window
      end
  end.

(** The bounds [Query(ge=1, le=...)] puts on the two numeric parameters. *)
Definition validated (max_post_age_hours max_post_age_days : option Z)
    : Prop :=
  (forall hours, max_post_age_hours = Some hours -> 1 <= hours <= 24 * 90)%Z
  /\ (forall days, max_post_age_days = Some days -> 1 <= days <= 365)%Z.

(** The value under ["data"]: the result of one crawl, or the dictionary
    [crawl_all_sources] returns. *)
Inductive CrawlData : Type :=
| OneSource (result : CrawlResult)
| AllSources (sources_crawled : nat) (results : list CrawlResult).

(** What the endpoint answers: the dictionary it returns, the
    [HTTPException] it raises, with the exception it was made from, or the
    answer of the framework to a request whose parameters are out of
    their bounds. *)
Inductive Answer : Type :=
| Returned (status message : string) (data : CrawlData)
| HTTPException (status_code : nat) (detail : Exn)
| RequestValidationError (status_code : nat).

(** [Query(None, ge=lo, le=hi)] on an optional integer. *)
Definition within (lo hi : Z) (v : option Z) : bool :=
  match v with
  | Some x => ((lo <=? x) && (x <=? hi))%Z
  | None => true
  end.

(** The records of the router's own logger. *)
Inductive RouterEvent : Type :=
| CrawlError (e : Exn).

(** [str(source_id)] *)
Definition str_of_nat (n : nat) : string :=
  NilZero.string_of_uint (Nat.to_uint n).

(** [trigger_crawl], for source ids that are not negative: the answer, the
    records of the router's logger, and the world after the call. The body
    runs only on a request whose [max_post_age_hours] and
    [max_post_age_days] are within the bounds of their declarations; any
    other request is answered with status 422. *)
Definition trigger_crawl {X : Externals} (web : Web) (now : Z)
    (source_id : option nat) (max_post_age_hours max_post_age_days : option Z)
    (age_window : option string) (w : World)
    : Answer * list RouterEvent * World :=
  if negb (within 1 (24 * 90) max_post_age_hours
           && within 1 365 max_post_age_days)
  then (RequestValidationError 422, [], w)
  else
    let effective :=
      effective_hours max_post_age_hours max_post_age_days age_window in
    let run : M Answer :=
      match source_id with
      | Some (S _ as source) =>
          result <- crawl_source web now source effective ;;
          ret (Returned "success" ("Crawled source " ++ str_of_nat source)
                        (OneSource result))
      | Some O | None =>
          result <- crawl_all_sources web now effective ;;
          ret (Returned "success" "Crawled all sources"
                        (AllSources (fst result) (snd result)))
      end in
    match run w with
    | (Ret answer, w') => (answer, [], w')
    | (Exc e, w') => (HTTPException 500 e, [CrawlError e], w')
    end.

(** ** [app/services/retention.py] *)

(** A row of [jobs_archived], as [archive_old_jobs] writes it: the id of
    the job, [NOW()], and the columns copied from [jobs]. *)
Record ArchivedRow : Type := mkArchivedRow {
  original_job_id : nat;
  archived_at : Z;
  archived_job : JobRow
}.

(** The records of the logger of [retention.py]. *)
Inductive RetentionEvent : Type :=
| ArchivedOldJobs (eligible : nat) (retention_days : Z) (deleted : nat)
| FailedToArchive (e : Exn).

(** The tables [archive_old_jobs] reads and writes: the store of the
    crawler, [jobs_archived], and column [job_id] of [applications] and of
    [cover_letters] (its non-NULL values). *)
Record Tables : Type := mkTables {
  t_world : World;
  t_jobs_archived : list ArchivedRow;
  t_applications : list nat;
  t_cover_letters : list nat;
  t_retention_log : list RetentionEvent
}.

Definition with_world (w : World) (t : Tables) : Tables :=
  mkTables w (t_jobs_archived t) (t_applications t) (t_cover_letters t)
           (t_retention_log t).

(** Computations over the tables; the storage helpers are those of
    [database.py], with their faults and their log. *)
Definition T (A : Type) : Type := Tables -> outcome A * Tables.

Definition t_ret {A} (a : A) : T A := fun t => (Ret a, t).

Definition t_raise {A} (e : Exn) : T A := fun t => (Exc e, t).

Definition t_bind {A B} (m : T A) (k : A -> T B) : T B :=
  fun t => match m t with
           | (Ret a, t') => k a t'
           | (Exc e, t') => (Exc e, t')
           end.

Definition t_try_except {A} (m : T A) (h : Exn -> T A) : T A :=
  fun t => match m t with
           | (Ret a, t') => (Ret a, t')
           | (Exc e, t') => h e t'
           end.

Definition lift {A} (m : M A) : T A :=
  fun t => let (o, w) := m (t_world t) in (o, with_world w t).

Definition t_logger (ev : RetentionEvent) : T unit :=
  fun t => (Ret tt,
            mkTables (t_world t) (t_jobs_archived t) (t_applications t)
                     (t_cover_letters t) (t_retention_log t ++ [ev])).

(** [execute_query] and [execute_update] on statements over these
    tables. *)
Definition t_execute_query {A} (select : Tables -> A) : T A :=
  t_bind (lift next_fault)
         (fun f => if f : bool
                   then t_bind (lift (logger QueryExecutionError))
                               (fun _ => t_raise DbError)
                   else fun t => (Ret (select t), t)).

Definition t_execute_update (stmt : Tables -> nat * Tables) : T nat :=
  t_bind (lift next_fault)
         (fun f => if f : bool
                   then t_bind (lift (logger UpdateExecutionError))
                               (fun _ => t_raise DbError)
                   else fun t => let (n, t') := stmt t in (Ret n, t')).

(** The dictionary [archive_old_jobs] returns. *)
Record Report : Type := mkReport {
  rep_eligible : nat;
  rep_archived : nat;
  rep_deleted : nat;
  rep_retention_days : Z
}.

(** What belongs to the store: the value column [posting_date] holds for
    what the crawler bound to it, NULL or an instant; and
    [DATE_SUB(now, INTERVAL days DAY)], NULL when the store cannot
    represent it. *)
Class StoreClock : Type := mkStoreClock {
  posting_date_column : PyVal -> option Z;
  date_sub : Z -> Z -> option Z
}.

Section Retention.
Context {C : StoreClock}.

(** [COALESCE(j.posting_date, j.crawled_at)
     < DATE_SUB(NOW(), INTERVAL :days DAY)] *)
Definition aged (days now : Z) (j : JobRow) : bool :=
  match date_sub now days with
  | Some cutoff =>
      (default (crawled_at j) (posting_date_column (r_posting_date j))
       <? cutoff)%Z
  | None => false
  end.

(** [EXISTS (SELECT 1 FROM applications a WHERE a.job_id = j.id)], and the
    same on [cover_letters] and on [jobs_archived]. *)
Definition has_application (t : Tables) (j : JobRow) : bool :=
  existsb (Nat.eqb (id j)) (t_applications t).

Definition has_cover_letter (t : Tables) (j : JobRow) : bool :=
  existsb (Nat.eqb (id j)) (t_cover_letters t).

Definition is_archived (t : Tables) (j : JobRow) : bool :=
  existsb (fun ja => Nat.eqb (original_job_id ja) (id j)) (t_jobs_archived t).

(** The WHERE clause shared by the three statements. *)
Definition eligible (days now : Z) (t : Tables) (j : JobRow) : bool :=
  aged days now j && negb (has_application t j)
  && negb (has_cover_letter t j).

(** [count_sql] *)
Definition count_sql (days now : Z) (t : Tables) : nat :=
  List.length (List.filter (eligible days now t) (w_jobs (t_world t))).

(** [insert_sql] *)
Definition insert_sql (days now : Z) (t : Tables) : nat * Tables :=
  let selected :=
    List.filter (fun j => eligible days now t j && negb (is_archived t j))
                (w_jobs (t_world t)) in
  (List.length selected,
   mkTables (t_world t)
            (t_jobs_archived t
             ++ map (fun j => mkArchivedRow (id j) now j) selected)
            (t_applications t) (t_cover_letters t) (t_retention_log t)).

(** [delete_sql] *)
Definition delete_sql (days now : Z) (t : Tables) : nat * Tables :=
  let w := t_world t in
  (List.length (List.filter (eligible days now t) (w_jobs w)),
   with_world
     (with_jobs (List.filter (fun j => negb (eligible days now t j)) (w_jobs w))
                (w_next_job_id w) w)
     t).

(** [int(retention_days or settings.JOB_RETENTION_DAYS)] *)
Definition days_of (JOB_RETENTION_DAYS : Z) (retention_days : option Z) : Z :=
  match retention_days with
  | Some d => if (d =? 0)%Z then JOB_RETENTION_DAYS else d
  | None => JOB_RETENTION_DAYS
  end.

(** [archive_old_jobs]; each of the three statements reads the clock of
    the store itself. *)
Definition archive_old_jobs (JOB_RETENTION_DAYS : Z)
    (retention_days : option Z) (now_count now_insert now_delete : Z)
    : T Report :=
  let days := days_of JOB_RETENTION_DAYS retention_days in
  t_try_except
    (t_bind (t_execute_query (count_sql days now_count)) (fun eligible =>
     t_bind (t_execute_update (insert_sql days now_insert)) (fun _ =>
     t_bind (t_execute_update (delete_sql days now_delete)) (fun deleted =>
     t_bind (t_logger (ArchivedOldJobs eligible days deleted)) (fun _ =>
     t_ret (mkReport eligible eligible deleted days))))))
    (fun e => t_bind (t_logger (FailedToArchive e)) (fun _ => t_raise e)).

End Retention.

(** * Properties *)

(** ** Relations between the world before and after a computation *)
Section Stability.

Variable R : World -> World -> Prop.

Definition stable {A} (m : M A) : Prop := forall w, R w (snd (m w)).

Hypothesis R_refl : forall w, R w w.
Hypothesis R_trans : forall a b c, R a b -> R b c -> R a c.
Hypothesis R_log : forall w l, R w (with_log l w).
Hypothesis R_faults :
  forall w b fs, w_faults w = b :: fs -> R w (with_faults fs w).

Lemma stable_ret {A} (a : A) : stable (ret a).
Proof. intros w. apply R_refl. Qed.

Lemma stable_raise {A} (e : Exn) : stable (@raise A e).
Proof. intros w. apply R_refl. Qed.

Lemma stable_bind {A B} (m : M A) (k : A -> M B) :
  stable m -> (forall a, stable (k a)) -> stable (bind m k).
Proof.
  intros Hm Hk w. unfold bind. specialize (Hm w).
  destruct (m w) as [[a|e] w1]; simpl in *; [|assumption].
  eapply R_trans; [exact Hm | apply Hk].
Qed.

Lemma stable_try_except {A} (m : M A) (h : Exn -> M A) :
  stable m -> (forall e, stable (h e)) -> stable (try_except m h).
Proof.
  intros Hm Hh w. unfold try_except. specialize (Hm w).
  destruct (m w) as [[a|e] w1]; simpl in *; [assumption|].
  eapply R_trans; [exact Hm | apply Hh].
Qed.

Lemma stable_logger ev : stable (logger ev).
Proof. intros w. apply R_log. Qed.

Lemma stable_of_option {A} e (o : option A) : stable (of_option e o).
Proof. destruct o; [apply stable_ret | apply stable_raise]. Qed.

Lemma stable_next_fault : stable next_fault.
Proof.
  intros w. unfold next_fault. destruct (w_faults w) eqn:E; simpl;
    [apply R_refl | eapply R_faults; exact E].
Qed.

Lemma stable_if {A} (b : bool) (m1 m2 : M A) :
  stable m1 -> stable m2 -> stable (if b then m1 else m2).
Proof. destruct b; auto. Qed.

Lemma stable_execute_query {A} (select : World -> A) :
  stable (execute_query select).
Proof.
  unfold execute_query. apply stable_bind; [apply stable_next_fault|].
  intros [|].
  - apply stable_bind; [apply stable_logger | intros; apply stable_raise].
  - intros w. apply R_refl.
Qed.

Lemma stable_execute_insert stmt :
  (forall w, R w (snd (stmt w))) -> stable (execute_insert stmt).
Proof.
  intros Hs. unfold execute_insert.
  apply stable_bind; [apply stable_next_fault|]. intros [|].
  - apply stable_bind; [apply stable_logger | intros; apply stable_raise].
  - intros w. specialize (Hs w). destruct (stmt w). exact Hs.
Qed.

Lemma stable_execute_update stmt :
  (forall w, R w (snd (stmt w))) -> stable (execute_update stmt).
Proof.
  intros Hs. unfold execute_update.
  apply stable_bind; [apply stable_next_fault|]. intros [|].
  - apply stable_bind; [apply stable_logger | intros; apply stable_raise].
  - intros w. specialize (Hs w). destruct (stmt w). exact Hs.
Qed.

(** The adapters only read the web and write the log. *)
Lemma stable_parse_items parse warn items jobs :
  stable (parse_items parse warn items jobs).
Proof.
  revert jobs. induction items as [|i items IH]; intros jobs; simpl.
  - apply stable_ret.
  - apply stable_bind; [|intros; apply IH].
    apply stable_try_except.
    + apply stable_bind; [apply stable_of_option | intros; apply stable_ret].
    + intros e. apply stable_bind; [apply stable_logger | intros; apply stable_ret].
Qed.

Lemma stable_http_get page : stable (http_get page).
Proof. destruct page; [apply stable_raise | apply stable_ret]. Qed.

Lemma stable_crawl_lever web base : stable (crawl_lever web base).
Proof.
  unfold crawl_lever. apply stable_try_except.
  - apply stable_bind; [apply stable_http_get|]. intros.
    apply stable_parse_items.
  - intros. apply stable_bind; [apply stable_logger | intros; apply stable_ret].
Qed.

Lemma stable_crawl_greenhouse web base : stable (crawl_greenhouse web base).
Proof.
  unfold crawl_greenhouse. apply stable_try_except.
  - apply stable_bind; [apply stable_http_get|]. intros.
    apply stable_parse_items.
  - intros. apply stable_bind; [apply stable_logger | intros; apply stable_ret].
Qed.

Lemma stable_crawl_workday web base : stable (crawl_workday web base).
Proof.
  unfold crawl_workday. destruct (workday_render web base).
  - apply stable_bind; [apply stable_logger | intros; apply stable_ret].
  - apply stable_bind.
    + apply stable_parse_items.
    + intros. apply stable_if; [|apply stable_ret].
      apply stable_bind; [apply stable_logger | intros; apply stable_ret].
Qed.

Context {X : Externals}.

Lemma stable_posting_location posting : stable (posting_location posting).
Proof.
  unfold posting_location. destruct posting as [p|]; [|apply stable_ret].
  destruct (p_secondaryLocations p) as [|[|name] ?];
    [apply stable_ret | apply stable_raise |].
  apply stable_if; apply stable_ret.
Qed.

Lemma stable_ashby_anchor origin slug idx a :
  stable (ashby_anchor origin slug idx a).
Proof.
  unfold ashby_anchor. destruct (accepted slug a); [|apply stable_ret].
  apply stable_bind; [apply stable_of_option|]. intros job_url.
  apply stable_if; [apply stable_ret|].
  apply stable_bind; [apply stable_posting_location|]. intros.
  apply stable_bind; [apply stable_logger | intros; apply stable_ret].
Qed.

Lemma stable_ashby_anchors origin slug idx anchors jobs :
  stable (ashby_anchors origin slug idx anchors jobs).
Proof.
  revert jobs. induction anchors as [|a anchors IH]; intros jobs; simpl.
  - apply stable_ret.
  - apply stable_bind; [apply stable_ashby_anchor | intros; apply IH].
Qed.

Lemma stable_crawl_ashby web base : stable (crawl_ashby web base).
Proof.
  unfold crawl_ashby. apply stable_bind; [apply stable_of_option|].
  intros parsed.
  destruct (ashby_render web base); [apply stable_raise | |].
  - apply stable_bind; [apply stable_logger | intros; apply stable_raise].
  - apply stable_bind; [apply stable_logger|]. intros _.
    apply stable_bind; [apply stable_ashby_anchors|]. intros.
    apply stable_bind; [apply stable_logger | intros; apply stable_ret].
Qed.

Lemma stable_adapter web kind adapter base :
  adapter_for web kind = Some adapter -> stable (adapter base).
Proof.
  unfold adapter_for. intros H.
  repeat match type of H with
         | (if ?b then _ else _) = _ => destruct b
         end; inversion H; subst.
  - apply stable_crawl_lever.
  - apply stable_crawl_greenhouse.
  - apply stable_crawl_workday.
  - apply stable_crawl_ashby.
Qed.

(** The filters only write the log. *)
Lemma stable_cutoff_of now h : stable (cutoff_of now h).
Proof.
  unfold cutoff_of. apply stable_if; [apply stable_raise|].
  apply stable_if; [apply stable_raise | apply stable_ret].
Qed.

Lemma stable_filter_by_age now h jobs : stable (filter_by_age now h jobs).
Proof.
  destruct h; simpl; [|apply stable_ret].
  apply stable_bind; [apply stable_cutoff_of | intros; apply stable_ret].
Qed.

Lemma stable_compile_all sources : stable (compile_all sources).
Proof.
  induction sources as [|s sources IH]; simpl; [apply stable_ret|].
  apply stable_bind; [apply stable_of_option|]. intros.
  apply stable_bind; [apply IH | intros; apply stable_ret].
Qed.

Lemma stable_filter_by_department targets jobs :
  stable (filter_by_department targets jobs).
Proof.
  destruct targets as [[|first others]|]; try apply stable_ret.
  unfold filter_by_department.
  apply stable_bind; [apply stable_compile_all|]. intros.
  apply stable_bind; [apply stable_logger | intros; apply stable_ret].
Qed.

(** The storing loop and the sweep, for relations the two statements on
    table [jobs] respect. *)
Hypothesis R_insert_query :
  forall source company now job w,
    R w (snd (insert_query source company now job w)).
Hypothesis R_deactivate_query :
  forall job_id now w, R w (snd (deactivate_query job_id now w)).

Lemma stable_store_job source company now job t :
  stable (store_job source company now job t).
Proof.
  unfold store_job. apply stable_bind; [apply stable_execute_query|].
  intros existing. apply stable_bind.
  - apply stable_execute_insert. apply R_insert_query.
  - intros. destruct existing; apply stable_ret.
Qed.

Lemma stable_store_jobs source company now jobs t :
  stable (store_jobs source company now jobs t).
Proof.
  revert t. induction jobs as [|job jobs IH]; intros t; simpl.
  - apply stable_ret.
  - apply stable_bind; [|intros; apply IH].
    apply stable_try_except; [apply stable_store_job|].
    intros. apply stable_bind; [apply stable_logger | intros; apply stable_ret].
Qed.

Lemma stable_deactivate_unseen now seen active :
  stable (deactivate_unseen now seen active).
Proof.
  induction active as [|[job_id u] active IH]; simpl; [apply stable_ret|].
  apply stable_bind; [|intros; apply IH].
  destruct (decide (u ∈ seen)); [apply stable_ret|].
  apply stable_bind; [|intros; apply stable_ret].
  apply stable_execute_update. apply R_deactivate_query.
Qed.

Lemma stable_mark_inactive source now seen :
  stable (mark_inactive source now seen).
Proof.
  unfold mark_inactive. apply stable_try_except.
  - apply stable_bind; [apply stable_execute_query|]. intros.
    apply stable_deactivate_unseen.
  - intros. apply stable_bind; [apply stable_logger | intros; apply stable_ret].
Qed.

(** The whole crawl, for relations the statements on [crawler_runs]
    respect as well. *)
Hypothesis R_insert_run : forall source now w, R w (snd (insert_run source now w)).
Hypothesis R_update_run :
  forall rid found new updated now w,
    R w (snd (update_run rid found new updated now w)).

Lemma stable_persist now run source company jobs :
  stable (persist now run source company jobs).
Proof.
  unfold persist. apply stable_bind; [apply stable_store_jobs|]. intros t.
  apply stable_bind; [apply stable_mark_inactive|]. intros _.
  apply stable_bind; [|intros; apply stable_ret].
  apply stable_execute_update. apply R_update_run.
Qed.

Lemma stable_reconcile now run source company targets h jobs :
  stable (reconcile now run source company targets h jobs).
Proof.
  unfold reconcile. apply stable_bind; [apply stable_filter_by_age|].
  intros. apply stable_bind; [apply stable_filter_by_department|].
  intros. apply stable_persist.
Qed.

Lemma stable_crawl_source web now source h :
  stable (crawl_source web now source h).
Proof.
  unfold crawl_source. apply stable_try_except.
  - unfold crawl_source_body. apply stable_bind.
    { apply stable_execute_insert. apply R_insert_run. }
    intros run. apply stable_bind; [apply stable_execute_query|].
    intros [|s rows]; [apply stable_ret|].
    destruct (adapter_for web (scraper_type s)) as [adapter|] eqn:E;
      [|apply stable_ret].
    apply stable_bind; [eapply stable_adapter; exact E|].
    intros. apply stable_reconcile.
  - intros. apply stable_bind; [apply stable_logger | intros; apply stable_ret].
Qed.

Lemma stable_crawl_each web now h sources results :
  stable (crawl_each web now h sources results).
Proof.
  revert results. induction sources as [|s sources IH]; intros; simpl.
  - apply stable_ret.
  - apply stable_bind; [apply stable_crawl_source | intros; apply IH].
Qed.

Lemma stable_crawl_all_sources web now h :
  stable (crawl_all_sources web now h).
Proof.
  unfold crawl_all_sources. apply stable_bind; [apply stable_execute_query|].
  intros. apply stable_bind; [apply stable_crawl_each|].
  intros. apply stable_ret.
Qed.

Lemma stable_calls cs : stable (calls cs).
Proof.
  induction cs as [|c cs IH]; simpl; [apply stable_ret|].
  apply stable_bind; [|intros; apply IH].
  destruct c; simpl.
  - apply stable_bind; [apply stable_crawl_source | intros; apply stable_ret].
  - apply stable_try_except; [|intros; apply stable_ret].
    apply stable_bind; [apply stable_crawl_all_sources|].
    intros; apply stable_ret.
Qed.

End Stability.

(** ** No row of [jobs] is ever removed *)

(** What identifies a stored listing and is never reassigned. *)
Definition row_identity (r : JobRow) : nat * nat * option string * string :=
  (id r, source_id r, r_external_id r, r_company r).

(** Every row of [w] is still there in [w'], at its place and with its
    identity; [w'] may hold more rows after them. *)
Definition rows_kept (w w' : World) : Prop :=
  exists added,
    map row_identity (w_jobs w') = map row_identity (w_jobs w) ++ added.

Lemma rows_kept_same_jobs w w' : w_jobs w' = w_jobs w -> rows_kept w w'.
Proof. intros H. exists []. rewrite H. symmetry. apply app_nil_r. Qed.

Lemma rows_kept_refl w : rows_kept w w.
Proof. apply rows_kept_same_jobs. reflexivity. Qed.

Lemma rows_kept_trans a b c : rows_kept a b -> rows_kept b c -> rows_kept a c.
Proof.
  intros [x Hx] [y Hy]. exists (x ++ y). rewrite Hy, Hx. symmetry. apply app_assoc.
Qed.

Lemma upsert_rows_identity {X : Externals} c now rows :
  exists added,
    map row_identity (upsert_rows c now rows) = map row_identity rows ++ added.
Proof.
  induction rows as [|r rows [added IH]]; simpl.
  - exists [row_identity c]. reflexivity.
  - destruct (unique_conflict c r); simpl.
    + exists []. rewrite app_nil_r. reflexivity.
    + exists added. rewrite IH. reflexivity.
Qed.

Lemma deactivate_rows_identity job_id now rows :
  map row_identity (deactivate_rows job_id now rows) = map row_identity rows.
Proof.
  unfold deactivate_rows. rewrite map_map. apply map_ext.
  intros r. destruct (Nat.eqb (id r) job_id); reflexivity.
Qed.

Lemma rows_kept_insert_query {X : Externals} source company now job w :
  rows_kept w (snd (insert_query source company now job w)).
Proof. unfold rows_kept. simpl. apply upsert_rows_identity. Qed.

Lemma rows_kept_deactivate_query job_id now w :
  rows_kept w (snd (deactivate_query job_id now w)).
Proof.
  exists []. simpl. rewrite deactivate_rows_identity. symmetry. apply app_nil_r.
Qed.

(** Discharges the side conditions of the stability lemmas for
    [rows_kept]. *)
Ltac rows_kept_conditions :=
  first [ apply rows_kept_refl
        | apply rows_kept_trans
        | apply rows_kept_insert_query
        | apply rows_kept_deactivate_query
        | intros; apply rows_kept_same_jobs; reflexivity ].

Lemma rows_kept_calls {X : Externals} cs : stable rows_kept (calls cs).
Proof. apply stable_calls; rows_kept_conditions. Qed.

Lemma rows_kept_persist {X : Externals} now run source company jobs :
  stable rows_kept (persist now run source company jobs).
Proof. apply stable_persist; rows_kept_conditions. Qed.

(** C4. Whatever the sequence of [crawl_source] and [crawl_all_sources]
    calls, the web they see, the store they start from and the storage
    faults that occur, every row of [jobs] present before is present
    after, at the same place and with the same id, source, external id and
    company: rows are only appended or have their other fields changed. *)
Theorem crawls_never_delete {X : Externals} (cs : list Call) (w : World) :
  rows_kept w (snd (calls cs w)).
Proof. apply rows_kept_calls. Qed.

(** ** Running a computation *)

Lemma bind_run {A B} (m : M A) (k : A -> M B) w a w' :
  m w = (Ret a, w') -> bind m k w = k a w'.
Proof. intros H. unfold bind. rewrite H. reflexivity. Qed.

Lemma bind_exc {A B} (m : M A) (k : A -> M B) w e w' :
  m w = (Exc e, w') -> bind m k w = (Exc e, w').
Proof. intros H. unfold bind. rewrite H. reflexivity. Qed.

Lemma try_run {A} (m : M A) h w a w' :
  m w = (Ret a, w') -> try_except m h w = (Ret a, w').
Proof. intros H. unfold try_except. rewrite H. reflexivity. Qed.

Lemma try_exc {A} (m : M A) h w e w' :
  m w = (Exc e, w') -> try_except m h w = h e w'.
Proof. intros H. unfold try_except. rewrite H. reflexivity. Qed.

(** ** The age filter *)

(** The cutoff of [h] hours before [now] can be computed. *)
Definition representable (now h : Z) : Prop :=
  (-999999999 <= h / 24 <= 999999999)%Z
  /\ (datetime_min <= now - h * hour <= datetime_max)%Z.

Lemma cutoff_of_run now h w :
  representable now h -> cutoff_of now h w = (Ret (now - h * hour)%Z, w).
Proof.
  intros [[H1 H2] [H3 H4]]. unfold cutoff_of.
  replace (h / 24 <? -999999999)%Z with false by (symmetry; apply Z.ltb_ge; lia).
  replace (999999999 <? h / 24)%Z with false by (symmetry; apply Z.ltb_ge; lia).
  simpl.
  replace (now - h * hour <? datetime_min)%Z with false
    by (symmetry; apply Z.ltb_ge; lia).
  replace (datetime_max <? now - h * hour)%Z with false
    by (symmetry; apply Z.ltb_ge; lia).
  reflexivity.
Qed.

(** C7. With a cutoff of [h] hours the age filter returns, in their order,
    exactly the listings whose posting date is absent or unparsable
    ([_parse_iso_datetime_maybe] gives [None], as it does on [None]) or
    denotes an instant at or after [now - h] hours, the boundary included;
    without a cutoff it returns the batch as it is. *)
Theorem age_filter_keeps_recent {X : Externals} (now h : Z) (jobs : list Job)
    (w : World) :
  representable now h ->
  (exists kept,
      filter_by_age now (Some h) jobs w = (Ret kept, w)
      /\ forall job,
          In job kept <->
          In job jobs
          /\ (_parse_iso_datetime_maybe (posting_date job) = None
              \/ exists dt,
                  _parse_iso_datetime_maybe (posting_date job) = Some dt
                  /\ (now - h * hour <= instant dt)%Z))
  /\ _parse_iso_datetime_maybe PyNone = None
  /\ filter_by_age now None jobs w = (Ret jobs, w).
Proof.
  intros Hrep. split; [|split; reflexivity].
  exists (List.filter (recent (now - h * hour)%Z) jobs). split.
  - unfold filter_by_age. erewrite bind_run by (apply cutoff_of_run; exact Hrep).
    reflexivity.
  - intros job. rewrite filter_In. unfold recent.
    destruct (_parse_iso_datetime_maybe (posting_date job)) as [dt|].
    + rewrite Z.leb_le. split.
      * intros [Hin Hle]. split; [exact Hin|]. right. exists dt. auto.
      * intros [Hin [Hn|[dt' [Heq Hle]]]]; [discriminate|].
        inversion Heq; subst. auto.
    + split; intros [Hin _]; auto.
Qed.

(** ** The department filter *)

Lemma compile_all_run {X : Externals} sources w :
  (forall src, In src sources -> is_Some (re_compile src)) ->
  exists patterns,
    compile_all sources w = (Ret patterns, w)
    /\ Forall2 (fun src p => re_compile src = Some p) sources patterns.
Proof.
  induction sources as [|src sources IH]; intros Hall.
  - exists []. split; [reflexivity | constructor].
  - destruct (Hall src) as [p Hp]; [left; reflexivity|].
    destruct IH as [ps [Hps HF]]; [intros; apply Hall; right; assumption|].
    exists (p :: ps). split; [|constructor; assumption].
    simpl. rewrite Hp. simpl. erewrite (bind_run (ret p)) by reflexivity.
    erewrite bind_run by exact Hps. reflexivity.
Qed.

Lemma split_nonempty sep (s : string) : PyStr.split sep s <> [].
Proof.
  destruct s as [|c s]; simpl; [discriminate|].
  destruct (Ascii.eqb c sep); [discriminate|].
  destruct (PyStr.split sep s); discriminate.
Qed.

(** [s.replace(" ", by)] is [by.join(s.split(" "))]: the pieces between
    the spaces, with [by] between each two of them. *)
Lemma replace_space_concat (by_ s : string) :
  PyStr.replace_space by_ s = String.concat by_ (PyStr.split " " s).
Proof.
  induction s as [|c s IH]; [reflexivity|].
  cbn [PyStr.replace_space PyStr.split].
  pose proof (split_nonempty " " s) as Hne.
  destruct (Ascii.eqb c " ").
  - rewrite IH. destruct (PyStr.split " " s) as [|h t]; [congruence|].
    reflexivity.
  - rewrite IH. destruct (PyStr.split " " s) as [|h t]; [congruence|].
    destruct t; reflexivity.
Qed.

(** A target department [dept] contributes the pattern source [src]: the
    words of the lower-cased keyword - its pieces between spaces - with
    [\s+] between each two of them, pasted as they are between two [\b];
    and the pattern of the engineers for a keyword containing
    "engineering". *)
Definition pattern_for (dept src : string) : Prop :=
  src = ("\b" ++ String.concat "\s+" (PyStr.split " " (PyStr.lower dept))
              ++ "\b")%string
  \/ (PyStr.contains "engineering" (PyStr.lower dept) = true
      /\ src = engineer_pattern).

(** Some pattern of some target department is found in the lower-cased
    title or description of [job]. *)
Definition department_match {X : Externals} (targets : list string)
    (job : Job) : Prop :=
  exists dept src search,
    In dept targets /\ pattern_for dept src /\ re_compile src = Some search
    /\ (search (PyStr.lower (title job)) = true
        \/ search (PyStr.lower (description job)) = true).

Lemma dept_pattern_sources_In dept src :
  In src (dept_pattern_sources dept) <-> pattern_for dept src.
Proof.
  unfold dept_pattern_sources, pattern_for. rewrite replace_space_concat.
  destruct (PyStr.contains "engineering" (PyStr.lower dept)); simpl.
  - split.
    + intros [H|[H|[]]]; [left; auto | right; auto].
    + intros [H|[_ H]]; [left; auto | right; left; auto].
  - split.
    + intros [H|[]]; left; auto.
    + intros [H|[H _]]; [left; auto | discriminate].
Qed.

Lemma matches_department_spec {X : Externals} targets patterns job :
  Forall2 (fun src p => re_compile src = Some p)
          (flat_map dept_pattern_sources targets) patterns ->
  matches_department patterns job = true <-> department_match targets job.
Proof.
  intros HF. unfold matches_department, department_match.
  rewrite existsb_exists. split.
  - intros [p [Hin Hp]].
    assert (exists src, In src (flat_map dept_pattern_sources targets)
                        /\ re_compile src = Some p) as [src [Hsrc Hc]].
    { clear Hp. induction HF as [|s q ss qs Hq HF IH]; [destruct Hin|].
      destruct Hin as [->|Hin].
      - exists s. split; [left; reflexivity | exact Hq].
      - destruct (IH Hin) as [s' [? ?]]. exists s'. split; [right|]; auto. }
    apply in_flat_map in Hsrc. destruct Hsrc as [dept [Hd Hs]].
    exists dept, src, p. repeat split; auto.
    + apply dept_pattern_sources_In; exact Hs.
    + apply orb_true_iff; exact Hp.
  - intros [dept [src [search [Hd [Hpat [Hc Hm]]]]]].
    assert (In src (flat_map dept_pattern_sources targets)) as Hsrc.
    { apply in_flat_map. exists dept. split; [exact Hd|].
      apply dept_pattern_sources_In; exact Hpat. }
    exists search. split; [|apply orb_true_iff; exact Hm].
    clear Hm Hpat Hd. induction HF as [|s q ss qs Hq HF IH]; [destruct Hsrc|].
    destruct Hsrc as [->|Hsrc].
    + left. congruence.
    + right. apply IH; exact Hsrc.
Qed.



(** ** The storing loop, statement by statement *)

(** The storing of one listing fails when its existence check or its
    insert is the storage call that raises. *)
Definition store_fails (faults : list bool) : bool :=
  match faults with
  | true :: _ => true
  | false :: true :: _ => true
  | _ => false
  end.

(** The schedule left after one listing has been handled. *)
Definition store_rest (faults : list bool) : list bool :=
  match faults with
  | true :: fs => fs
  | false :: _ :: fs => fs
  | _ => []
  end.

(** What a failed storing writes to the log. *)
Definition store_failure_log (faults : list bool) : list LogEvent :=
  match faults with
  | true :: _ => [QueryExecutionError; ErrorStoringJob DbError]
  | _ => [InsertExecutionError; ErrorStoringJob DbError]
  end.

(** The counters and the seen set after a listing has been stored. *)
Definition tallied (existing : list nat) (u : string) (t : Tally) : Tally :=
  let urls := {[ u ]} ∪ crawled_job_urls t in
  match existing with
  | _ :: _ => mkTally (new_count t) (S (updated_count t)) urls
  | [] => mkTally (S (new_count t)) (updated_count t) urls
  end.

Lemma seen_add (u : string) (l : list string) (s : gset string) :
  list_to_set l ∪ ({[ u ]} ∪ s) = list_to_set (u :: l) ∪ s.
Proof.
  simpl. rewrite (assoc_L (∪)). f_equal. apply (comm_L (∪)).
Qed.

Section StoreLoop.
Context {X : Externals}.
Variables (source : nat) (company_name : string) (now : Z).

(** One iteration of the loop. *)
Definition store_iteration (job : Job) (t : Tally) : M Tally :=
  try_except (store_job source company_name now job t)
             (fun e => logger (ErrorStoringJob e) ;; ret t).

Lemma store_iteration_fails job t w :
  store_fails (w_faults w) = true ->
  store_iteration job t w
  = (Ret t,
     with_faults (store_rest (w_faults w))
       (with_log (w_log w ++ store_failure_log (w_faults w)) w)).
Proof.
  destruct w as [srcs rows nid runs rid log faults].
  destruct faults as [|[|] [|[|] fs]]; simpl; intros H; try discriminate H;
    cbv [store_iteration store_job try_except bind execute_query
         execute_insert next_fault logger raise ret with_faults with_log
         w_faults w_log w_sources w_jobs w_next_job_id w_runs w_next_run_id];
    rewrite <- ?app_assoc; reflexivity.
Qed.

Lemma store_iteration_stores job t w :
  store_fails (w_faults w) = false ->
  store_iteration job t w
  = (Ret (tallied (check_query source
                     (PyStr.or_else (external_id job) "") (url job) w)
                  (url job) t),
     with_faults (store_rest (w_faults w))
       (with_jobs (upsert_rows
                     (candidate (w_next_job_id w) source company_name now job)
                     now (w_jobs w))
                  (S (w_next_job_id w)) w)).
Proof.
  destruct w as [srcs rows nid runs rid log faults].
  destruct job as [ext ti co lo de ds jt u pd].
  unfold store_iteration, store_job, try_except, bind, execute_query,
    execute_insert, next_fault, tallied, check_query, candidate, set_company.
  destruct faults as [|[|] [|[|] fs]]; simpl; intros H; try discriminate H;
    match goal with
    | |- context [take 1 ?l] => destruct (take 1 l); reflexivity
    end.
Qed.

(** The listings of a batch that get stored under a schedule, the
    schedule left after the batch, and what the loop logs. *)
Fixpoint stored_jobs (faults : list bool) (jobs : list Job) : list Job :=
  match jobs with
  | [] => []
  | job :: rest =>
      if store_fails faults then stored_jobs (store_rest faults) rest
      else job :: stored_jobs (store_rest faults) rest
  end.

Fixpoint faults_after_store (faults : list bool) (jobs : list Job)
    : list bool :=
  match jobs with
  | [] => faults
  | _ :: rest => faults_after_store (store_rest faults) rest
  end.

Fixpoint store_log (faults : list bool) (jobs : list Job) : list LogEvent :=
  match jobs with
  | [] => []
  | _ :: rest =>
      (if store_fails faults then store_failure_log faults else [])
      ++ store_log (store_rest faults) rest
  end.

(** The table after the listings [jobs] have been upserted in order. *)
Fixpoint upsert_all (jobs : list Job) (rows : list JobRow) (next : nat)
    : list JobRow * nat :=
  match jobs with
  | [] => (rows, next)
  | job :: rest =>
      upsert_all rest
        (upsert_rows (candidate next source company_name now job) now rows)
        (S next)
  end.

(** The loop never raises; it upserts the stored listings in order, counts
    each of them once, and adds their urls to the seen set. *)
Lemma store_jobs_run jobs t w :
  exists t',
    store_jobs source company_name now jobs t w
    = (Ret t',
       with_faults (faults_after_store (w_faults w) jobs)
         (with_log (w_log w ++ store_log (w_faults w) jobs)
            (with_jobs
               (fst (upsert_all (stored_jobs (w_faults w) jobs)
                                (w_jobs w) (w_next_job_id w)))
               (snd (upsert_all (stored_jobs (w_faults w) jobs)
                                (w_jobs w) (w_next_job_id w)))
               w)))
    /\ new_count t' + updated_count t'
       = new_count t + updated_count t
         + List.length (stored_jobs (w_faults w) jobs)
    /\ crawled_job_urls t'
       = list_to_set (map url (stored_jobs (w_faults w) jobs))
         ∪ crawled_job_urls t.
Proof.
  revert t w. induction jobs as [|job jobs IH]; intros t w.
  - exists t. split; [|split].
    + destruct w; simpl. rewrite app_nil_r. reflexivity.
    + simpl. lia.
    + simpl. symmetry. apply (left_id_L ∅ (∪)).
  - simpl store_jobs. fold (store_iteration job t).
    destruct (store_fails (w_faults w)) eqn:Hf.
    + erewrite bind_run by (apply store_iteration_fails; exact Hf).
      destruct (IH t (with_faults (store_rest (w_faults w))
                        (with_log (w_log w ++ store_failure_log (w_faults w)) w)))
        as [t' [Hrun [Hn Hu]]].
      exists t'. simpl in *. rewrite Hf. split; [|split; assumption].
      rewrite Hrun. destruct w; simpl. rewrite <- app_assoc. reflexivity.
    + erewrite bind_run by (apply store_iteration_stores; exact Hf).
      match goal with
      | |- context [store_jobs _ _ _ _ ?t1 ?w1] =>
          destruct (IH t1 w1) as [t' [Hrun [Hn Hu]]]
      end.
      exists t'. simpl in *. rewrite Hf. split; [|split].
      * rewrite Hrun. destruct w; simpl. reflexivity.
      * rewrite Hn. unfold tallied.
        destruct (check_query _ _ _ _); simpl; lia.
      * rewrite Hu. unfold tallied.
        destruct (check_query _ _ _ _); simpl; apply seen_add.
Qed.

End StoreLoop.

(** ** The deactivation sweep *)

(** No storage call raises from now on. *)
Definition quiet (faults : list bool) : Prop := forallb negb faults = true.

(** The stored listing is one the sweep retires: of this source, active,
    and with a url outside the seen set. *)
Definition retired (source : nat) (seen : gset string) (r : JobRow) : bool :=
  Nat.eqb (source_id r) source && is_active r
  && negb (bool_decide (r_url r ∈ seen)).

(** The table after a sweep that ran to its end. *)
Definition swept (source : nat) (now : Z) (seen : gset string)
    (rows : list JobRow) : list JobRow :=
  map (fun r => if retired source seen r then deactivated now r else r) rows.

Definition unseen_ids (seen : gset string) (active : list (nat * string))
    : list nat :=
  map fst (List.filter (fun p => negb (bool_decide (snd p ∈ seen))) active).

Definition deactivate_ids (now : Z) (ids : list nat) (rows : list JobRow)
    : list JobRow :=
  fold_left (fun rows job_id => deactivate_rows job_id now rows) ids rows.

Lemma deactivate_unseen_quiet {X : Externals} now seen active :
  forall srcs rows nid runs rid log faults,
    quiet faults ->
    exists faults',
      deactivate_unseen now seen active
        (mkWorld srcs rows nid runs rid log faults)
      = (Ret tt,
         mkWorld srcs (deactivate_ids now (unseen_ids seen active) rows)
                 nid runs rid log faults')
      /\ quiet faults'.
Proof.
  induction active as [|[job_id u] active IH]; intros srcs rows nid runs rid log faults Hq.
  - exists faults. split; [reflexivity | exact Hq].
  - simpl deactivate_unseen. unfold unseen_ids. simpl List.filter.
    destruct (decide (u ∈ seen)) as [Hin|Hout].
    + rewrite (bool_decide_eq_true_2 _ Hin). simpl negb. cbv iota.
      erewrite bind_run by reflexivity. apply IH. exact Hq.
    + rewrite (bool_decide_eq_false_2 _ Hout). simpl negb. cbv iota.
      simpl map. simpl fold_left. unfold deactivate_ids.
      simpl fold_left.
      destruct faults as [|[|] fs]; [| discriminate Hq |].
      * destruct (IH srcs (deactivate_rows job_id now rows) nid runs rid log []
                     Hq) as [f' [Hrun Hq']].
        exists f'. split; [|exact Hq'].
        etransitivity; [|exact Hrun]. reflexivity.
      * destruct (IH srcs (deactivate_rows job_id now rows) nid runs rid log fs
                     Hq) as [f' [Hrun Hq']].
        exists f'. split; [|exact Hq'].
        etransitivity; [|exact Hrun]. reflexivity.
Qed.

Lemma deactivated_twice now r :
  deactivated now (deactivated now r) = deactivated now r.
Proof. reflexivity. Qed.

Lemma deactivate_ids_map now ids rows :
  deactivate_ids now ids rows
  = map (fun r => if existsb (Nat.eqb (id r)) ids then deactivated now r else r)
        rows.
Proof.
  revert rows. induction ids as [|i ids IH]; intros rows; simpl.
  - symmetry. rewrite <- (map_id rows) at 2. apply map_ext. reflexivity.
  - unfold deactivate_ids in *. simpl. rewrite IH. unfold deactivate_rows.
    rewrite map_map. apply map_ext. intros r.
    destruct (Nat.eqb (id r) i) eqn:E; simpl.
    + destruct (existsb _ ids); reflexivity.
    + reflexivity.
Qed.

Lemma unseen_ids_active source seen rows :
  unseen_ids seen
    (map (fun r => (id r, r_url r))
         (List.filter (fun r => Nat.eqb (source_id r) source && is_active r) rows))
  = map id (List.filter (retired source seen) rows).
Proof.
  unfold unseen_ids, retired. induction rows as [|r rows IH]; [reflexivity|].
  simpl. destruct (Nat.eqb (source_id r) source && is_active r); simpl.
  - destruct (bool_decide (r_url r ∈ seen)); simpl; rewrite IH; reflexivity.
  - exact IH.
Qed.

Lemma retired_ids source seen rows r :
  NoDup (map id rows) -> In r rows ->
  existsb (Nat.eqb (id r)) (map id (List.filter (retired source seen) rows))
  = retired source seen r.
Proof.
  intros Hnd Hin. destruct (retired source seen r) eqn:Hr.
  - apply existsb_exists. exists (id r). split; [|apply Nat.eqb_refl].
    apply in_map. apply filter_In. auto.
  - apply not_true_is_false. intros H. apply existsb_exists in H.
    destruct H as [i [Hi Heq]]. apply Nat.eqb_eq in Heq. subst i.
    apply in_map_iff in Hi. destruct Hi as [r' [Hid Hr']].
    apply filter_In in Hr'. destruct Hr' as [Hin' Hret].
    assert (r' = r) as ->; [|congruence].
    clear Hret Hr. induction rows as [|x rows IH]; [destruct Hin|].
    simpl in Hnd. apply NoDup_cons in Hnd. destruct Hnd as [Hx Hnd].
    destruct Hin as [->|Hin], Hin' as [->|Hin']; auto.
    + exfalso. apply Hx. rewrite <- Hid. apply list_elem_of_In.
      apply in_map; exact Hin'.
    + exfalso. apply Hx. rewrite Hid. apply list_elem_of_In.
      apply in_map; exact Hin.
Qed.

(** A sweep in which no storage call raises leaves the table [swept]. *)
Lemma mark_inactive_quiet {X : Externals} source now seen w :
  quiet (w_faults w) -> NoDup (map id (w_jobs w)) ->
  exists faults',
    mark_inactive source now seen w
    = (Ret tt,
       with_faults faults'
         (with_jobs (swept source now seen (w_jobs w)) (w_next_job_id w) w))
    /\ quiet faults'.
Proof.
  destruct w as [srcs rows nid runs rid log faults]. simpl. intros Hq Hnd.
  assert (exists faults0,
             execute_query (active_jobs_query source)
               (mkWorld srcs rows nid runs rid log faults)
             = (Ret (active_jobs_query source
                       (mkWorld srcs rows nid runs rid log faults)),
                mkWorld srcs rows nid runs rid log faults0)
             /\ quiet faults0) as [faults0 [Hquery Hq0]].
  { destruct faults as [|[|] fs]; [| discriminate Hq |].
    - exists []. split; [reflexivity | exact Hq].
    - exists fs. split; [reflexivity | exact Hq]. }
  destruct (deactivate_unseen_quiet now seen
              (active_jobs_query source
                 (mkWorld srcs rows nid runs rid log faults))
              srcs rows nid runs rid log faults0 Hq0) as [f' [Hloop Hq']].
  exists f'. split; [|exact Hq'].
  unfold mark_inactive. erewrite try_run; [reflexivity|].
  erewrite bind_run by exact Hquery. rewrite Hloop.
  unfold with_faults, with_jobs, swept, active_jobs_query. simpl.
  do 2 f_equal. rewrite unseen_ids_active, deactivate_ids_map.
  apply map_ext_in. intros r Hin. rewrite retired_ids by assumption.
  reflexivity.
Qed.

(** ** Primary keys *)

(** The ids of [jobs] are distinct and below the next id to be given. *)
Definition keyed (rows : list JobRow) (next : nat) : Prop :=
  NoDup (map id rows) /\ Forall (fun r => id r < next) rows.

Lemma upsert_rows_ids {X : Externals} c now rows :
  map id (upsert_rows c now rows) = map id rows
  \/ map id (upsert_rows c now rows) = map id rows ++ [id c].
Proof.
  induction rows as [|r rows IH]; simpl.
  - right. reflexivity.
  - destruct (unique_conflict c r); simpl.
    + left. reflexivity.
    + destruct IH as [-> | ->]; [left | right]; reflexivity.
Qed.

Lemma upsert_rows_keyed {X : Externals} source company now job rows next :
  keyed rows next ->
  keyed (upsert_rows (candidate next source company now job) now rows) (S next).
Proof.
  intros [Hnd Hlt].
  assert (Forall (fun i => i < next) (map id rows)) as Hlt'.
  { apply Forall_map. exact Hlt. }
  assert (Forall (fun i => i < S next)
            (map id (upsert_rows (candidate next source company now job) now rows))
          /\ NoDup (map id (upsert_rows (candidate next source company now job)
                                        now rows))) as [H1 H2].
  { destruct (upsert_rows_ids (candidate next source company now job) now rows)
      as [-> | ->].
    - split; [|exact Hnd]. eapply Forall_impl; [exact Hlt'|]. simpl; lia.
    - split.
      + apply Forall_app. split.
        * eapply Forall_impl; [exact Hlt'|]. simpl; lia.
        * constructor; [simpl; lia | constructor].
      + apply NoDup_app. split; [exact Hnd|]. split.
        * intros i Hi Hi'. apply list_elem_of_singleton in Hi'. subst i.
          simpl in Hi. rewrite Forall_forall in Hlt'.
          specialize (Hlt' next Hi). lia.
        * apply NoDup_singleton. }
  split; [exact H2|]. apply Forall_map in H1. exact H1.
Qed.

Lemma upsert_all_keyed {X : Externals} source company now jobs rows next :
  keyed rows next ->
  keyed (fst (upsert_all source company now jobs rows next))
        (snd (upsert_all source company now jobs rows next)).
Proof.
  revert rows next. induction jobs as [|job jobs IH]; intros rows next Hk.
  - exact Hk.
  - simpl. apply IH. apply upsert_rows_keyed. exact Hk.
Qed.

(** ** A crawl during which no storage call raises *)

Lemma quiet_store_fails faults : quiet faults -> store_fails faults = false.
Proof.
  unfold quiet. destruct faults as [|[|] [|[|] ?]]; simpl; intros H; congruence.
Qed.

Lemma quiet_store_rest faults : quiet faults -> quiet (store_rest faults).
Proof.
  unfold quiet. destruct faults as [|[|] [|[|] ?]]; simpl; intros H;
    congruence.
Qed.

Lemma quiet_stored_jobs faults jobs : quiet faults -> stored_jobs faults jobs = jobs.
Proof.
  revert faults. induction jobs as [|job jobs IH]; intros faults Hq; simpl.
  - reflexivity.
  - rewrite quiet_store_fails by exact Hq. f_equal.
    apply IH. apply quiet_store_rest; exact Hq.
Qed.

Lemma quiet_store_log faults jobs : quiet faults -> store_log faults jobs = [].
Proof.
  revert faults. induction jobs as [|job jobs IH]; intros faults Hq; simpl.
  - reflexivity.
  - rewrite quiet_store_fails by exact Hq. simpl.
    apply IH. apply quiet_store_rest; exact Hq.
Qed.

Lemma quiet_faults_after_store faults jobs :
  quiet faults -> quiet (faults_after_store faults jobs).
Proof.
  revert faults. induction jobs as [|job jobs IH]; intros faults Hq; simpl.
  - exact Hq.
  - apply IH. apply quiet_store_rest; exact Hq.
Qed.

Lemma execute_update_quiet stmt w :
  quiet (w_faults w) ->
  exists faults',
    execute_update stmt w
    = (Ret (fst (stmt (with_faults faults' w))),
       snd (stmt (with_faults faults' w)))
    /\ quiet faults'.
Proof.
  destruct w as [srcs rows nid runs rid log faults]. simpl. intros Hq.
  destruct faults as [|[|] fs]; [| discriminate Hq |].
  - exists []. split; [|exact Hq]. unfold execute_update, bind. simpl.
    destruct (stmt _); reflexivity.
  - exists fs. split; [|exact Hq]. unfold execute_update, bind. simpl.
    destruct (stmt _); reflexivity.
Qed.

(** The table a crawl leaves when nothing raises: the batch upserted in
    order, then swept with the urls of the batch as the seen set. *)
Lemma persist_quiet {X : Externals} now run source company jobs w :
  quiet (w_faults w) -> keyed (w_jobs w) (w_next_job_id w) ->
  exists new updated w',
    persist now run source company jobs w
    = (Ret (Success source (List.length jobs) new updated), w')
    /\ new + updated = List.length jobs
    /\ w_jobs w'
       = swept source now (list_to_set (map url jobs))
               (fst (upsert_all source company now jobs (w_jobs w)
                                (w_next_job_id w)))
    /\ quiet (w_faults w').
Proof.
  intros Hq Hk.
  destruct (store_jobs_run source company now jobs (mkTally 0 0 ∅) w)
    as [t [Hstore [Hcount Hseen]]].
  rewrite quiet_stored_jobs in Hstore, Hcount, Hseen by exact Hq.
  rewrite quiet_store_log in Hstore by exact Hq.
  simpl in Hcount, Hseen. rewrite (right_id_L ∅ (∪)) in Hseen.
  set (rows1 := fst (upsert_all source company now jobs (w_jobs w)
                                (w_next_job_id w))) in *.
  set (next1 := snd (upsert_all source company now jobs (w_jobs w)
                                (w_next_job_id w))) in *.
  set (w1 := with_faults (faults_after_store (w_faults w) jobs)
               (with_log (w_log w ++ []) (with_jobs rows1 next1 w))) in *.
  assert (quiet (w_faults w1)) as Hq1
    by (apply quiet_faults_after_store; exact Hq).
  assert (NoDup (map id (w_jobs w1))) as Hnd1
    by (apply (upsert_all_keyed source company now jobs _ _ Hk)).
  destruct (mark_inactive_quiet source now (crawled_job_urls t) w1 Hq1 Hnd1)
    as [f2 [Hsweep Hq2]].
  set (w2 := with_faults f2
               (with_jobs (swept source now (crawled_job_urls t) (w_jobs w1))
                          (w_next_job_id w1) w1)) in *.
  destruct (execute_update_quiet
              (update_run run (List.length jobs) (new_count t)
                          (updated_count t) now) w2 Hq2)
    as [f3 [Hupd Hq3]].
  exists (new_count t), (updated_count t).
  eexists. split; [|split; [|split]].
  - unfold persist. erewrite bind_run by exact Hstore.
    erewrite bind_run by exact Hsweep.
    erewrite bind_run by exact Hupd. reflexivity.
  - lia.
  - simpl. rewrite Hseen. reflexivity.
  - simpl. exact Hq3.
Qed.

Lemma swept_identity source now seen rows :
  map row_identity (swept source now seen rows) = map row_identity rows.
Proof.
  unfold swept. rewrite map_map. apply map_ext. intros r.
  destruct (retired source seen r); reflexivity.
Qed.

Lemma retired_spec source seen r :
  retired source seen r = true
  <-> source_id r = source /\ is_active r = true /\ r_url r ∉ seen.
Proof.
  unfold retired. rewrite !andb_true_iff, Nat.eqb_eq, negb_true_iff.
  rewrite bool_decide_eq_false. tauto.
Qed.

Lemma swept_inactive source now seen rows r' :
  In r' (swept source now seen rows) ->
  source_id r' = source -> r_url r' ∉ seen -> is_active r' = false.
Proof.
  unfold swept. rewrite in_map_iff. intros [r [Heq Hin]] Hs Hu.
  destruct (retired source seen r) eqn:Hr; subst r'.
  - reflexivity.
  - destruct (is_active r) eqn:Ha; [|reflexivity].
    exfalso. apply not_true_iff_false in Hr. apply Hr.
    apply retired_spec. auto.
Qed.

(** C3. A sweep in which no storage call raises rewrites the table row by
    row: a row is set inactive exactly when it belongs to the source, was
    active, and has a url outside the seen set; every other field of it,
    and every other row, stays. No row disappears. Hence, after a crawl
    in which nothing raises, every row of the source whose url is not
    among the urls of the batch is inactive, and all rows that were there
    before the crawl are still there. *)
Theorem sweep_retires_unseen {X : Externals} (source : nat) (now : Z)
    (seen : gset string) (run : nat) (company_name : string)
    (jobs : list Job) (w : World) :
  quiet (w_faults w) -> keyed (w_jobs w) (w_next_job_id w) ->
  (w_jobs (snd (mark_inactive source now seen w))
   = map (fun r => if retired source seen r then deactivated now r else r)
         (w_jobs w)
   /\ (forall r, retired source seen r = true
                 <-> source_id r = source /\ is_active r = true
                     /\ r_url r ∉ seen)
   /\ map row_identity (w_jobs (snd (mark_inactive source now seen w)))
      = map row_identity (w_jobs w))
  /\ (rows_kept w (snd (persist now run source company_name jobs w))
      /\ forall r,
          In r (w_jobs (snd (persist now run source company_name jobs w))) ->
          source_id r = source -> ~ In (r_url r) (map url jobs) ->
          is_active r = false).
Proof.
  intros Hq [Hnd Hlt]. split.
  - destruct (mark_inactive_quiet source now seen w Hq Hnd) as [f [Hrun _]].
    rewrite Hrun. simpl. split; [reflexivity|]. split.
    + apply retired_spec.
    + apply swept_identity.
  - split.
    + apply rows_kept_persist.
    + destruct (persist_quiet now run source company_name jobs w Hq
                  (conj Hnd Hlt)) as [n [u [w' [Hrun [_ [Hrows _]]]]]].
      rewrite Hrun. simpl. rewrite Hrows. intros r Hin Hs Hu.
      eapply swept_inactive; [exact Hin | exact Hs |].
      rewrite elem_of_list_to_set, list_elem_of_In. exact Hu.
Qed.

(** ** One storage fault inside the storing loop *)

(** Quietness is kept by every computation: schedules are only consumed. *)
Definition stays_quiet (w w' : World) : Prop :=
  quiet (w_faults w) -> quiet (w_faults w').

Ltac stays_quiet_conditions :=
  unfold stays_quiet;
  first [ solve [intros; simpl; assumption]
        | solve [intros [] ? ? ?; simpl in *; auto]
        | solve [intros ? [|] ? E H; rewrite E in H; simpl in *;
                 [discriminate H | exact H]] ].

Lemma stays_quiet_mark_inactive {X : Externals} source now seen :
  stable stays_quiet (mark_inactive source now seen).
Proof.
  apply stable_mark_inactive.
  - stays_quiet_conditions.
  - unfold stays_quiet. intros a b c Hab Hbc H. auto.
  - stays_quiet_conditions.
  - unfold stays_quiet. intros w [|] fs E H; rewrite E in H; simpl in *.
    + discriminate H.
    + exact H.
  - stays_quiet_conditions.
Qed.

Lemma mark_inactive_returns {X : Externals} source now seen w :
  exists w', mark_inactive source now seen w = (Ret tt, w').
Proof.
  unfold mark_inactive, try_except.
  match goal with |- context [match ?m with _ => _ end] => destruct m as [[[]|e] w1] end.
  - eexists; reflexivity.
  - eexists; reflexivity.
Qed.

(** The batch without its [i]-th listing. *)
Definition without (i : nat) (jobs : list Job) : list Job :=
  take i jobs ++ drop (S i) jobs.

(** When the first storage call to raise is call number [k] of the loop
    (counting from 0; two calls per listing) and no later call raises,
    exactly the listing at position [k / 2] is not stored. *)
Lemma single_fault_stored jobs :
  forall k rest,
    quiet rest -> k < 2 * List.length jobs ->
    stored_jobs (replicate k false ++ true :: rest) jobs
    = without (Nat.div2 k) jobs
    /\ quiet (faults_after_store (replicate k false ++ true :: rest) jobs)
    /\ In (ErrorStoringJob DbError)
          (store_log (replicate k false ++ true :: rest) jobs).
Proof.
  induction jobs as [|job jobs IH]; intros k rest Hq Hk; [simpl in Hk; lia|].
  destruct k as [|[|k]]; simpl.
  - rewrite quiet_stored_jobs by exact Hq. split; [reflexivity|]. split.
    + apply quiet_faults_after_store; exact Hq.
    + right. left. reflexivity.
  - rewrite quiet_stored_jobs by exact Hq. split; [reflexivity|]. split.
    + apply quiet_faults_after_store; exact Hq.
    + right. left. reflexivity.
  - destruct (IH k rest Hq) as [Hs [Hf Hl]]; [simpl in Hk; lia|].
    split; [|split].
    + unfold without in *. simpl. f_equal. exact Hs.
    + exact Hf.
    + exact Hl.
Qed.

Lemma without_length i jobs :
  i < List.length jobs -> List.length (without i jobs) = List.length jobs - 1.
Proof.
  intros Hi. unfold without. rewrite length_app, length_take, length_drop. lia.
Qed.

(** C5. Suppose that, of the storage calls made for a filtered batch of
    [n] listings, exactly one raises, and that it is one of the two calls
    (existence check, insert) made for a listing of the batch. Then the
    loop catches and logs the error and goes on: the table is the one
    obtained by upserting the other [n - 1] listings in order,
    [jobs_new + jobs_updated = n - 1], and the crawl returns success with
    [jobs_found = n]. *)
Theorem one_failed_listing_is_skipped {X : Externals} (now : Z)
    (run source : nat) (company_name : string) (jobs : list Job) (w : World)
    (k : nat) (rest : list bool) :
  w_faults w = replicate k false ++ true :: rest ->
  quiet rest ->
  k < 2 * List.length jobs ->
  exists t w1 w2,
    store_jobs source company_name now jobs (mkTally 0 0 ∅) w = (Ret t, w1)
    /\ In (ErrorStoringJob DbError) (w_log w1)
    /\ w_jobs w1
       = fst (upsert_all source company_name now (without (Nat.div2 k) jobs)
                         (w_jobs w) (w_next_job_id w))
    /\ new_count t + updated_count t = List.length jobs - 1
    /\ persist now run source company_name jobs w
       = (Ret (Success source (List.length jobs) (new_count t)
                       (updated_count t)), w2).
Proof.
  intros Hfaults Hq Hk.
  destruct (single_fault_stored jobs k rest Hq Hk) as [Hs [Hf Hl]].
  destruct (store_jobs_run source company_name now jobs (mkTally 0 0 ∅) w)
    as [t [Hstore [Hcount Hseen]]].
  rewrite Hfaults, Hs in Hstore, Hcount.
  match type of Hstore with _ = (_, ?x) => set (w1 := x) in * end.
  assert (quiet (w_faults w1)) as Hq1 by exact Hf.
  destruct (mark_inactive_returns source now (crawled_job_urls t) w1)
    as [w2 Hsweep].
  assert (quiet (w_faults w2)) as Hq2.
  { pose proof (stays_quiet_mark_inactive source now (crawled_job_urls t) w1)
      as H. rewrite Hsweep in H. apply H. exact Hq1. }
  destruct (execute_update_quiet
              (update_run run (List.length jobs) (new_count t)
                          (updated_count t) now) w2 Hq2)
    as [f3 [Hupd _]].
  exists t, w1. eexists. split; [exact Hstore|]. split; [|split; [|split]].
  - simpl. apply in_or_app. right. exact Hl.
  - reflexivity.
  - rewrite Hcount. simpl. apply without_length.
    rewrite Nat.div2_div. apply Nat.Div0.div_lt_upper_bound. exact Hk.
  - unfold persist. erewrite bind_run by exact Hstore.
    erewrite bind_run by exact Hsweep.
    erewrite bind_run by exact Hupd. reflexivity.
Qed.

(** ** A listing whose write failed *)

(** What has become of the stored row [r0] in the table [rows]: it is
    there unchanged, or a listing with one of the urls [us] was written
    onto it. *)
Definition tracked (r0 : JobRow) (us : list string) (rows : list JobRow)
    : Prop :=
  In r0 rows
  \/ exists r', In r' rows /\ id r' = id r0 /\ In (r_url r') us.

Lemma upsert_rows_In {X : Externals} c now rows r :
  In r rows ->
  In r (upsert_rows c now rows)
  \/ In (on_duplicate_key_update c r now) (upsert_rows c now rows).
Proof.
  induction rows as [|x rows IH]; intros Hin; [destruct Hin|].
  simpl. destruct (unique_conflict c x) eqn:E.
  - destruct Hin as [->|Hin]; [right; left; reflexivity | left; right; exact Hin].
  - destruct Hin as [->|Hin]; [left; left; reflexivity|].
    destruct (IH Hin); [left | right]; right; assumption.
Qed.

Lemma upsert_all_tracked {X : Externals} source company now jobs :
  forall rows next r0 us,
    tracked r0 us rows ->
    tracked r0 (us ++ map url jobs)
            (fst (upsert_all source company now jobs rows next)).
Proof.
  induction jobs as [|job jobs IH]; intros rows next r0 us Ht.
  - simpl. rewrite app_nil_r. exact Ht.
  - simpl. replace (us ++ url job :: map url jobs)
      with ((us ++ [url job]) ++ map url jobs)
      by (rewrite <- app_assoc; reflexivity).
    apply IH. set (c := candidate next source company now job).
    destruct Ht as [Hin | [r' [Hin [Hid Hu]]]].
    + destruct (upsert_rows_In c now rows r0 Hin) as [H|H]; [left; exact H|].
      right. eexists. split; [exact H|]. split; [reflexivity|].
      simpl. apply in_or_app. right. left. reflexivity.
    + right. destruct (upsert_rows_In c now rows r' Hin) as [H|H].
      * exists r'. split; [exact H|]. split; [exact Hid|].
        apply in_or_app. left. exact Hu.
      * eexists. split; [exact H|]. split; [exact Hid|].
        simpl. apply in_or_app. right. left. reflexivity.
Qed.

Lemma upsert_rows_spares {X : Externals} c now rows r :
  unique_conflict c r = false -> In r rows -> In r (upsert_rows c now rows).
Proof.
  intros Hfree. induction rows as [|x rows IH]; [intros []|]. simpl.
  destruct (unique_conflict c x) eqn:E.
  - intros [Heq|Hin]; [rewrite Heq in E; congruence | right; exact Hin].
  - intros [Heq|Hin]; [left; exact Heq | right; apply IH; exact Hin].
Qed.

Lemma upsert_all_spares {X : Externals} source company now jobs r :
  (forall job next, In job jobs ->
                    unique_conflict (candidate next source company now job) r
                    = false) ->
  forall rows next,
    In r rows -> In r (fst (upsert_all source company now jobs rows next)).
Proof.
  induction jobs as [|job jobs IH]; intros Hfree rows next Hin; [exact Hin|].
  simpl. apply IH.
  - intros j n Hj. apply Hfree. right. exact Hj.
  - apply upsert_rows_spares; [|exact Hin]. apply Hfree. left. reflexivity.
Qed.

Lemma same_id_same_row (rows : list JobRow) (x y : JobRow) :
  NoDup (map id rows) -> In x rows -> In y rows -> id x = id y -> x = y.
Proof.
  induction rows as [|r rows IH]; intros Hnd Hx Hy Hid; [destruct Hx|].
  simpl in Hnd. apply NoDup_cons in Hnd. destruct Hnd as [Hnot Hnd].
  assert (forall z, In z rows -> id z <> id r) as Hfresh.
  { intros z Hz Heq. apply Hnot. apply list_elem_of_In. rewrite <- Heq.
    apply in_map. exact Hz. }
  destruct Hx as [->|Hx]; destruct Hy as [->|Hy].
  - reflexivity.
  - exfalso. apply (Hfresh y Hy). symmetry. exact Hid.
  - exfalso. apply (Hfresh x Hx). exact Hid.
  - apply IH; assumption.
Qed.

(** C10. A listing whose write fails does not enter the seen set: when
    every listing of the batch with url [u] fails to be stored, [u] is not
    in [crawled_job_urls] after the loop. If the storage calls of the
    sweep then succeed, every row of the source that is active with url
    [u] when the sweep starts is inactive after it, with [last_updated]
    set, although the posting was in the batch. A row that was there
    before the crawl is still there, as it was, when the sweep starts,
    if no written listing of the batch collides with it. *)
Theorem failed_write_retires_listing {X : Externals} (now : Z) (source : nat)
    (company_name : string) (jobs : list Job) (w : World) (u : string) :
  keyed (w_jobs w) (w_next_job_id w) ->
  quiet (faults_after_store (w_faults w) jobs) ->
  ~ In u (map url (stored_jobs (w_faults w) jobs)) ->
  exists t w1 w2,
    store_jobs source company_name now jobs (mkTally 0 0 ∅) w = (Ret t, w1)
    /\ (u ∉ crawled_job_urls t)
    /\ mark_inactive source now (crawled_job_urls t) w1 = (Ret tt, w2)
    /\ (forall r,
           In r (w_jobs w) ->
           (forall job next,
               In job (stored_jobs (w_faults w) jobs) ->
               unique_conflict (candidate next source company_name now job) r
               = false) ->
           In r (w_jobs w1))
    /\ forall r,
        In r (w_jobs w1) -> source_id r = source -> r_url r = u ->
        is_active r = true ->
        (exists r', In r' (w_jobs w2) /\ id r' = id r)
        /\ forall r',
            In r' (w_jobs w2) -> id r' = id r ->
            is_active r' = false /\ r_url r' = u
            /\ last_updated r' = Some now
            /\ source_id r' = source /\ r_title r' = r_title r.
Proof.
  intros Hk Hq Hu.
  destruct (store_jobs_run source company_name now jobs (mkTally 0 0 ∅) w)
    as [t [Hstore [_ Hseen]]].
  simpl in Hseen. rewrite (right_id_L ∅ (∪)) in Hseen.
  match type of Hstore with _ = (_, ?x) => set (w1 := x) in * end.
  assert (u ∉ crawled_job_urls t) as Hout.
  { rewrite Hseen, elem_of_list_to_set, list_elem_of_In. exact Hu. }
  assert (NoDup (map id (w_jobs w1))) as Hnd1
    by (apply (upsert_all_keyed source company_name now _ _ _ Hk)).
  destruct (mark_inactive_quiet source now (crawled_job_urls t) w1 Hq Hnd1)
    as [f2 [Hsweep _]].
  exists t, w1. eexists. split; [exact Hstore|]. split; [exact Hout|].
  split; [exact Hsweep|]. split.
  { intros r Hin Hfree. simpl.
    apply upsert_all_spares; [exact Hfree | exact Hin]. }
  intros r Hin1 Hs Hurl Hact.
  assert (retired source (crawled_job_urls t) r = true) as Hret.
  { apply retired_spec. subst u. auto. }
  simpl w_jobs. unfold swept. split.
  - exists (deactivated now r). split; [|reflexivity].
    apply in_map_iff. exists r. rewrite Hret. split; [reflexivity | exact Hin1].
  - intros r' Hr' Hid. apply in_map_iff in Hr'.
    destruct Hr' as [x [Heq Hx]].
    assert (x = r) as ->.
    { apply (same_id_same_row (w_jobs w1)); [exact Hnd1 | exact Hx
                                             | exact Hin1 |].
      rewrite <- Hid, <- Heq.
      destruct (retired source (crawled_job_urls t) x); reflexivity. }
    rewrite Hret in Heq. subst r'. simpl. repeat split; assumption.
Qed.

(** ** The existence check and the classification of a listing *)

Lemma check_matches_spec source ext u r :
  check_matches source ext u r = true
  <-> source_id r = source /\ (r_external_id r = Some ext \/ r_url r = u).
Proof.
  unfold check_matches, sql_eq.
  rewrite andb_true_iff, orb_true_iff, Nat.eqb_eq, String.eqb_eq.
  destruct (r_external_id r) as [e|].
  - rewrite String.eqb_eq. split.
    + intros [H [->|H']]; auto.
    + intros [H [H'|H']]; [inversion H'|]; auto.
  - split.
    + intros [H [H'|H']]; [discriminate|]; auto.
    + intros [H [H'|H']]; [discriminate|]; auto.
Qed.

Lemma check_query_nonempty source ext u w :
  check_query source ext u w <> []
  <-> exists r, In r (w_jobs w) /\ check_matches source ext u r = true.
Proof.
  unfold check_query.
  destruct (List.filter (check_matches source ext u) (w_jobs w))
    as [|r rs] eqn:E; simpl.
  - split; [congruence|]. intros [r [Hin Hm]].
    assert (In r []) as []. rewrite <- E. apply filter_In. auto.
  - split; [|intros _; rewrite take_0; discriminate].
    intros _. exists r. apply filter_In. rewrite E. left. reflexivity.
Qed.

Lemma upsert_rows_conflict_length {X : Externals} c now rows r :
  In r rows -> unique_conflict c r = true ->
  List.length (upsert_rows c now rows) = List.length rows.
Proof.
  induction rows as [|x rows IH]; intros Hin Hc; [destruct Hin|].
  simpl. destruct (unique_conflict c x) eqn:E; [reflexivity|].
  destruct Hin as [->|Hin]; [congruence|]. simpl. f_equal. apply IH; assumption.
Qed.

(** A listing, or a stored row, without external id. *)
Definition no_external_id (ext : option string) : Prop :=
  PyStr.or_else ext "" = "".

Lemma natural_key_no_external_id (r : JobRow) :
  no_external_id (r_external_id r) ->
  Reference.natural_key r = (source_id r, inr (r_url r)).
Proof.
  unfold no_external_id, Reference.natural_key. intros ->. reflexivity.
Qed.

Lemma natural_key_inr (r : JobRow) s u :
  Reference.natural_key r = (s, inr u) ->
  source_id r = s /\ r_url r = u /\ no_external_id (r_external_id r).
Proof.
  unfold Reference.natural_key, no_external_id.
  destruct (PyStr.or_else (r_external_id r) "") as [|a e]; simpl;
    intros H; inversion H; auto.
Qed.

Section NaturalKey.
Context {X : Externals}.
Hypothesis natural_key_index :
  forall c r, unique_conflict c r = Reference.natural_key_conflict c r.

(** After the upsert of a listing without external id there is a row of
    the source with its url and without external id. *)
Lemma upsert_rows_no_external_id c now rows :
  no_external_id (r_external_id c) ->
  exists r, In r (upsert_rows c now rows)
            /\ source_id r = source_id c /\ r_url r = r_url c
            /\ no_external_id (r_external_id r).
Proof.
  intros Hc. induction rows as [|x rows [r [Hin Hr]]]; simpl.
  - exists c. split; [left; reflexivity | auto].
  - destruct (unique_conflict c x) eqn:E.
    + rewrite natural_key_index in E. unfold Reference.natural_key_conflict in E.
      apply bool_decide_eq_true in E.
      rewrite (natural_key_no_external_id c Hc) in E. symmetry in E.
      apply natural_key_inr in E. destruct E as [Hs [_ Hx]].
      eexists. split; [left; reflexivity|]. simpl. auto.
    + exists r. split; [right; exact Hin | exact Hr].
Qed.

End NaturalKey.

(** C2 (amended). A listing that is written is looked up by
    [source_id = :source_id AND (external_id = :external_id OR url = :url)],
    with the empty string for an absent external id: it is counted as
    updated exactly when some row of the source has its external id or its
    url, and as new otherwise. When the unique index of [jobs] is the
    natural key, a written listing without external id leaves a row of the
    source with its url and no external id; and writing a listing without
    external id whose url is that of such a row counts as an update and
    adds no row. *)
Theorem lookup_by_external_id_or_url {X : Externals} (source : nat)
    (company_name : string) (now : Z) (job : Job) (t : Tally) (w : World) :
  store_fails (w_faults w) = false ->
  exists t' w',
    store_iteration source company_name now job t w = (Ret t', w')
    /\ ((exists r, In r (w_jobs w) /\ source_id r = source
                   /\ (r_external_id r
                       = Some (PyStr.or_else (external_id job) "")
                       \/ r_url r = url job))
        -> updated_count t' = S (updated_count t)
           /\ new_count t' = new_count t)
    /\ (~ (exists r, In r (w_jobs w) /\ source_id r = source
                     /\ (r_external_id r
                         = Some (PyStr.or_else (external_id job) "")
                         \/ r_url r = url job))
        -> new_count t' = S (new_count t)
           /\ updated_count t' = updated_count t)
    /\ ((forall c r, unique_conflict c r = Reference.natural_key_conflict c r)
        -> no_external_id (external_id job)
        -> (exists r, In r (w_jobs w') /\ source_id r = source
                      /\ r_url r = url job
                      /\ no_external_id (r_external_id r))
           /\ ((exists r, In r (w_jobs w) /\ source_id r = source
                          /\ r_url r = url job
                          /\ no_external_id (r_external_id r))
               -> updated_count t' = S (updated_count t)
                  /\ List.length (w_jobs w') = List.length (w_jobs w))).
Proof.
  intros Hf. eexists. eexists.
  split; [apply store_iteration_stores; exact Hf|].
  set (ext := PyStr.or_else (external_id job) "").
  assert (forall r, In r (w_jobs w) -> source_id r = source ->
                    (r_external_id r = Some ext \/ r_url r = url job) ->
                    updated_count
                      (tallied (check_query source ext (url job) w) (url job) t)
                    = S (updated_count t)
                    /\ new_count
                         (tallied (check_query source ext (url job) w)
                                  (url job) t)
                       = new_count t) as Hupd.
  { intros r Hin Hs Hm.
    assert (check_query source ext (url job) w <> []) as Hne.
    { apply check_query_nonempty. exists r. split; [exact Hin|].
      apply check_matches_spec. auto. }
    unfold tallied. destruct (check_query source ext (url job) w);
      [congruence | simpl; auto]. }
  split; [|split; [|intros Hkey Hno; split]].
  - intros [r [Hin [Hs Hm]]]. eapply Hupd; eauto.
  - intros Hnone. unfold tallied.
    destruct (check_query source ext (url job) w) as [|i l] eqn:E;
      [simpl; auto|].
    exfalso. apply Hnone.
    assert (check_query source ext (url job) w <> []) as Hne
        by (rewrite E; discriminate).
    apply check_query_nonempty in Hne. destruct Hne as [r [Hin Hm]].
    apply check_matches_spec in Hm. exists r. auto.
  - simpl.
    destruct (upsert_rows_no_external_id Hkey
                (candidate (w_next_job_id w) source company_name now job)
                now (w_jobs w) Hno) as [r [Hin [Hs [Hu Hn]]]].
    exists r. auto.
  - intros [r [Hin [Hs [Hu Hn]]]]. split.
    + apply (Hupd r Hin Hs). right. exact Hu.
    + simpl. apply upsert_rows_conflict_length with (r := r); [exact Hin|].
      rewrite Hkey. unfold Reference.natural_key_conflict.
      apply bool_decide_eq_true.
      rewrite (natural_key_no_external_id r Hn).
      rewrite natural_key_no_external_id by exact Hno.
      simpl. congruence.
Qed.

(** ** The run row *)

(** Table [crawler_runs] is left alone. *)
Definition runs_untouched (w w' : World) : Prop :=
  w_runs w' = w_runs w /\ w_next_run_id w' = w_next_run_id w.

Ltac runs_untouched_conditions :=
  unfold runs_untouched;
  first [ solve [intros; simpl; auto]
        | solve [intros a b c [H1 H2] [H3 H4]; split; congruence] ].

Section RunRow.
Context {X : Externals}.
Variables (old : list RunRow) (rid source : nat) (now : Z).

Definition started_row : RunRow :=
  mkRunRow rid source started None None None now None.

(** The run row of this crawl is the last row and still [started]. *)
Definition run_started (w : World) : Prop :=
  w_runs w = old ++ [started_row] /\ w_next_run_id w = S rid.

(** How the part of a crawl after the creation of the run row ends: with
    the row completed when it returns success, and with the row still
    [started] when it returns a failure or raises. *)
Definition ends_run (m : M CrawlResult) : Prop :=
  forall w, run_started w ->
    match m w with
    | (Ret (Success s found new updated), w') =>
        w_runs w' = old ++ [complete_run found new updated now started_row]
    | (_, w') => run_started w'
    end.

Lemma ends_run_bind {A} (m : M A) (k : A -> M CrawlResult) :
  stable runs_untouched m -> (forall a, ends_run (k a)) -> ends_run (bind m k).
Proof.
  intros Hm Hk w [Hr Hn]. unfold bind. specialize (Hm w).
  destruct (m w) as [[a|e] w1]; simpl in Hm; destruct Hm as [H1 H2].
  - apply Hk. split; congruence.
  - split; congruence.
Qed.

Lemma ends_run_failed message : ends_run (ret (FailedMessage message)).
Proof. intros w H. exact H. Qed.

Hypothesis old_ids : Forall (fun r => run_id r < rid) old.

Lemma update_run_completes found new updated w :
  run_started w ->
  w_runs (snd (update_run rid found new updated now w))
  = old ++ [complete_run found new updated now started_row].
Proof.
  intros [Hr Hn]. simpl. rewrite Hr, map_app. simpl.
  rewrite Nat.eqb_refl. f_equal.
  rewrite <- (map_id old) at 2. apply map_ext_in. intros r Hin.
  pose proof (proj1 (List.Forall_forall _ _) old_ids r Hin) as Hlt.
  simpl in Hlt.
  destruct (Nat.eqb_spec (run_id r) rid); [lia | reflexivity].
Qed.

Lemma ends_run_persist company jobs :
  ends_run (persist now rid source company jobs).
Proof.
  unfold persist. apply ends_run_bind.
  { apply stable_store_jobs; runs_untouched_conditions. }
  intros t. apply ends_run_bind.
  { apply stable_mark_inactive; runs_untouched_conditions. }
  intros _ w Hs. unfold bind, execute_update.
  destruct w as [srcs rows nid runs rid' log faults].
  destruct faults as [|[|] fs].
  - apply (update_run_completes _ _ _ _ Hs).
  - exact Hs.
  - apply (update_run_completes _ _ _
             (mkWorld srcs rows nid runs rid' log fs) Hs).
Qed.

Lemma ends_run_after_insert web h :
  ends_run
    (rows <- execute_query (select_source source) ;;
     match rows with
     | [] => ret (FailedMessage "Source not found")
     | s :: _ =>
         match adapter_for web (scraper_type s) with
         | None =>
             ret (FailedMessage ("Unknown scraper type: " ++ scraper_type s))
         | Some adapter =>
             jobs <- adapter (src_url s) ;;
             reconcile now rid source (src_name s) (target_departments s)
                       h jobs
         end
     end).
Proof.
  apply ends_run_bind.
  { apply stable_execute_query; runs_untouched_conditions. }
  intros [|s rows]; [apply ends_run_failed|].
  destruct (adapter_for web (scraper_type s)) as [adapter|] eqn:E;
    [|apply ends_run_failed].
  apply ends_run_bind.
  { eapply stable_adapter; [runs_untouched_conditions .. | exact E]. }
  intros jobs. unfold reconcile. apply ends_run_bind.
  { apply stable_filter_by_age; runs_untouched_conditions. }
  intros jobs1. apply ends_run_bind.
  { apply stable_filter_by_department; runs_untouched_conditions. }
  intros jobs2. apply ends_run_persist.
Qed.

End RunRow.

(** C6 (amended). Every [crawl_source] call returns a result. When its
    first storage call, the insert of the run row, raises, no run row is
    created. Otherwise a row with status [started] is appended to
    [crawler_runs] before the source is looked up, and it is the only row
    of the table the crawl touches: when the crawl returns success the row
    has been set, once, to [completed] with the counts returned and
    [completed_at]; when the crawl returns a failure - a caught exception
    or a configuration failure (source not found, unknown scraper type) -
    the row is left [started]. *)
Theorem run_row_lifecycle {X : Externals} (web : Web) (now : Z)
    (source : nat) (h : option Z) (w : World) :
  Forall (fun r => run_id r < w_next_run_id w) (w_runs w) ->
  exists result w',
    crawl_source web now source h w = (Ret result, w')
    /\ (hd false (w_faults w) = true ->
        result = FailedError DbError /\ w_runs w' = w_runs w)
    /\ (hd false (w_faults w) = false ->
        match result with
        | Success _ found new updated =>
            w_runs w'
            = w_runs w
              ++ [mkRunRow (w_next_run_id w) source completed (Some found)
                           (Some new) (Some updated) now (Some now)]
        | _ =>
            w_runs w'
            = w_runs w
              ++ [mkRunRow (w_next_run_id w) source started None None None
                           now None]
        end).
Proof.
  intros Hids.
  destruct w as [srcs rows nid runs rid log faults]. simpl in Hids.
  assert (forall fs,
             exists result w',
               try_except
                 (bind (fun w => (Ret rid, snd (insert_run source now w)))
                       (fun run =>
                          rows <- execute_query (select_source source) ;;
                          match rows with
                          | [] => ret (FailedMessage "Source not found")
                          | s :: _ =>
                              match adapter_for web (scraper_type s) with
                              | None =>
                                  ret (FailedMessage
                                         ("Unknown scraper type: "
                                            ++ scraper_type s))
                              | Some adapter =>
                                  jobs <- adapter (src_url s) ;;
                                  reconcile now run source (src_name s)
                                            (target_departments s) h jobs
                              end
                          end))
                 (fun e => logger (CrawlSourceError source e) ;;
                           ret (FailedError e))
                 (mkWorld srcs rows nid runs rid log fs)
               = (Ret result, w')
               /\ match result with
                  | Success _ found new updated =>
                      w_runs w'
                      = runs ++ [complete_run found new updated now
                                   (started_row rid source now)]
                  | _ => w_runs w' = runs ++ [started_row rid source now]
                  end) as Hgo.
  { intros fs. unfold try_except, bind at 1. simpl insert_run. cbv beta iota.
    simpl snd.
    match goal with
    | |- context [match ?m ?w1 with _ => _ end] =>
        pose proof (ends_run_after_insert runs rid source now Hids web h w1
                      (conj eq_refl eq_refl)) as Hend;
        destruct (m w1) as [[result|e] w']
    end.
    - exists result, w'. split; [reflexivity|].
      destruct result; try exact Hend; apply Hend.
    - eexists. eexists. split; [reflexivity|]. simpl. apply Hend. }
  destruct faults as [|[|] fs].
  - destruct (Hgo []) as [result [w' [Hrun Hrows]]].
    exists result, w'. split; [exact Hrun|]. split; [discriminate|].
    intros _. exact Hrows.
  - eexists. eexists. split; [reflexivity|]. split.
    + intros _. split; reflexivity.
    + discriminate.
  - destruct (Hgo fs) as [result [w' [Hrun Hrows]]].
    exists result, w'. split; [exact Hrun|]. split; [discriminate|].
    intros _. exact Hrows.
Qed.

(** ** What the adapters do with failures *)

(** The warnings logged for the containers on which the extraction
    raises. *)
Definition warnings (warn : Exn -> LogEvent) (parse : Container -> option Job)
    (items : list Container) : list LogEvent :=
  map (fun _ => warn ParseError)
      (List.filter (fun i => negb (bool_decide (is_Some (parse i)))) items).

Lemma parse_items_run parse warn items :
  forall jobs w,
    parse_items parse warn items jobs w
    = (Ret (jobs ++ omap parse items),
       with_log (w_log w ++ warnings warn parse items) w).
Proof.
  induction items as [|item items IH]; intros jobs w.
  - destruct w; simpl. rewrite !app_nil_r. reflexivity.
  - simpl parse_items. unfold warnings. simpl.
    destruct (parse item) as [job|] eqn:E.
    + erewrite bind_run by (unfold try_except, bind; simpl; reflexivity).
      rewrite IH. simpl. rewrite <- app_assoc. reflexivity.
    + erewrite bind_run by (unfold try_except, bind; simpl; reflexivity).
      rewrite IH. destruct w; simpl. unfold warnings.
      rewrite <- app_assoc. reflexivity.
Qed.

Lemma crawl_lever_run web base w :
  crawl_lever web base w
  = match lever_get web base with
    | Unreachable =>
        (Ret [], with_log (w_log w ++ [LeverCrawlError FetchError]) w)
    | Html items =>
        (Ret (omap (lever_item base) items),
         with_log (w_log w ++ warnings LeverParseWarning (lever_item base) items)
                  w)
    end.
Proof.
  unfold crawl_lever. destruct (lever_get web base) as [|items].
  - reflexivity.
  - erewrite try_run; [reflexivity|].
    erewrite bind_run by reflexivity. apply parse_items_run.
Qed.

Lemma crawl_greenhouse_run web base w :
  crawl_greenhouse web base w
  = match greenhouse_get web base with
    | Unreachable =>
        (Ret [], with_log (w_log w ++ [GreenhouseCrawlError FetchError]) w)
    | Html items =>
        (Ret (omap (greenhouse_item base) items),
         with_log (w_log w ++ warnings GreenhouseParseWarning
                                  (greenhouse_item base) items) w)
    end.
Proof.
  unfold crawl_greenhouse. destruct (greenhouse_get web base) as [|items].
  - reflexivity.
  - erewrite try_run; [reflexivity|].
    erewrite bind_run by reflexivity. apply parse_items_run.
Qed.

Lemma crawl_workday_run web base w :
  crawl_workday web base w
  = match workday_render web base with
    | WorkdayRenderFailure =>
        (Ret [], with_log (w_log w ++ [WorkdayCrawlError FetchError]) w)
    | WorkdayPage items close_raises =>
        (Ret (omap (workday_item base) items),
         with_log (w_log w
                   ++ warnings WorkdayParseWarning (workday_item base) items
                   ++ (if close_raises then [WorkdayCrawlError FetchError]
                       else [])) w)
    end.
Proof.
  unfold crawl_workday. destruct (workday_render web base) as [|items closes].
  - reflexivity.
  - erewrite bind_run by apply parse_items_run.
    destruct closes, w; unfold bind, logger, ret, with_log; simpl;
      rewrite <- ?app_assoc, ?app_nil_r; reflexivity.
Qed.

(** What [crawl_ashby] has logged when the browser fails. *)
Definition ashby_failure_log (fetch : AshbyFetch) (base : string)
    : list LogEvent :=
  match fetch with
  | AshbyLaunchFailure => []
  | _ => [AshbyCrawling base]
  end.

Lemma crawl_ashby_render_failure {X : Externals} web base parsed w :
  urlparse base = Some parsed ->
  ashby_render web base = AshbyLaunchFailure
  \/ ashby_render web base = AshbyRenderFailure ->
  crawl_ashby web base w
  = (Exc FetchError,
     with_log (w_log w ++ ashby_failure_log (ashby_render web base) base) w).
Proof.
  intros Hp [Hr|Hr]; unfold crawl_ashby; rewrite Hp, Hr.
  - destruct w. simpl. unfold bind, raise, with_log. simpl.
    rewrite app_nil_r. reflexivity.
  - reflexivity.
Qed.

Lemma ashby_anchors_raise {X : Externals} origin slug idx a rest jobs w e w' :
  ashby_anchor origin slug idx a w = (Exc e, w') ->
  ashby_anchors origin slug idx (a :: rest) jobs w = (Exc e, w').
Proof. intros H. simpl. erewrite bind_exc by exact H. reflexivity. Qed.

(** ** A crawl whose adapter returns the empty batch *)

(** The board of the source cannot be fetched, and the source is of one of
    the three kinds whose adapter catches the failure. *)
Definition outage (web : Web) (s : SourceRow) : Prop :=
  (scraper_type s = "lever" /\ lever_get web (src_url s) = Unreachable)
  \/ (scraper_type s = "greenhouse"
      /\ greenhouse_get web (src_url s) = Unreachable)
  \/ (scraper_type s = "workday"
      /\ workday_render web (src_url s) = WorkdayRenderFailure).

(** The two filters do not raise: the cutoff can be computed and the
    patterns of the target departments compile. *)
Definition filters_run {X : Externals} (now : Z) (h : option Z)
    (targets : option (list string)) : Prop :=
  (forall hours, h = Some hours -> representable now hours)
  /\ (forall src,
         In src (flat_map dept_pattern_sources (default [] targets)) ->
         is_Some (re_compile src)).

Lemma execute_insert_quiet stmt w :
  quiet (w_faults w) ->
  exists faults',
    execute_insert stmt w
    = (Ret (fst (stmt (with_faults faults' w))),
       snd (stmt (with_faults faults' w)))
    /\ quiet faults'.
Proof.
  destruct w as [srcs rows nid runs rid log faults]. simpl. intros Hq.
  destruct faults as [|[|] fs]; [| discriminate Hq |].
  - exists []. split; [|exact Hq]. unfold execute_insert, bind. simpl.
    destruct (stmt _); reflexivity.
  - exists fs. split; [|exact Hq]. unfold execute_insert, bind. simpl.
    destruct (stmt _); reflexivity.
Qed.

Lemma execute_query_quiet {A} (select : World -> A) w :
  quiet (w_faults w) ->
  exists faults',
    execute_query select w
    = (Ret (select (with_faults faults' w)), with_faults faults' w)
    /\ quiet faults'.
Proof.
  destruct w as [srcs rows nid runs rid log faults]. simpl. intros Hq.
  destruct faults as [|[|] fs]; [| discriminate Hq |].
  - exists []. split; [reflexivity | exact Hq].
  - exists fs. split; [reflexivity | exact Hq].
Qed.

Lemma persist_nothing {X : Externals} now run source company w :
  quiet (w_faults w) ->
  exists w',
    persist now run source company [] w = (Ret (Success source 0 0 0), w').
Proof.
  intros Hq. unfold persist.
  erewrite bind_run by reflexivity.
  destruct (mark_inactive_returns source now
              (crawled_job_urls (mkTally 0 0 ∅)) w) as [w1 Hsweep].
  pose proof (stays_quiet_mark_inactive source now
                (crawled_job_urls (mkTally 0 0 ∅)) w) as Hq1.
  rewrite Hsweep in Hq1. simpl in Hq1.
  erewrite bind_run by exact Hsweep.
  destruct (execute_update_quiet
              (update_run run (List.length (@nil Job))
                          (new_count (mkTally 0 0 ∅))
                          (updated_count (mkTally 0 0 ∅)) now) w1 (Hq1 Hq))
    as [f [Hup _]].
  erewrite bind_run by exact Hup.
  eexists. reflexivity.
Qed.

Lemma filters_nothing {X : Externals} now h targets w :
  filters_run now h targets ->
  exists w',
    (jobs <- filter_by_age now h [] ;; filter_by_department targets jobs) w
    = (Ret [], w')
    /\ w_faults w' = w_faults w.
Proof.
  intros [Hage Hdept].
  assert (filter_by_age now h [] w = (Ret [], w)) as Ha.
  { destruct h as [hours|]; [|reflexivity].
    unfold filter_by_age.
    erewrite bind_run by (apply cutoff_of_run; apply Hage; reflexivity).
    reflexivity. }
  erewrite bind_run by exact Ha.
  destruct targets as [[|first others]|].
  - exists w. split; reflexivity.
  - destruct (compile_all_run _ w Hdept) as [patterns [Hc _]].
    unfold filter_by_department. erewrite bind_run by exact Hc.
    eexists. split; reflexivity.
  - exists w. split; reflexivity.
Qed.

Lemma outage_batch {X : Externals} web s :
  outage web s ->
  exists adapter,
    adapter_for web (scraper_type s) = Some adapter
    /\ forall w, exists w',
         adapter (src_url s) w = (Ret [], w') /\ w_faults w' = w_faults w.
Proof.
  intros [[Hk Hf] | [[Hk Hf] | [Hk Hf]]]; rewrite Hk.
  - exists (crawl_lever web). split; [reflexivity|]. intros w.
    rewrite crawl_lever_run, Hf. eexists. split; reflexivity.
  - exists (crawl_greenhouse web). split; [reflexivity|]. intros w.
    rewrite crawl_greenhouse_run, Hf. eexists. split; reflexivity.
  - exists (crawl_workday web). split; [reflexivity|]. intros w.
    rewrite crawl_workday_run, Hf. eexists. split; reflexivity.
Qed.

(** When the board of a Lever, Greenhouse or Workday source cannot be
    fetched, no storage call raises and the filters do not raise, the crawl
    returns success with no listing found. *)
Lemma crawl_source_outage {X : Externals} web now source h s others w :
  select_source source w = s :: others ->
  outage web s ->
  quiet (w_faults w) ->
  filters_run now h (target_departments s) ->
  exists w',
    crawl_source web now source h w = (Ret (Success source 0 0 0), w').
Proof.
  intros Hsel Hout Hq Hf.
  destruct (outage_batch web s Hout) as [adapter [Had Hbatch]].
  destruct (execute_insert_quiet (insert_run source now) w Hq)
    as [f1 [Hins Hq1]].
  match type of Hins with _ = (Ret ?r, ?x) => set (run := r) in *;
                                               set (w1 := x) in * end.
  destruct (execute_query_quiet (select_source source) w1 Hq1)
    as [f2 [Hquery Hq2]].
  assert (select_source source (with_faults f2 w1) = s :: others) as Hsel2
      by exact Hsel.
  rewrite Hsel2 in Hquery.
  destruct (Hbatch (with_faults f2 w1)) as [w3 [Hrun3 Hf3]].
  destruct (filters_nothing now h (target_departments s) w3 Hf)
    as [w4 [Hrun4 Hf4]].
  destruct (persist_nothing now run source (src_name s) w4) as [w5 Hrun5].
  { rewrite Hf4, Hf3. exact Hq2. }
  exists w5. unfold crawl_source. erewrite try_run; [reflexivity|].
  unfold crawl_source_body.
  erewrite bind_run by exact Hins.
  erewrite bind_run by exact Hquery.
  cbv beta iota. rewrite Had.
  erewrite bind_run by exact Hrun3.
  unfold reconcile. unfold bind in Hrun4 |- *.
  destruct (filter_by_age now h [] w3) as [[aged|e] wa]; [|discriminate Hrun4].
  rewrite Hrun4. exact Hrun5.
Qed.

(** C1 (amended). The Lever, Greenhouse and Workday adapters never raise:
    they skip the containers on which the extraction raises, with a
    warning each, and when the fetch or the rendering fails they log the
    error and return the empty batch as a normal result; so the crawl of
    such a source goes on and, when no storage call and no filter raises,
    returns success with no listing found. Only the Ashby adapter lets a
    failure reach its caller - a failure of the browser, before or after
    the first log record, and also a failure on a single anchor, which
    ends its loop: [crawl_source] catches a failure of the browser at its
    outer [try] and returns a failed result for that source. *)
Theorem adapter_failures {X : Externals} (web : Web) (now : Z) (source : nat)
    (h : option Z) (s : SourceRow) (others : list SourceRow)
    (parsed : ParseResult) (w : World) :
  select_source source w = s :: others ->
  scraper_type s = "ashby" ->
  urlparse (src_url s) = Some parsed ->
  ashby_render web (src_url s) = AshbyLaunchFailure
  \/ ashby_render web (src_url s) = AshbyRenderFailure ->
  store_fails (w_faults w) = false ->
  (forall base w0,
      crawl_lever web base w0
      = match lever_get web base with
        | Unreachable =>
            (Ret [], with_log (w_log w0 ++ [LeverCrawlError FetchError]) w0)
        | Html items =>
            (Ret (omap (lever_item base) items),
             with_log (w_log w0 ++ warnings LeverParseWarning
                                       (lever_item base) items) w0)
        end)
  /\ (forall base w0,
         crawl_greenhouse web base w0
         = match greenhouse_get web base with
           | Unreachable =>
               (Ret [],
                with_log (w_log w0 ++ [GreenhouseCrawlError FetchError]) w0)
           | Html items =>
               (Ret (omap (greenhouse_item base) items),
                with_log (w_log w0 ++ warnings GreenhouseParseWarning
                                          (greenhouse_item base) items) w0)
           end)
  /\ (forall base w0,
         crawl_workday web base w0
         = match workday_render web base with
           | WorkdayRenderFailure =>
               (Ret [],
                with_log (w_log w0 ++ [WorkdayCrawlError FetchError]) w0)
           | WorkdayPage items close_raises =>
               (Ret (omap (workday_item base) items),
                with_log (w_log w0
                          ++ warnings WorkdayParseWarning (workday_item base)
                                      items
                          ++ (if close_raises
                              then [WorkdayCrawlError FetchError] else [])) w0)
           end)
  /\ (forall source0 h0 s0 others0 w0,
         select_source source0 w0 = s0 :: others0 ->
         outage web s0 ->
         quiet (w_faults w0) ->
         filters_run now h0 (target_departments s0) ->
         exists w1,
           crawl_source web now source0 h0 w0
           = (Ret (Success source0 0 0 0), w1))
  /\ (forall w0,
         crawl_ashby web (src_url s) w0
         = (Exc FetchError,
            with_log (w_log w0
                      ++ match ashby_render web (src_url s) with
                         | AshbyLaunchFailure => []
                         | _ => [AshbyCrawling (src_url s)]
                         end) w0))
  /\ (forall origin slug idx a rest jobs w0 e w1,
         ashby_anchor origin slug idx a w0 = (Exc e, w1) ->
         ashby_anchors origin slug idx (a :: rest) jobs w0 = (Exc e, w1))
  /\ exists w',
      crawl_source web now source h w = (Ret (FailedError FetchError), w')
      /\ In (CrawlSourceError source FetchError) (w_log w').
Proof.
  intros Hsel Hkind Hparse Hrender Hfaults.
  split; [intros; apply crawl_lever_run|].
  split; [intros; apply crawl_greenhouse_run|].
  split; [intros; apply crawl_workday_run|].
  split; [intros; eapply crawl_source_outage; eassumption|].
  split; [intros; eapply crawl_ashby_render_failure; eassumption|].
  split; [intros; apply ashby_anchors_raise; assumption|].
  destruct w as [srcs rows nid runs rid log faults].
  unfold select_source in Hsel. simpl in Hsel.
  unfold crawl_source, crawl_source_body, try_except, bind, execute_insert,
    execute_query, next_fault, select_source.
  destruct faults as [|[|] [|[|] fs]]; simpl in Hfaults; try discriminate;
    simpl; rewrite Hsel, Hkind; simpl;
    erewrite crawl_ashby_render_failure by eassumption;
    (eexists; split; [reflexivity|]; simpl;
     apply in_or_app; right; left; reflexivity).
Qed.

(** ** The url an Ashby listing gets *)

Lemma accepted_last slug a ext :
  accepted slug a = Some ext ->
  last (href_parts (PyStr.strip (a_href a))) = Some ext
  /\ PyStr.contains "/apply" (PyStr.strip (a_href a)) = false
  /\ PyStr.contains slug (PyStr.strip (a_href a)) = true
  /\ 20 <= PyStr.len ext.
Proof.
  unfold accepted.
  destruct (PyStr.contains "/apply" (PyStr.strip (a_href a))); simpl;
    [discriminate|].
  destruct (PyStr.contains slug (PyStr.strip (a_href a))); simpl;
    [|discriminate].
  destruct (last (href_parts (PyStr.strip (a_href a)))) as [e|];
    [|discriminate].
  destruct (Nat.ltb_spec (PyStr.len e) 20); [discriminate|].
  intros Heq; inversion Heq; subst. auto.
Qed.

(** C9 (amended). For every anchor from which the Ashby adapter builds a
    listing, the external id is the final segment of the [href] and the
    url is [urljoin(origin, ...)] of [/{slug}/jobs/{id}] when the [href],
    split at ["/"], has at least three non-empty segments of which the
    second is ["jobs"], and of [/{slug}/{id}] otherwise. *)
Theorem ashby_url_by_second_segment {X : Externals} (origin slug : string)
    (id_to_posting : gmap string Posting) (a : Anchor) (w w' : World)
    (job : Job) :
  ashby_anchor origin slug id_to_posting a w = (Ret (Some job), w') ->
  exists ext,
    last (href_parts (PyStr.strip (a_href a))) = Some ext
    /\ external_id job = Some ext
    /\ ((3 <= List.length (href_parts (PyStr.strip (a_href a)))
         /\ nth 1 (href_parts (PyStr.strip (a_href a))) "" = "jobs")
        -> urljoin origin ("/" ++ slug ++ "/jobs/" ++ ext)%string
           = Some (url job))
    /\ (~ (3 <= List.length (href_parts (PyStr.strip (a_href a)))
           /\ nth 1 (href_parts (PyStr.strip (a_href a))) "" = "jobs")
        -> urljoin origin ("/" ++ slug ++ "/" ++ ext)%string
           = Some (url job)).
Proof.
  unfold ashby_anchor. intros Hrun.
  destruct (accepted slug a) as [ext|] eqn:Hacc; [|inversion Hrun].
  destruct (accepted_last _ _ _ Hacc) as [Hlast _].
  set (parts := href_parts (PyStr.strip (a_href a))) in *.
  unfold bind in Hrun.
  destruct (urljoin origin (job_path slug parts ext)) as [job_url|] eqn:Hjoin;
    simpl in Hrun; [|inversion Hrun].
  match type of Hrun with
  | (if ?b then _ else _) _ = _ => destruct b; [inversion Hrun|]
  end.
  destruct (posting_location (id_to_posting !! ext) w) as [[loc|e] w1];
    [|inversion Hrun].
  simpl in Hrun. inversion Hrun; subst job. simpl.
  exists ext. split; [exact Hlast|]. split; [reflexivity|].
  unfold job_path, jobs_pattern in Hjoin. split.
  - intros [Hlen Hsnd].
    destruct (Nat.leb_spec 3 (List.length parts)); [|lia].
    rewrite Hsnd in Hjoin. exact Hjoin.
  - intros Hnot.
    destruct (Nat.leb_spec 3 (List.length parts)); [|exact Hjoin].
    destruct (String.eqb_spec (nth 1 parts "") "jobs"); [|exact Hjoin].
    exfalso. apply Hnot. auto.
Qed.

(** * Scenarios: the model run on concrete boards and stores *)

#[local] Existing Instance Reference.externals.

Definition acme_lever : SourceRow :=
  mkSourceRow 1 "Acme" "https://jobs.lever.co/acme" "lever" true None.

Definition acme_ashby : SourceRow :=
  mkSourceRow 2 "Acme" "https://jobs.ashbyhq.com/acme" "ashby" true
              (Some ["Engineering"]).

Definition other_board : SourceRow :=
  mkSourceRow 3 "Other" "https://example.com/careers" "custom" true None.

(** A store with three configured sources and nothing else. *)
Definition empty_store : World :=
  mkWorld [acme_lever; acme_ashby; other_board] [] 1 [] 1 [] [].

(** Every board is unreachable. *)
Definition offline : Web :=
  mkWeb (fun _ => Unreachable) (fun _ => Unreachable)
        (fun _ => WorkdayRenderFailure) (fun _ => AshbyRenderFailure).

Definition posting (ext : option string) (t u : string) : Job :=
  mkJob ext t "" "Remote" None t "full_time" u PyNone.

Definition stored (i source : nat) (ext : option string) (t u : string)
    (active : bool) : JobRow :=
  mkJobRow i source ext t "Acme" "Remote" None t "full_time" u PyNone
           active 0 None.

Definition with_store (rows : list JobRow) (faults : list bool) : World :=
  mkWorld [acme_lever; acme_ashby; other_board] rows
          (S (List.length rows)) [] 1 [] faults.

(** The lookup the specification describes: by [(source_id, external_id)]
    when the listing has a non-empty external id, by [(source_id, url)]
    otherwise. *)
Definition natural_key_lookup (source : nat) (job : Job) (r : JobRow) : bool :=
  let ext := PyStr.or_else (external_id job) "" in
  Nat.eqb (source_id r) source
  && (if PyStr.truthy ext then sql_eq (r_external_id r) ext
      else String.eqb (r_url r) (url job)).

(** Some segment equal to the slug is immediately followed by a segment
    ["jobs"]. *)
Fixpoint jobs_after_slug (slug : string) (parts : list string) : bool :=
  match parts with
  | p :: rest =>
      (String.eqb p slug && String.eqb (hd "" rest) "jobs")
      || jobs_after_slug slug rest
  | [] => false
  end.

Definition lever_base : string := "https://jobs.lever.co/acme".

(** Two Lever postings with their own ids and no link of their own: both
    get the url of the board. *)
Definition posting_a : Job := posting (Some "A") "Backend Engineer" lever_base.
Definition posting_b : Job := posting (Some "B") "Data Engineer" lever_base.

Definition ten_postings : list Job :=
  map (fun n => posting (Some n) "Engineer"
                        ("https://jobs.lever.co/acme/" ++ n)%string)
      ["p01"; "p02"; "p03"; "p04"; "p05"; "p06"; "p07"; "p08"; "p09"; "p10"].

Definition noon : Z := 1764590400000000%Z.

Definition dated (t : string) (d : PyVal) : Job :=
  mkJob None t "" "Remote" None t "full_time"
        ("https://jobs.lever.co/acme/" ++ t)%string d.

Definition dated_postings : list Job :=
  [dated "boundary" (PyDatetime (mkDatetime (noon - 24 * hour) (Some 0%Z)));
   dated "undated" PyNone;
   dated "unparsable" (PyStr "yesterday");
   dated "stale" (PyStr "2025-11-30T11:59:59Z");
   dated "fresh" (PyStr " 2025-12-01T09:00:00+02:00 ")].

Definition titled_postings : list Job :=
  [posting None "Senior Backend Engineer" "https://jobs.lever.co/acme/1";
   posting None "Sales Manager" "https://jobs.lever.co/acme/2";
   posting None "Head of Engineering" "https://jobs.lever.co/acme/3"].

Definition ashby_origin : string := "https://jobs.ashbyhq.com".
Definition direct_anchor : Anchor :=
  mkAnchor "/acme/0123456789abcdefghij" "Designer".
Definition jobs_anchor : Anchor :=
  mkAnchor "/acme/jobs/0123456789abcdefghij" "Designer".
Definition absolute_anchor : Anchor :=
  mkAnchor "https://jobs.ashbyhq.com/acme/jobs/0123456789abcdefghij" "Designer".

(** ** Two crawls of a Lever board *)

Definition card (jid : option string) (t href : string) : Container :=
  Card jid (Some (mkElement t (Some href))) None None None t.

Definition board (items : list Container) : Web :=
  mkWeb (fun _ => Html items) (fun _ => Unreachable)
        (fun _ => WorkdayRenderFailure) (fun _ => AshbyRenderFailure).

Definition card_a : Container :=
  card (Some "A") "Backend Engineer" "https://jobs.lever.co/acme/a".
Definition card_b : Container :=
  card (Some "B") "Data Engineer" "https://jobs.lever.co/acme/b".
Definition card_without_id : Container :=
  card None "Designer" "https://jobs.lever.co/acme/designer".

(** The world after [crawl_source] on [w], and its result. *)
Definition then_crawl (web : Web) (now : Z) (source : nat)
    (r : outcome CrawlResult * World) : outcome CrawlResult * World :=
  crawl_source web now source None (snd r).

(** Idempotence: the same two postings twice. *)
Example second_crawl_updates :
  let first := crawl_source (board [card_a; card_b]) 10 1 None empty_store in
  let second := then_crawl (board [card_a; card_b]) 20 1 first in
  fst first = Ret (Success 1 2 2 0)
  /\ fst second = Ret (Success 1 2 0 2)
  /\ map (fun r => (id r, is_active r)) (w_jobs (snd second))
     = [(1, true); (2, true)].
Proof. repeat split; vm_compute; reflexivity. Qed.

(** Retirement: posting B has left the board at the second crawl. *)
Example absent_listing_is_retired_not_deleted :
  let first := crawl_source (board [card_a; card_b]) 10 1 None empty_store in
  let second := then_crawl (board [card_a]) 20 1 first in
  fst second = Ret (Success 1 1 0 1)
  /\ map (fun r => (id r, r_external_id r, is_active r)) (w_jobs (snd second))
     = [(1, Some "A", true); (2, Some "B", false)].
Proof. repeat split; vm_compute; reflexivity. Qed.

(** Natural-key fallback: a posting without external id, crawled twice,
    is one row. *)
Example posting_without_id_is_one_row :
  let first := crawl_source (board [card_without_id]) 10 1 None empty_store in
  let second := then_crawl (board [card_without_id]) 20 1 first in
  fst second = Ret (Success 1 1 0 1)
  /\ map (fun r => (id r, r_external_id r, r_url r)) (w_jobs (snd second))
     = [(1, None, "https://jobs.lever.co/acme/designer")].
Proof. repeat split; vm_compute; reflexivity. Qed.

(** An outage at the second crawl: the crawl succeeds with no listing and
    the sweep retires every listing of the source. *)
Example outage_retires_every_listing :
  let first := crawl_source (board [card_a; card_b]) 10 1 None empty_store in
  let second := then_crawl offline 20 1 first in
  fst second = Ret (Success 1 0 0 0)
  /\ map (fun r => (id r, is_active r)) (w_jobs (snd second))
     = [(1, false); (2, false)].
Proof. repeat split; vm_compute; reflexivity. Qed.

(** ** C1: an unreachable board *)

(** The Lever board is down; the adapter returns an empty batch as if the
    board listed nothing, and the crawl of that source reports success and
    completes its run row. *)
Lemma lever_outage_reported_as_success :
  lever_get offline (src_url acme_lever) = Unreachable
  /\ crawl_lever offline (src_url acme_lever) empty_store
     = (Ret [], with_log [LeverCrawlError FetchError] empty_store)
  /\ fst (crawl_source offline 0 1 None empty_store) = Ret (Success 1 0 0 0)
  /\ map status (w_runs (snd (crawl_source offline 0 1 None empty_store)))
     = [completed].
Proof. repeat split; vm_compute; reflexivity. Qed.

Lemma lever_is_down : outage offline acme_lever.
Proof. left. split; reflexivity. Defined.

Lemma no_filter_raises :
  filters_run 0 None (target_departments acme_lever).
Proof. split; [intros hours H; discriminate H | intros src []]. Defined.

Lemma adapter_failures_witness :
  (select_source 2 empty_store = [acme_ashby]
   /\ scraper_type acme_ashby = "ashby"
   /\ urlparse (src_url acme_ashby)
      = Some (mkParseResult "https" "jobs.ashbyhq.com" "/acme")
   /\ (ashby_render offline (src_url acme_ashby) = AshbyLaunchFailure
       \/ ashby_render offline (src_url acme_ashby) = AshbyRenderFailure)
   /\ store_fails (w_faults empty_store) = false)
  /\ (exists w1,
         crawl_source offline 0 1 None empty_store
         = (Ret (Success 1 0 0 0), w1))
  /\ exists w',
      crawl_source offline 0 2 None empty_store
      = (Ret (FailedError FetchError), w')
      /\ In (CrawlSourceError 2 FetchError) (w_log w').
Proof.
  assert (urlparse (src_url acme_ashby)
          = Some (mkParseResult "https" "jobs.ashbyhq.com" "/acme")) as Hparse
      by (vm_compute; reflexivity).
  assert (ashby_render offline (src_url acme_ashby) = AshbyLaunchFailure
          \/ ashby_render offline (src_url acme_ashby) = AshbyRenderFailure)
    as Hrender by (right; reflexivity).
  split; [split; [reflexivity|]; split; [reflexivity|];
          split; [exact Hparse|]; split; [exact Hrender | reflexivity]|].
  destruct (adapter_failures offline 0%Z 2 None acme_ashby []
              (mkParseResult "https" "jobs.ashbyhq.com" "/acme") empty_store
              eq_refl eq_refl Hparse Hrender eq_refl)
    as [_ [_ [_ [Hout [_ [_ Hfail]]]]]].
  split; [|exact Hfail].
  exact (Hout 1 None acme_lever [] empty_store eq_refl lever_is_down
              eq_refl no_filter_raises).
Defined.

(** ** C2: two postings that share the url of the board *)

(** Posting A is stored; posting B, with another external id and the same
    url, has no row under its natural key, yet it is counted as updated -
    and, under the natural-key index, stored as a second row. *)
Lemma same_url_other_id_counts_as_updated :
  existsb (natural_key_lookup 1 posting_b)
          (w_jobs (with_store [stored 1 1 (Some "A") "Backend Engineer"
                                      lever_base true] []))
  = false
  /\ fst (persist 10 1 1 "Acme" [posting_b]
            (with_store [stored 1 1 (Some "A") "Backend Engineer"
                                lever_base true] []))
     = Ret (Success 1 1 0 1)
  /\ map r_external_id
         (w_jobs (snd (persist 10 1 1 "Acme" [posting_b]
                         (with_store [stored 1 1 (Some "A") "Backend Engineer"
                                             lever_base true] []))))
     = [Some "A"; Some "B"].
Proof. repeat split; vm_compute; reflexivity. Qed.

Lemma lookup_by_external_id_or_url_witness :
  store_fails (w_faults (with_store [stored 1 1 None "Backend Engineer"
                                            lever_base true] [])) = false
  /\ exists t' w',
      store_iteration 1 "Acme" 10 (posting None "Backend Engineer" lever_base)
        (mkTally 0 0 ∅)
        (with_store [stored 1 1 None "Backend Engineer" lever_base true] [])
      = (Ret t', w')
      /\ updated_count t' = 1 /\ new_count t' = 0
      /\ List.length (w_jobs w') = 1.
Proof.
  split; [reflexivity|].
  destruct (lookup_by_external_id_or_url 1 "Acme" 10%Z
              (posting None "Backend Engineer" lever_base) (mkTally 0 0 ∅)
              (with_store [stored 1 1 None "Backend Engineer" lever_base true] [])
              eq_refl)
    as [t' [w' [Hrun [Hupd [_ Hkey]]]]].
  exists t', w'. split; [exact Hrun|].
  assert (exists r,
             In r (w_jobs (with_store [stored 1 1 None "Backend Engineer"
                                              lever_base true] []))
             /\ source_id r = 1 /\ r_url r = lever_base
             /\ no_external_id (r_external_id r)) as Hrow.
  { eexists. split; [left; reflexivity|]. repeat split. }
  destruct (Hkey (fun c r => eq_refl) eq_refl) as [_ Hsame].
  destruct (Hsame Hrow) as [Hu Hlen]. split; [exact Hu|]. split; [|exact Hlen].
  apply Hupd. destruct Hrow as [r [Hin [Hs [Hur _]]]].
  exists r. split; [exact Hin|]. split; [exact Hs|]. right. exact Hur.
Defined.

(** ** C3: a listing that left the board *)

Definition after_first_run : World :=
  with_store [stored 1 1 (Some "A") "Backend Engineer"
                     "https://jobs.lever.co/acme/a" true;
              stored 2 1 (Some "B") "Data Engineer"
                     "https://jobs.lever.co/acme/b" true;
              stored 3 2 None "Designer"
                     "https://jobs.ashbyhq.com/acme/0123456789abcdefghij" true]
             [].

Lemma keyed_after_first_run :
  keyed (w_jobs after_first_run) (w_next_job_id after_first_run).
Proof.
  split.
  - refine (bool_decide_unpack _ _). vm_compute. exact I.
  - repeat constructor.
Defined.

Lemma sweep_retires_unseen_witness :
  (quiet (w_faults after_first_run)
   /\ keyed (w_jobs after_first_run) (w_next_job_id after_first_run))
  /\ map (fun r => (id r, is_active r))
         (w_jobs (snd (mark_inactive 1 20
                         {[ "https://jobs.lever.co/acme/a" ]} after_first_run)))
     = [(1, true); (2, false); (3, true)]
  /\ forall r,
      In r (w_jobs (snd (persist 20 1 1 "Acme"
                           [posting (Some "A") "Backend Engineer"
                                    "https://jobs.lever.co/acme/a"]
                           after_first_run))) ->
      source_id r = 1 ->
      ~ In (r_url r)
           (map url [posting (Some "A") "Backend Engineer"
                             "https://jobs.lever.co/acme/a"]) ->
      is_active r = false.
Proof.
  split; [split; [reflexivity | exact keyed_after_first_run]|].
  destruct (sweep_retires_unseen 1 20%Z {[ "https://jobs.lever.co/acme/a" ]}
              1 "Acme"
              [posting (Some "A") "Backend Engineer"
                       "https://jobs.lever.co/acme/a"]
              after_first_run eq_refl keyed_after_first_run)
    as [[Hrows _] [_ Hinactive]].
  split; [|exact Hinactive].
  rewrite Hrows. vm_compute. reflexivity.
Defined.

(** ** C5: ten listings, the insert of the fifth raises *)

Lemma one_failed_listing_is_skipped_witness :
  (w_faults (with_store [] (replicate 9 false ++ [true]))
   = replicate 9 false ++ true :: []
   /\ quiet [] /\ 9 < 2 * List.length ten_postings)
  /\ exists t w1 w2,
      store_jobs 1 "Acme" 10 ten_postings (mkTally 0 0 ∅)
                 (with_store [] (replicate 9 false ++ [true]))
      = (Ret t, w1)
      /\ In (ErrorStoringJob DbError) (w_log w1)
      /\ map r_external_id (w_jobs w1)
         = map Some ["p01"; "p02"; "p03"; "p04"; "p06"; "p07"; "p08"; "p09";
                     "p10"]
      /\ new_count t + updated_count t = 9
      /\ persist 10 1 1 "Acme" ten_postings
                 (with_store [] (replicate 9 false ++ [true]))
         = (Ret (Success 1 10 (new_count t) (updated_count t)), w2).
Proof.
  split; [repeat split; vm_compute; lia|].
  destruct (one_failed_listing_is_skipped 10%Z 1 1 "Acme" ten_postings
              (with_store [] (replicate 9 false ++ [true])) 9 []
              eq_refl eq_refl ltac:(vm_compute; lia))
    as [t [w1 [w2 [Hstore [Hlog [Hrows [Hcount Hrun]]]]]]].
  exists t, w1, w2. split; [exact Hstore|]. split; [exact Hlog|].
  split; [rewrite Hrows; vm_compute; reflexivity|].
  split; [exact Hcount | exact Hrun].
Defined.

(** ** C6: a source that is not configured, a board of unknown kind *)

(** Neither crawl raises anything - nothing is logged - and each returns a
    configuration failure; the run row each created stays [started]. *)
Lemma configuration_failure_leaves_run_started :
  crawl_source offline 0 7 None empty_store
  = (Ret (FailedMessage "Source not found"),
     with_runs [mkRunRow 1 7 started None None None 0 None] 2 empty_store)
  /\ crawl_source offline 0 3 None empty_store
     = (Ret (FailedMessage "Unknown scraper type: custom"),
        with_runs [mkRunRow 1 3 started None None None 0 None] 2 empty_store)
  /\ w_log (with_runs [mkRunRow 1 3 started None None None 0 None] 2
                      empty_store) = [].
Proof. repeat split; vm_compute; reflexivity. Qed.

Lemma run_row_lifecycle_witness :
  Forall (fun r => run_id r < w_next_run_id empty_store) (w_runs empty_store)
  /\ exists w',
      crawl_source offline 0 1 None empty_store = (Ret (Success 1 0 0 0), w')
      /\ w_runs w'
         = [mkRunRow 1 1 completed (Some 0) (Some 0) (Some 0) 0 (Some 0%Z)].
Proof.
  split; [constructor|].
  destruct (run_row_lifecycle offline 0%Z 1 None empty_store
              ltac:(constructor))
    as [result [w' [Hrun [_ Hrows]]]].
  assert (fst (crawl_source offline 0 1 None empty_store)
          = Ret (Success 1 0 0 0)) as Hres by (vm_compute; reflexivity).
  rewrite Hrun in Hres. simpl in Hres. inversion Hres; subst result.
  exists w'. split; [exact Hrun | exact (Hrows eq_refl)].
Defined.

(** ** C7: a cutoff of 24 hours at noon *)

Lemma representable_noon : representable noon 24.
Proof. unfold representable. vm_compute. repeat split; discriminate. Defined.

Lemma age_filter_keeps_recent_witness :
  representable noon 24
  /\ exists kept,
      filter_by_age noon (Some 24%Z) dated_postings empty_store
      = (Ret kept, empty_store)
      /\ map title kept = ["boundary"; "undated"; "unparsable"; "fresh"].
Proof.
  split; [exact representable_noon|].
  destruct (age_filter_keeps_recent noon 24%Z dated_postings empty_store
              representable_noon) as [[kept [Hrun _]] _].
  exists kept. split; [exact Hrun|].
  assert (Ret kept
          = fst (filter_by_age noon (Some 24%Z) dated_postings empty_store))
    as Hkept by (rewrite Hrun; reflexivity).
  vm_compute in Hkept. inversion Hkept. reflexivity.
Defined.

(** ** C8: the target department "Engineering" *)

Lemma engineering_patterns_compile :
  forall src, In src (flat_map dept_pattern_sources ["Engineering"]) ->
              is_Some (re_compile src).
Proof.
  intros src Hin. vm_compute in Hin.
  destruct Hin as [<-|[<-|[]]];
    change re_compile with Regex.compile; unfold Regex.compile;
    match goal with
    | |- is_Some (option_map _ (Regex.parse ?p)) =>
        destruct (Regex.parse p) eqn:E;
        [eexists; reflexivity | vm_compute in E; discriminate E]
    end.
Qed.







(** ** C9: three anchors of the Ashby board of "acme" *)

(** The path of the absolute [href] has the segment ["jobs"] right after
    the slug, but the second segment of the [href] is the host: the
    listing gets the direct form of the url. *)
Lemma absolute_href_gets_direct_url :
  accepted "acme" absolute_anchor = Some "0123456789abcdefghij"
  /\ jobs_after_slug "acme" (href_parts (PyStr.strip (a_href absolute_anchor)))
     = true
  /\ option_map url
       (match fst (ashby_anchor ashby_origin "acme" ∅ absolute_anchor
                                empty_store) with
        | Ret job => job
        | Exc _ => None
        end)
     = Some "https://jobs.ashbyhq.com/acme/0123456789abcdefghij".
Proof. repeat split; vm_compute; reflexivity. Qed.

Definition jobs_anchor_listing : Job :=
  mkJob (Some "0123456789abcdefghij") "Designer" "acme" "Remote" None ""
        "unknown" "https://jobs.ashbyhq.com/acme/jobs/0123456789abcdefghij"
        PyNone.

Lemma ashby_url_by_second_segment_witness :
  ashby_anchor ashby_origin "acme" ∅ jobs_anchor empty_store
  = (Ret (Some jobs_anchor_listing),
     with_log [AshbyJob "Designer" (url jobs_anchor_listing)] empty_store)
  /\ exists ext,
      last (href_parts (PyStr.strip (a_href jobs_anchor))) = Some ext
      /\ external_id jobs_anchor_listing = Some ext
      /\ ((3 <= List.length (href_parts (PyStr.strip (a_href jobs_anchor)))
           /\ nth 1 (href_parts (PyStr.strip (a_href jobs_anchor))) "" = "jobs")
          -> urljoin ashby_origin ("/" ++ "acme" ++ "/jobs/" ++ ext)%string
             = Some (url jobs_anchor_listing)).
Proof.
  assert (ashby_anchor ashby_origin "acme" ∅ jobs_anchor empty_store
          = (Ret (Some jobs_anchor_listing),
             with_log [AshbyJob "Designer" (url jobs_anchor_listing)]
                      empty_store)) as Hrun by (vm_compute; reflexivity).
  split; [exact Hrun|].
  destruct (ashby_url_by_second_segment ashby_origin "acme" ∅ jobs_anchor
              empty_store _ jobs_anchor_listing Hrun)
    as [ext [Hlast [Hext [Hjobs _]]]].
  exists ext. auto.
Defined.

(** ** C10: the insert of a listing that is already stored raises *)

(** Listing A is written, the insert of listing B raises. *)
Definition a_then_b : list Job :=
  [posting (Some "A") "Backend Engineer" "https://jobs.lever.co/acme/a";
   posting (Some "B") "Data Engineer" "https://jobs.lever.co/acme/b"].

Definition insert_of_b_raises : World :=
  with_faults [false; false; false; true] after_first_run.

Definition row_b : JobRow :=
  stored 2 1 (Some "B") "Data Engineer" "https://jobs.lever.co/acme/b" true.

Lemma b_is_not_stored :
  ~ In "https://jobs.lever.co/acme/b"
       (map url (stored_jobs (w_faults insert_of_b_raises) a_then_b)).
Proof. simpl. intros [H|[]]. discriminate H. Defined.

Lemma a_leaves_row_b :
  forall job next,
    In job (stored_jobs (w_faults insert_of_b_raises) a_then_b) ->
    unique_conflict (candidate next 1 "Acme" 20 job) row_b = false.
Proof. intros job next [<-|[]]. reflexivity. Defined.

Lemma failed_write_retires_listing_witness :
  (keyed (w_jobs insert_of_b_raises) (w_next_job_id insert_of_b_raises)
   /\ quiet (faults_after_store (w_faults insert_of_b_raises) a_then_b)
   /\ ~ In "https://jobs.lever.co/acme/b"
           (map url (stored_jobs (w_faults insert_of_b_raises) a_then_b))
   /\ In row_b (w_jobs insert_of_b_raises)
   /\ is_active row_b = true)
  /\ exists t w1 w2,
      store_jobs 1 "Acme" 20 a_then_b (mkTally 0 0 ∅) insert_of_b_raises
      = (Ret t, w1)
      /\ ("https://jobs.lever.co/acme/b" ∉ crawled_job_urls t)
      /\ mark_inactive 1 20 (crawled_job_urls t) w1 = (Ret tt, w2)
      /\ In row_b (w_jobs w1)
      /\ ((exists r', In r' (w_jobs w2) /\ id r' = 2)
          /\ forall r',
              In r' (w_jobs w2) -> id r' = 2 ->
              is_active r' = false
              /\ r_url r' = "https://jobs.lever.co/acme/b"
              /\ last_updated r' = Some 20%Z
              /\ source_id r' = 1 /\ r_title r' = "Data Engineer")
      /\ map (fun r => (id r, is_active r, last_updated r)) (w_jobs w2)
         = [(1, true, Some 20%Z); (2, false, Some 20%Z); (3, true, None)].
Proof.
  assert (In row_b (w_jobs insert_of_b_raises)) as Hin
      by (right; left; reflexivity).
  split; [split; [exact keyed_after_first_run|]; split; [reflexivity|];
          split; [exact b_is_not_stored|]; split; [exact Hin | reflexivity]|].
  destruct (failed_write_retires_listing 20%Z 1 "Acme" a_then_b
              insert_of_b_raises "https://jobs.lever.co/acme/b"
              keyed_after_first_run eq_refl b_is_not_stored)
    as [t [w1 [w2 [Hstore [Hout [Hsweep [Hkeeps Hretires]]]]]]].
  pose proof (Hkeeps row_b Hin a_leaves_row_b) as Hin1.
  exists t, w1, w2. split; [exact Hstore|]. split; [exact Hout|].
  split; [exact Hsweep|]. split; [exact Hin1|].
  split; [exact (Hretires row_b Hin1 eq_refl eq_refl eq_refl)|].
  assert (snd (bind (store_jobs 1 "Acme" 20 a_then_b (mkTally 0 0 ∅))
                    (fun t => mark_inactive 1 20 (crawled_job_urls t))
                    insert_of_b_raises) = w2) as Hw2
      by (unfold bind; rewrite Hstore, Hsweep; reflexivity).
  rewrite <- Hw2. vm_compute. reflexivity.
Defined.

(** * Further properties of the crawler *)

(** ** How a crawl reaches the store *)

(** Tables [jobs] and [job_sources] are left alone. *)
Definition jobs_same (w w' : World) : Prop :=
  w_jobs w' = w_jobs w /\ w_next_job_id w' = w_next_job_id w
  /\ w_sources w' = w_sources w.

Lemma jobs_same_trans a b c : jobs_same a b -> jobs_same b c -> jobs_same a c.
Proof. intros [H1 [H2 H3]] [H4 [H5 H6]]. repeat split; congruence. Qed.

Ltac jobs_same_conditions :=
  first [ exact jobs_same_trans
        | solve [unfold jobs_same; intros; simpl; auto] ].

Lemma execute_query_cases {A} (select : World -> A) w :
  (exists w', execute_query select w = (Exc DbError, w') /\ jobs_same w w')
  \/ (exists w', execute_query select w = (Ret (select w'), w')
                 /\ jobs_same w w' /\ w_runs w' = w_runs w
                 /\ w_faults w' = tl (w_faults w) /\ w_log w' = w_log w).
Proof.
  destruct w as [srcs rows nid runs rid log faults].
  destruct faults as [|[|] fs].
  - right. eexists. split; [reflexivity|]. repeat split.
  - left. eexists. split; [reflexivity|]. repeat split.
  - right. eexists. split; [reflexivity|]. repeat split.
Qed.

Section Decomposition.
Context {X : Externals}.

(** [persist] returns success with the size of the batch as
    [jobs_found], or raises a storage error from its last statement. *)
Lemma persist_cases now run source company jobs w :
  exists t w1 w2 w',
    store_jobs source company now jobs (mkTally 0 0 ∅) w = (Ret t, w1)
    /\ mark_inactive source now (crawled_job_urls t) w1 = (Ret tt, w2)
    /\ w_jobs w' = w_jobs w2 /\ w_next_job_id w' = w_next_job_id w2
    /\ w_sources w' = w_sources w2
    /\ new_count t + updated_count t
       = List.length (stored_jobs (w_faults w) jobs)
    /\ (persist now run source company jobs w
        = (Ret (Success source (List.length jobs) (new_count t)
                        (updated_count t)), w')
        \/ persist now run source company jobs w = (Exc DbError, w')).
Proof.
  destruct (store_jobs_run source company now jobs (mkTally 0 0 ∅) w)
    as [t [Hstore [Hcount _]]].
  match type of Hstore with _ = (_, ?x) => set (w1 := x) in * end.
  destruct (mark_inactive_returns source now (crawled_job_urls t) w1)
    as [w2 Hsweep].
  exists t, w1, w2.
  unfold persist. erewrite bind_run by exact Hstore.
  erewrite bind_run by exact Hsweep.
  simpl in Hcount.
  destruct w2 as [srcs rows nid runs rid log faults].
  destruct faults as [|[|] fs];
    (eexists; split; [exact Hstore|]; split; [exact Hsweep|];
     split; [|split; [|split; [|split; [exact Hcount|]]]];
     [| | | first [left; reflexivity | right; reflexivity]]; reflexivity).
Qed.

(** What the body of [crawl_source] did to the store: nothing, in which
    case it did not return success; or what [persist] did, on the source's
    configured name and some batch, the source being of a supported
    kind. *)
Definition reached (web : Web) (now : Z) (source : nat) (w : World)
    (o : outcome CrawlResult) (w' : World) : Prop :=
  (jobs_same w w' /\ forall s f n u, o <> Ret (Success s f n u))
  \/ exists s others run batch w1,
      select_source source w = s :: others
      /\ is_Some (adapter_for web (scraper_type s))
      /\ jobs_same w w1
      /\ stays_quiet w w1
      /\ persist now run source (src_name s) batch w1 = (o, w').

(** Tables [jobs] and [job_sources] are left alone and a quiet schedule
    stays quiet. *)
Definition calm (w w' : World) : Prop := jobs_same w w' /\ stays_quiet w w'.

Lemma calm_trans a b c : calm a b -> calm b c -> calm a c.
Proof.
  intros [H1 H2] [H3 H4]. split; [eapply jobs_same_trans; eassumption|].
  unfold stays_quiet in *. auto.
Qed.

Lemma calm_faults w b fs : w_faults w = b :: fs -> calm w (with_faults fs w).
Proof.
  intros E. split; [repeat split|]. unfold stays_quiet, quiet. rewrite E.
  simpl. destruct b; simpl; [discriminate | auto].
Qed.

Ltac calm_conditions :=
  first [ exact calm_trans
        | exact calm_faults
        | solve [intros; split; [repeat split | intros ?; assumption]] ].

Lemma reached_bind {A} web now source (m : M A) (k : A -> M CrawlResult)
    w0 w :
  calm w0 w ->
  stable calm m ->
  (forall a w1, calm w0 w1 ->
                reached web now source w0 (fst (k a w1)) (snd (k a w1))) ->
  reached web now source w0 (fst (bind m k w)) (snd (bind m k w)).
Proof.
  intros H0 Hm Hk. unfold bind. specialize (Hm w).
  destruct (m w) as [[a|e] w1]; simpl in Hm.
  - apply Hk. eapply calm_trans; eassumption.
  - left. split; [|discriminate].
    destruct (calm_trans _ _ _ H0 Hm) as [H _]. exact H.
Qed.

Lemma crawl_source_body_reached web now source h w :
  reached web now source w (fst (crawl_source_body web now source h w))
          (snd (crawl_source_body web now source h w)).
Proof.
  unfold crawl_source_body.
  apply reached_bind.
  { split; [repeat split | intros Hq; exact Hq]. }
  { apply stable_execute_insert; calm_conditions. }
  intros run w1 H1. unfold bind.
  pose proof (stable_execute_query calm ltac:(calm_conditions)
                ltac:(calm_conditions) ltac:(calm_conditions)
                ltac:(calm_conditions) (select_source source) w1) as Hcalm.
  destruct (execute_query_cases (select_source source) w1)
    as [[w2 [Hq H2]] | [w2 [Hq [H2 _]]]]; rewrite Hq in *; simpl in Hcalm.
  { left. split; [|discriminate].
    destruct (calm_trans _ _ _ H1 Hcalm) as [H _]. exact H. }
  assert (calm w w2) as H02 by (eapply calm_trans; eassumption).
  assert (select_source source w2 = select_source source w) as Hsel.
  { unfold select_source. destruct H02 as [[_ [_ ->]] _]. reflexivity. }
  destruct (select_source source w2) as [|s others] eqn:Erows.
  { left. split; [apply H02 | discriminate]. }
  destruct (adapter_for web (scraper_type s)) as [adapter|] eqn:Ead.
  2:{ left. split; [apply H02 | discriminate]. }
  apply reached_bind; [exact H02 | |].
  { eapply stable_adapter; [calm_conditions .. | exact Ead]. }
  intros jobs w3 H3. unfold reconcile.
  apply reached_bind; [exact H3 | |].
  { apply stable_filter_by_age; calm_conditions. }
  intros jobs1 w4 H4.
  apply reached_bind; [exact H4 | |].
  { apply stable_filter_by_department; calm_conditions. }
  intros jobs2 w5 H5. right.
  exists s, others, run, jobs2, w5. split; [symmetry; exact Hsel|].
  split; [rewrite Ead; eexists; reflexivity|].
  split; [apply H5|]. split; [apply H5|].
  destruct (persist _ _ _ _ _ _); reflexivity.
Qed.

(** [crawl_source] always returns a result. Either it left [jobs] as it
    was and did not return success; or it ran [persist] on the source's
    configured name, and returns what [persist] returned, or the failure
    [persist] raised. *)
Lemma crawl_source_cases web now source h w :
  exists result w',
    crawl_source web now source h w = (Ret result, w')
    /\ ((jobs_same w w' /\ forall s f n u, result <> Success s f n u)
        \/ exists s others run batch w1 o w2,
            select_source source w = s :: others
            /\ is_Some (adapter_for web (scraper_type s))
            /\ jobs_same w w1
            /\ stays_quiet w w1
            /\ persist now run source (src_name s) batch w1 = (o, w2)
            /\ jobs_same w2 w'
            /\ (o = Ret result \/ exists e, o = Exc e /\ result = FailedError e)).
Proof.
  pose proof (crawl_source_body_reached web now source h w) as Hbody.
  unfold crawl_source, try_except.
  destruct (crawl_source_body web now source h w) as [[result|e] wb];
    simpl in Hbody.
  - exists result, wb. split; [reflexivity|].
    destruct Hbody
      as [[Hs Hn] | [s [others [run [batch [w1 [Hsel [Had [H1 [Hq Hp]]]]]]]]]].
    + left. split; [exact Hs|]. intros s f n u Heq. eapply Hn. rewrite Heq.
      reflexivity.
    + right. exists s, others, run, batch, w1, (Ret result), wb.
      split; [exact Hsel|]. split; [exact Had|]. split; [exact H1|].
      split; [exact Hq|]. split; [exact Hp|].
      split; [repeat split | left; reflexivity].
  - eexists. eexists. split; [reflexivity|].
    destruct Hbody
      as [[Hs Hn] | [s [others [run [batch [w1 [Hsel [Had [H1 [Hq Hp]]]]]]]]]].
    + left. split; [|discriminate]. destruct Hs as [Ha [Hb Hc]].
      repeat split; simpl; assumption.
    + right. exists s, others, run, batch, w1, (Exc e), wb.
      split; [exact Hsel|]. split; [exact Had|]. split; [exact H1|].
      split; [exact Hq|]. split; [exact Hp|].
      split; [repeat split|]. right. exists e. auto.
Qed.

End Decomposition.

(** ** What a crawl reports and what it leaves alone *)

Lemma stored_jobs_length faults jobs :
  List.length (stored_jobs faults jobs) <= List.length jobs.
Proof.
  revert faults. induction jobs as [|job jobs IH]; intros faults; simpl.
  - lia.
  - specialize (IH (store_rest faults)).
    destruct (store_fails faults); simpl; lia.
Qed.

(** X1. A crawl that returns success echoes the id of the source, and never
    counts more listings as new or updated than it found; when no storage
    call raises it counts every listing it found. *)
Theorem success_counts_within_found {X : Externals} (web : Web) (now : Z)
    (source : nat) (h : option Z) (w w' : World)
    (s found new updated : nat) :
  crawl_source web now source h w = (Ret (Success s found new updated), w') ->
  s = source /\ new + updated <= found
  /\ (quiet (w_faults w) -> new + updated = found).
Proof.
  intros Hrun.
  destruct (crawl_source_cases web now source h w)
    as [result [w2 [Hrun' Hcases]]].
  rewrite Hrun in Hrun'. inversion Hrun'; subst result w2. clear Hrun'.
  destruct Hcases
    as [[_ Hn] | [s0 [others [run [batch [w1 [o [w3 [_ [_ [_ [Hq [Hp [_ Ho]]]]]]]]]]]]]].
  { exfalso. eapply Hn. reflexivity. }
  destruct Ho as [-> | [e [_ He]]]; [|discriminate He].
  destruct (persist_cases now run source (src_name s0) batch w1)
    as [t [wa [wb [wc [_ [_ [_ [_ [_ [Hcount [Hp' | Hp']]]]]]]]]]];
    rewrite Hp in Hp'; inversion Hp'; subst.
  pose proof (stored_jobs_length (w_faults w1) batch) as Hlen.
  split; [reflexivity|]. split; [lia|].
  intros Hquiet. rewrite Hcount.
  rewrite quiet_stored_jobs by (apply Hq; exact Hquiet). reflexivity.
Qed.

Lemma adapter_for_unsupported {X : Externals} web kind :
  ~ In kind ["lever"; "greenhouse"; "workday"; "ashby"] ->
  adapter_for web kind = None.
Proof.
  intros Hnot. unfold adapter_for.
  repeat match goal with
         | |- context [String.eqb kind ?k] =>
             destruct (String.eqb_spec kind k) as [->|_];
             [exfalso; apply Hnot; simpl; tauto|]
         end.
  reflexivity.
Qed.

(** X2. Crawling a source that is not configured, or whose [scraper_type] is
    none of the four supported kinds, returns a failure and leaves [jobs]
    and [job_sources] exactly as they were: nothing is inserted, updated
    or deactivated. *)
Theorem unsupported_source_writes_nothing {X : Externals} (web : Web)
    (now : Z) (source : nat) (h : option Z) (w : World) :
  (select_source source w = []
   \/ exists s others,
       select_source source w = s :: others
       /\ ~ In (scraper_type s) ["lever"; "greenhouse"; "workday"; "ashby"]) ->
  exists result w',
    crawl_source web now source h w = (Ret result, w')
    /\ (forall s found new updated, result <> Success s found new updated)
    /\ w_jobs w' = w_jobs w /\ w_next_job_id w' = w_next_job_id w
    /\ w_sources w' = w_sources w.
Proof.
  intros Hbad.
  destruct (crawl_source_cases web now source h w)
    as [result [w' [Hrun Hcases]]].
  exists result, w'. split; [exact Hrun|].
  destruct Hcases
    as [[Hs Hn] | [s [others [run [batch [w1 [o [w2 [Hsel [Had _]]]]]]]]]].
  - split; [exact Hn | exact Hs].
  - exfalso. destruct Hbad as [Hnone | [s' [others' [Hsel' Hkind]]]].
    + congruence.
    + rewrite Hsel in Hsel'. injection Hsel' as Hs Ho.
      pose proof (adapter_for_unsupported web _ Hkind) as Hnone.
      subst s'. rewrite Hnone in Had.
      destruct Had as [a Ha]. discriminate Ha.
Qed.

(** ** Primary keys under crawls *)

Lemma deactivate_rows_ids job_id now rows :
  map id (deactivate_rows job_id now rows) = map id rows.
Proof.
  unfold deactivate_rows. rewrite map_map. apply map_ext.
  intros r. destruct (Nat.eqb (id r) job_id); reflexivity.
Qed.

Lemma deactivate_rows_keyed job_id now rows next :
  keyed rows next -> keyed (deactivate_rows job_id now rows) next.
Proof.
  intros [Hnd Hlt]. split.
  - rewrite deactivate_rows_ids. exact Hnd.
  - unfold deactivate_rows. apply Forall_map.
    eapply Forall_impl; [exact Hlt|]. intros r Hr. simpl.
    destruct (Nat.eqb (id r) job_id); exact Hr.
Qed.

(** The ids of [crawler_runs] are distinct and below the next id. *)
Definition runs_keyed (runs : list RunRow) (next : nat) : Prop :=
  NoDup (map run_id runs) /\ Forall (fun r => run_id r < next) runs.

(** Keys stay keys and the configuration is not written. *)
Definition keys_kept (w w' : World) : Prop :=
  (keyed (w_jobs w) (w_next_job_id w) ->
   keyed (w_jobs w') (w_next_job_id w'))
  /\ (runs_keyed (w_runs w) (w_next_run_id w) ->
      runs_keyed (w_runs w') (w_next_run_id w'))
  /\ w_sources w' = w_sources w.

Lemma keys_kept_trans a b c : keys_kept a b -> keys_kept b c -> keys_kept a c.
Proof.
  intros [H1 [H2 H3]] [H4 [H5 H6]]. split; [auto|]. split; [auto | congruence].
Qed.

Lemma insert_run_keyed source now w :
  runs_keyed (w_runs w) (w_next_run_id w) ->
  runs_keyed (w_runs (snd (insert_run source now w)))
             (w_next_run_id (snd (insert_run source now w))).
Proof.
  intros [Hnd Hlt]. simpl. split.
  - rewrite map_app. simpl. apply NoDup_app. split; [exact Hnd|]. split.
    + intros i Hi Hi'. apply list_elem_of_singleton in Hi'. subst i.
      apply list_elem_of_In, in_map_iff in Hi. destruct Hi as [r [Hr Hin]].
      pose proof (proj1 (List.Forall_forall _ _) Hlt r Hin) as Hlt'.
      simpl in Hlt'. lia.
    + apply NoDup_singleton.
  - apply Forall_app. split.
    + eapply Forall_impl; [exact Hlt|]. simpl. intros; lia.
    + constructor; [simpl; lia | constructor].
Qed.

Lemma update_run_keyed rid found new updated now w :
  runs_keyed (w_runs w) (w_next_run_id w) ->
  runs_keyed (w_runs (snd (update_run rid found new updated now w)))
             (w_next_run_id (snd (update_run rid found new updated now w))).
Proof.
  intros [Hnd Hlt]. simpl. split.
  - rewrite map_map.
    replace (map (fun r => run_id (if Nat.eqb (run_id r) rid
                                   then complete_run found new updated now r
                                   else r)) (w_runs w))
      with (map run_id (w_runs w)); [exact Hnd|].
    apply map_ext. intros r. destruct (Nat.eqb (run_id r) rid); reflexivity.
  - apply Forall_map. eapply Forall_impl; [exact Hlt|]. intros r Hr. simpl.
    destruct (Nat.eqb (run_id r) rid); exact Hr.
Qed.

(** X3. Whatever the calls, the web and the storage faults: the ids of [jobs]
    and of [crawler_runs] stay distinct and below the next id to be given,
    and [job_sources] is never written. *)
Theorem crawls_keep_keys {X : Externals} (cs : list Call) (w : World) :
  keyed (w_jobs w) (w_next_job_id w) ->
  runs_keyed (w_runs w) (w_next_run_id w) ->
  keyed (w_jobs (snd (calls cs w))) (w_next_job_id (snd (calls cs w)))
  /\ runs_keyed (w_runs (snd (calls cs w))) (w_next_run_id (snd (calls cs w)))
  /\ w_sources (snd (calls cs w)) = w_sources w.
Proof.
  intros Hk Hr.
  assert (stable keys_kept (calls cs)) as Hstable.
  { apply stable_calls.
    - intros w0. split; [auto|]. split; [auto | reflexivity].
    - exact keys_kept_trans.
    - intros w0 l. split; [auto|]. split; [auto | reflexivity].
    - intros w0 b fs _. split; [auto|]. split; [auto | reflexivity].
    - intros source company now job w0. split; [|split; [auto | reflexivity]].
      simpl. apply upsert_rows_keyed.
    - intros job_id now w0. split; [|split; [auto | reflexivity]].
      simpl. apply deactivate_rows_keyed.
    - intros source now w0. split; [auto|]. split; [|reflexivity].
      apply insert_run_keyed.
    - intros rid found new updated now w0. split; [auto|].
      split; [|reflexivity]. apply update_run_keyed. }
  destruct (Hstable w) as [H1 [H2 H3]]. auto.
Qed.

(** ** The sweep under storage faults *)

Lemma deactivate_unseen_any {X : Externals} now seen active :
  forall w,
    exists done o w',
      deactivate_unseen now seen active w = (o, w')
      /\ incl done (unseen_ids seen active)
      /\ w_jobs w' = deactivate_ids now done (w_jobs w)
      /\ w_next_job_id w' = w_next_job_id w
      /\ w_sources w' = w_sources w.
Proof.
  induction active as [|[job_id u] active IH]; intros w.
  - exists [], (Ret tt), w. repeat split. intros x [].
  - simpl deactivate_unseen. unfold unseen_ids. simpl List.filter.
    destruct (decide (u ∈ seen)) as [Hin|Hout].
    + rewrite (bool_decide_eq_true_2 _ Hin). simpl negb. cbv iota.
      erewrite bind_run by reflexivity. apply IH.
    + rewrite (bool_decide_eq_false_2 _ Hout). simpl negb. cbv iota.
      simpl map.
      destruct w as [srcs rows nid runs rid log faults].
      destruct faults as [|[|] fs].
      * destruct (IH (mkWorld srcs (deactivate_rows job_id now rows) nid runs
                              rid log [])) as [d [o [w' [Hrun [Hincl [Hj [Hn Hs]]]]]]].
        exists (job_id :: d), o, w'. split; [exact Hrun|].
        split; [|split; [exact Hj | split; assumption]].
        intros x [<-|Hx]; [left; reflexivity | right; apply Hincl; exact Hx].
      * exists [], (Exc DbError). eexists. split; [reflexivity|].
        split; [intros x []|]. repeat split.
      * destruct (IH (mkWorld srcs (deactivate_rows job_id now rows) nid runs
                              rid log fs)) as [d [o [w' [Hrun [Hincl [Hj [Hn Hs]]]]]]].
        exists (job_id :: d), o, w'. split; [exact Hrun|].
        split; [|split; [exact Hj | split; assumption]].
        intros x [<-|Hx]; [left; reflexivity | right; apply Hincl; exact Hx].
Qed.

Lemma retired_of_id source seen rows r i :
  NoDup (map id rows) -> In r rows -> id r = i ->
  In i (map id (List.filter (retired source seen) rows)) ->
  retired source seen r = true.
Proof.
  intros Hnd Hin Hid Hi. subst i.
  rewrite <- (retired_ids source seen rows r Hnd Hin).
  apply existsb_exists. exists (id r). split; [exact Hi | apply Nat.eqb_refl].
Qed.

Lemma mark_inactive_any {X : Externals} (source : nat) (now : Z)
    (seen : gset string) (w : World) :
  NoDup (map id (w_jobs w)) ->
  exists touched w',
    mark_inactive source now seen w = (Ret tt, w')
    /\ w_jobs w'
       = map (fun r => if touched r : bool then deactivated now r else r)
             (w_jobs w)
    /\ (forall r, In r (w_jobs w) -> touched r = true ->
                  source_id r = source /\ is_active r = true
                  /\ r_url r ∉ seen)
    /\ w_next_job_id w' = w_next_job_id w
    /\ w_sources w' = w_sources w.
Proof.
  intros Hnd. unfold mark_inactive, try_except, bind.
  destruct (execute_query_cases (active_jobs_query source) w)
    as [[w1 [Hq [Hj [Hn Hs]]]] | [w1 [Hq [[Hj [Hn Hs]] _]]]]; rewrite Hq.
  - exists (fun _ => false). eexists. split; [reflexivity|]. simpl.
    split; [|split; [intros; discriminate | split; assumption]].
    rewrite Hj. symmetry. rewrite <- (map_id (w_jobs w)) at 2.
    apply map_ext. reflexivity.
  - destruct (deactivate_unseen_any now seen (active_jobs_query source w1) w1)
      as [d [o [w2 [Hrun [Hincl [Hj2 [Hn2 Hs2]]]]]]].
    rewrite Hrun.
    exists (fun r => existsb (Nat.eqb (id r)) d).
    assert (forall r, In r (w_jobs w) ->
                      existsb (Nat.eqb (id r)) d = true ->
                      source_id r = source /\ is_active r = true
                      /\ r_url r ∉ seen) as Htouched.
    { intros r Hin Hex. apply retired_spec.
      apply existsb_exists in Hex. destruct Hex as [i [Hi Heq]].
      apply Nat.eqb_eq in Heq. apply Hincl in Hi.
      unfold active_jobs_query in Hi. rewrite unseen_ids_active, Hj in Hi.
      eapply retired_of_id; [exact Hnd | exact Hin | exact Heq | exact Hi]. }
    destruct o as [[]|e]; eexists; (split; [reflexivity|]); simpl;
      rewrite Hj2, Hj, deactivate_ids_map;
      (split; [reflexivity|]); (split; [exact Htouched|]);
      split; congruence.
Qed.

(** X4. Whatever storage calls raise during the sweep, it returns; it changes
    only rows it is meant to retire - rows of the source that were active
    with a url outside the seen set - and changes them only by
    deactivating them. A row of another source, an inactive row and a row
    with a seen url are never touched. *)
Theorem sweep_touches_only_unseen {X : Externals} (source : nat) (now : Z)
    (seen : gset string) (w : World) :
  NoDup (map id (w_jobs w)) ->
  exists touched w',
    mark_inactive source now seen w = (Ret tt, w')
    /\ w_jobs w'
       = map (fun r => if touched r : bool then deactivated now r else r)
             (w_jobs w)
    /\ (forall r, In r (w_jobs w) -> touched r = true ->
                  source_id r = source /\ is_active r = true
                  /\ r_url r ∉ seen)
    /\ w_next_job_id w' = w_next_job_id w
    /\ w_sources w' = w_sources w.
Proof. apply mark_inactive_any. Qed.

(** ** Rows of other sources *)

(** The rows of the sources other than [source], in their order. *)
Definition others (source : nat) (rows : list JobRow) : list JobRow :=
  List.filter (fun r => negb (Nat.eqb (source_id r) source)) rows.

Section WithinSource.
Context {X : Externals}.

(** The unique index of [jobs] includes the source: rows of different
    sources never collide. *)
Hypothesis index_within_source :
  forall c r, unique_conflict c r = true -> source_id r = source_id c.

Lemma upsert_rows_others source c now rows :
  source_id c = source ->
  others source (upsert_rows c now rows) = others source rows.
Proof.
  intros Hc. unfold others. induction rows as [|r rows IH]; simpl.
  - rewrite Hc, Nat.eqb_refl. reflexivity.
  - destruct (unique_conflict c r) eqn:E; simpl.
    + rewrite (index_within_source c r E), Hc, Nat.eqb_refl. reflexivity.
    + rewrite IH. reflexivity.
Qed.

Lemma upsert_all_others source company now jobs :
  forall rows next,
    others source (fst (upsert_all source company now jobs rows next))
    = others source rows.
Proof.
  induction jobs as [|job jobs IH]; intros rows next; simpl; [reflexivity|].
  rewrite IH. apply upsert_rows_others. reflexivity.
Qed.

Lemma persist_others now run source company jobs w :
  keyed (w_jobs w) (w_next_job_id w) ->
  others source (w_jobs (snd (persist now run source company jobs w)))
  = others source (w_jobs w).
Proof.
  intros Hk.
  destruct (persist_cases now run source company jobs w)
    as [t [w1 [w2 [w' [Hstore [Hsweep [Hj [_ [_ [_ Hp]]]]]]]]]].
  assert (w_jobs (snd (persist now run source company jobs w)) = w_jobs w2)
    as -> by (destruct Hp as [-> | ->]; exact Hj).
  destruct (store_jobs_run source company now jobs (mkTally 0 0 ∅) w)
    as [t0 [Hstore0 _]].
  rewrite Hstore in Hstore0. inversion Hstore0; subst t0 w1. clear Hstore0.
  match type of Hsweep with
  | mark_inactive _ _ _ ?x = _ => set (w1 := x) in *
  end.
  assert (NoDup (map id (w_jobs w1))) as Hnd
      by (apply (upsert_all_keyed source company now _ _ _ Hk)).
  destruct (mark_inactive_any source now (crawled_job_urls t) w1 Hnd)
    as [touched [w2' [Hsweep' [Hrows [Htouched _]]]]].
  rewrite Hsweep in Hsweep'. inversion Hsweep'; subst w2'. clear Hsweep'.
  rewrite Hrows. simpl w_jobs in *.
  rewrite <- (upsert_all_others source company now
                (stored_jobs (w_faults w) jobs) (w_jobs w) (w_next_job_id w)).
  set (rows1 := fst (upsert_all source company now
                       (stored_jobs (w_faults w) jobs) (w_jobs w)
                       (w_next_job_id w))) in *.
  unfold others. clear -Htouched.
  induction rows1 as [|r rows1 IH]; [reflexivity|]. simpl.
  assert (forall r0, In r0 rows1 -> touched r0 = true ->
                     source_id r0 = source /\ is_active r0 = true
                     /\ r_url r0 ∉ crawled_job_urls t) as Hrest
      by (intros; apply Htouched; [right|]; assumption).
  rewrite (IH Hrest).
  destruct (touched r) eqn:E; [|reflexivity].
  destruct (Htouched r (or_introl eq_refl) E) as [Hs _]. simpl.
  rewrite Hs, Nat.eqb_refl. reflexivity.
Qed.

End WithinSource.

(** X5. When the unique index of [jobs] includes the source, a crawl of one
    source leaves the rows of every other source exactly as they were,
    whatever the web returns and whatever storage calls raise. *)
Theorem crawl_leaves_other_sources {X : Externals} (web : Web) (now : Z)
    (source : nat) (h : option Z) (w : World) :
  (forall c r, unique_conflict c r = true -> source_id r = source_id c) ->
  keyed (w_jobs w) (w_next_job_id w) ->
  others source (w_jobs (snd (crawl_source web now source h w)))
  = others source (w_jobs w).
Proof.
  intros Hindex Hk.
  destruct (crawl_source_cases web now source h w)
    as [result [w' [Hrun Hcases]]].
  rewrite Hrun. simpl.
  destruct Hcases
    as [[[-> _] _]
       | [s [rest [run [batch [w1 [o [w2 [_ [_ [H1 [_ [Hp [H2 _]]]]]]]]]]]]]];
    [reflexivity|].
  destruct H1 as [Hj1 [Hn1 _]]. destruct H2 as [Hj2 _].
  rewrite Hj2, <- Hj1.
  replace w2 with (snd (persist now run source (src_name s) batch w1))
    by (rewrite Hp; reflexivity).
  apply persist_others; [exact Hindex|]. rewrite Hj1, Hn1. exact Hk.
Qed.

(** ** Writing a listing and finding it again *)

Lemma upsert_candidate_has_url {X : Externals} next source company now job rows :
  (forall c r, unique_conflict c r = true -> source_id r = source_id c) ->
  exists r,
    In r (upsert_rows (candidate next source company now job) now rows)
    /\ source_id r = source /\ r_url r = url job /\ is_active r = true.
Proof.
  intros Hindex. induction rows as [|x rows [r [Hin Hr]]]; simpl.
  - eexists. split; [left; reflexivity|]. repeat split.
  - destruct (unique_conflict (candidate next source company now job) x) eqn:E.
    + eexists. split; [left; reflexivity|]. simpl.
      split; [apply (Hindex _ _ E) | split; reflexivity].
    + exists r. split; [right; exact Hin | exact Hr].
Qed.

(** X6. When the unique index of [jobs] includes the source, a listing that
    has just been written is found by the existence check: written again
    at once, it is counted as updated and not as new, and the row found is
    an active row of the source with the url of the listing. *)
Theorem written_listing_is_found {X : Externals} (source : nat)
    (company_name : string) (now now' : Z) (job : Job) (t t1 : Tally)
    (w w1 : World) :
  (forall c r, unique_conflict c r = true -> source_id r = source_id c) ->
  store_fails (w_faults w) = false ->
  store_iteration source company_name now job t w = (Ret t1, w1) ->
  store_fails (w_faults w1) = false ->
  (exists r, In r (w_jobs w1) /\ source_id r = source /\ r_url r = url job
             /\ is_active r = true)
  /\ exists t2 w2,
      store_iteration source company_name now' job t1 w1 = (Ret t2, w2)
      /\ updated_count t2 = S (updated_count t1)
      /\ new_count t2 = new_count t1.
Proof.
  intros Hindex Hf Hrun Hf1.
  rewrite (store_iteration_stores source company_name now job t w Hf) in Hrun.
  inversion Hrun as [[Ht Hw]]. clear Hrun. subst w1.
  destruct (upsert_candidate_has_url (w_next_job_id w) source company_name now
              job (w_jobs w) Hindex) as [r [Hin [Hs [Hu Ha]]]].
  split; [exists r; simpl; auto|].
  rewrite (store_iteration_stores source company_name now' job _ _ Hf1).
  eexists. eexists. split; [reflexivity|].
  match goal with
  | |- context [tallied ?q _ _] =>
      assert (q <> []) as Hne;
      [apply check_query_nonempty; exists r; split; [exact Hin|];
       apply check_matches_spec; auto
      | unfold tallied; destruct q; [congruence | simpl; auto]]
  end.
Qed.

(** ** The rows a crawl adds *)

Definition identity_same (w w' : World) : Prop :=
  map row_identity (w_jobs w') = map row_identity (w_jobs w).

Lemma upsert_all_added {X : Externals} source company now jobs :
  forall rows next,
    exists added,
      map row_identity (fst (upsert_all source company now jobs rows next))
      = map row_identity rows ++ added
      /\ Forall (fun i => match i with
                          | (_, src, _, co) => src = source /\ co = company
                          end) added.
Proof.
  induction jobs as [|job jobs IH]; intros rows next; simpl.
  - exists []. split; [symmetry; apply app_nil_r | constructor].
  - destruct (IH (upsert_rows (candidate next source company now job) now rows)
                 (S next)) as [added [Heq Hall]].
    rewrite Heq.
    assert (exists one,
               map row_identity
                   (upsert_rows (candidate next source company now job) now rows)
               = map row_identity rows ++ one
               /\ Forall (fun i => match i with
                                   | (_, src, _, co) =>
                                       src = source /\ co = company
                                   end) one) as [one [Hone Hall1]].
    { clear. induction rows as [|r rows [one [IH Hall]]]; simpl.
      - eexists. split; [reflexivity|]. constructor; [|constructor].
        simpl. auto.
      - destruct (unique_conflict _ r); simpl.
        + exists []. split; [rewrite app_nil_r; reflexivity | constructor].
        + exists one. rewrite IH. auto. }
    exists (one ++ added). rewrite Hone, <- app_assoc. split; [reflexivity|].
    apply Forall_app. auto.
Qed.

(** X7. The rows a crawl appends to [jobs] all belong to the crawled source
    and carry the name configured for it in [job_sources] as their
    company, whatever company the adapter scraped; the rows that were
    there keep their id, source, external id and company. *)
Theorem new_rows_carry_configured_name {X : Externals} (web : Web) (now : Z)
    (source : nat) (h : option Z) (w : World) :
  exists added,
    map row_identity (w_jobs (snd (crawl_source web now source h w)))
    = map row_identity (w_jobs w) ++ added
    /\ (added = []
        \/ exists s rest,
            select_source source w = s :: rest
            /\ Forall (fun i => match i with
                                | (_, src, _, co) =>
                                    src = source /\ co = src_name s
                                end) added).
Proof.
  destruct (crawl_source_cases web now source h w)
    as [result [w' [Hrun Hcases]]].
  rewrite Hrun. simpl.
  destruct Hcases
    as [[[-> _] _]
       | [s [rest [run [batch [w1 [o [w2 [Hsel [_ [[Hj1 [Hn1 _]] [_ [Hp [[Hj2 _] _]]]]]]]]]]]]]].
  { exists []. split; [symmetry; apply app_nil_r | left; reflexivity]. }
  destruct (persist_cases now run source (src_name s) batch w1)
    as [t [wa [wb [wc [Hstore [Hsweep [Hjc [_ [_ [_ Hp']]]]]]]]]].
  assert (w_jobs w2 = w_jobs wb) as Hw2.
  { destruct Hp' as [Hp' | Hp']; rewrite Hp in Hp'; inversion Hp'; subst;
      exact Hjc. }
  destruct (store_jobs_run source (src_name s) now batch (mkTally 0 0 ∅) w1)
    as [t0 [Hstore0 _]].
  rewrite Hstore in Hstore0. inversion Hstore0; subst t0 wa. clear Hstore0.
  pose proof (stable_mark_inactive identity_same
                ltac:(intros ?; reflexivity)
                ltac:(unfold identity_same; intros ? ? ? ? ?; congruence)
                ltac:(intros ? ?; reflexivity)
                ltac:(intros ? ? ? ?; reflexivity)
                ltac:(intros ? ? ?; unfold identity_same; simpl;
                      apply deactivate_rows_identity)
                source now (crawled_job_urls t)) as Hid.
  match type of Hsweep with
  | mark_inactive _ _ _ ?x = _ => specialize (Hid x)
  end.
  rewrite Hsweep in Hid. unfold identity_same in Hid. simpl in Hid.
  destruct (upsert_all_added source (src_name s) now
              (stored_jobs (w_faults w1) batch) (w_jobs w1) (w_next_job_id w1))
    as [added [Heq Hall]].
  exists added. rewrite Hj2, Hw2, Hid, Heq, Hj1. split; [reflexivity|].
  right. exists s, rest. auto.
Qed.

(** ** [crawl_all_sources] *)

Lemma crawl_source_echoes_source {X : Externals} web now source h w w'
    s found new updated :
  crawl_source web now source h w = (Ret (Success s found new updated), w') ->
  s = source.
Proof.
  intros Hrun.
  destruct (crawl_source_cases web now source h w)
    as [result [w2 [Hrun' Hcases]]].
  rewrite Hrun in Hrun'. inversion Hrun'; subst result w2. clear Hrun'.
  destruct Hcases
    as [[_ Hn] | [s0 [rest [run [batch [w1 [o [w3 [_ [_ [_ [_ [Hp [_ Ho]]]]]]]]]]]]]].
  { exfalso. eapply Hn. reflexivity. }
  destruct Ho as [-> | [e [_ He]]]; [|discriminate He].
  destruct (persist_cases now run source (src_name s0) batch w1)
    as [t [wa [wb [wc [_ [_ [_ [_ [_ [_ [Hp' | Hp']]]]]]]]]]];
    rewrite Hp in Hp'; inversion Hp'; reflexivity.
Qed.

Lemma crawl_each_run {X : Externals} web now h sources :
  forall results w,
    exists rs w',
      crawl_each web now h sources results w = (Ret (results ++ rs), w')
      /\ Forall2 (fun source r =>
                    forall s found new updated,
                      r = Success s found new updated -> s = source)
                 sources rs.
Proof.
  induction sources as [|source sources IH]; intros results w.
  - exists [], w. split; [simpl; rewrite app_nil_r; reflexivity | constructor].
  - destruct (crawl_source_cases web now source h w)
      as [result [w1 [Hrun _]]].
    destruct (IH (results ++ [result]) w1) as [rs [w' [Hrest HF]]].
    exists (result :: rs), w'. split.
    + simpl. erewrite bind_run by exact Hrun. rewrite Hrest.
      rewrite <- app_assoc. reflexivity.
    + constructor; [|exact HF]. intros s found new updated ->.
      eapply crawl_source_echoes_source. exact Hrun.
Qed.

Lemma crawl_all_sources_cases {X : Externals} (web : Web) (now : Z)
    (h : option Z) (w : World) :
  (hd false (w_faults w) = true ->
   crawl_all_sources web now h w
   = (Exc DbError,
      with_faults (tl (w_faults w))
                  (with_log (w_log w ++ [QueryExecutionError]) w)))
  /\ (hd false (w_faults w) = false ->
      exists results w',
        crawl_all_sources web now h w
        = (Ret (List.length results, results), w')
        /\ Forall2 (fun source r =>
                      forall s found new updated,
                        r = Success s found new updated -> s = source)
                   (select_enabled_sources w) results).
Proof.
  destruct w as [srcs rows nid runs rid log faults].
  unfold crawl_all_sources.
  destruct faults as [|[|] fs]; simpl hd; (split; [intros Hh | intros Hh]);
    try discriminate Hh.
  - destruct (crawl_each_run web now h
                (select_enabled_sources (mkWorld srcs rows nid runs rid log []))
                [] (mkWorld srcs rows nid runs rid log []))
      as [rs [w' [Hrun HF]]].
    exists rs, w'. split; [|exact HF].
    erewrite bind_run; [|reflexivity].
    erewrite bind_run; [|exact Hrun]. reflexivity.
  - reflexivity.
  - destruct (crawl_each_run web now h
                (select_enabled_sources (mkWorld srcs rows nid runs rid log fs))
                [] (mkWorld srcs rows nid runs rid log fs))
      as [rs [w' [Hrun HF]]].
    exists rs, w'. split; [|exact HF].
    erewrite bind_run; [|reflexivity].
    erewrite bind_run; [|exact Hrun]. reflexivity.
Qed.

(** X8. [crawl_all_sources] raises only when its own query of the enabled
    sources raises, before any source is crawled. Otherwise it returns one
    result per enabled source, in the order of the query, whatever happens
    to each of them: a source that fails does not stop the next ones, and
    a success carries the id of its source. *)
Theorem crawl_all_sources_reports_each {X : Externals} (web : Web) (now : Z)
    (h : option Z) (w : World) :
  (hd false (w_faults w) = true ->
   crawl_all_sources web now h w
   = (Exc DbError,
      with_faults (tl (w_faults w))
                  (with_log (w_log w ++ [QueryExecutionError]) w)))
  /\ (hd false (w_faults w) = false ->
      exists results w',
        crawl_all_sources web now h w
        = (Ret (List.length results, results), w')
        /\ Forall2 (fun source r =>
                      forall s found new updated,
                        r = Success s found new updated -> s = source)
                   (select_enabled_sources w) results).
Proof. apply crawl_all_sources_cases. Qed.

(** ** Scenarios for the further properties *)

(** With the reference index, rows of different sources never collide. *)
Lemma reference_index_within_source :
  forall c r : JobRow,
    unique_conflict c r = true -> source_id r = source_id c.
Proof.
  intros c r H. simpl in H. unfold Reference.natural_key_conflict in H.
  apply bool_decide_eq_true in H. unfold Reference.natural_key in H.
  injection H as Hs _. symmetry. exact Hs.
Defined.

(** Two cards on the board; the insert of the second raises. *)
Definition second_insert_raises : World :=
  with_store [] [false; false; false; false; false; true].

Lemma success_counts_within_found_witness :
  crawl_source (board [card_a; card_b]) 10 1 None second_insert_raises
  = (Ret (Success 1 2 1 0),
     snd (crawl_source (board [card_a; card_b]) 10 1 None
                       second_insert_raises))
  /\ 1 = 1 /\ 1 + 0 <= 2
  /\ (quiet (w_faults second_insert_raises) -> 1 + 0 = 2).
Proof.
  split; [vm_compute; reflexivity|].
  apply (success_counts_within_found (board [card_a; card_b]) 10 1 None
           second_insert_raises
           (snd (crawl_source (board [card_a; card_b]) 10 1 None
                              second_insert_raises))).
  vm_compute. reflexivity.
Defined.

Lemma custom_is_unsupported :
  ~ In (scraper_type other_board) ["lever"; "greenhouse"; "workday"; "ashby"].
Proof. simpl. intros [H|[H|[H|[H|[]]]]]; discriminate H. Defined.

Lemma unsupported_source_writes_nothing_witness :
  (select_source 3 after_first_run = []
   \/ exists s others,
       select_source 3 after_first_run = s :: others
       /\ ~ In (scraper_type s) ["lever"; "greenhouse"; "workday"; "ashby"])
  /\ exists result w',
      crawl_source (board [card_a]) 20 3 None after_first_run
      = (Ret result, w')
      /\ (forall s found new updated, result <> Success s found new updated)
      /\ w_jobs w' = w_jobs after_first_run
      /\ w_next_job_id w' = w_next_job_id after_first_run
      /\ w_sources w' = w_sources after_first_run.
Proof.
  assert (select_source 3 after_first_run = []
          \/ exists s others,
              select_source 3 after_first_run = s :: others
              /\ ~ In (scraper_type s)
                      ["lever"; "greenhouse"; "workday"; "ashby"]) as Hbad.
  { right. exists other_board, []. split; [reflexivity|].
    exact custom_is_unsupported. }
  split; [exact Hbad|].
  exact (unsupported_source_writes_nothing (board [card_a]) 20 3 None
           after_first_run Hbad).
Defined.

(** A crawl of one board, then a crawl of every source while the web is
    down and the first storage call raises. *)
Definition two_calls : list Call :=
  [CrawlSource (board [card_a]) 20 1 None; CrawlAllSources offline 30 None].

Lemma runs_keyed_after_first_run :
  runs_keyed (w_runs after_first_run) (w_next_run_id after_first_run).
Proof. split; constructor. Defined.

Lemma crawls_keep_keys_witness :
  (keyed (w_jobs after_first_run) (w_next_job_id after_first_run)
   /\ runs_keyed (w_runs after_first_run) (w_next_run_id after_first_run))
  /\ keyed (w_jobs (snd (calls two_calls after_first_run)))
           (w_next_job_id (snd (calls two_calls after_first_run)))
  /\ runs_keyed (w_runs (snd (calls two_calls after_first_run)))
                (w_next_run_id (snd (calls two_calls after_first_run)))
  /\ w_sources (snd (calls two_calls after_first_run))
     = w_sources after_first_run.
Proof.
  split; [split; [exact keyed_after_first_run
                 | exact runs_keyed_after_first_run]|].
  exact (crawls_keep_keys two_calls after_first_run keyed_after_first_run
           runs_keyed_after_first_run).
Defined.

Lemma sweep_touches_only_unseen_witness :
  NoDup (map id (w_jobs after_first_run))
  /\ exists touched w',
      mark_inactive 1 20 {[ "https://jobs.lever.co/acme/a" ]} after_first_run
      = (Ret tt, w')
      /\ w_jobs w'
         = map (fun r => if touched r : bool then deactivated 20 r else r)
               (w_jobs after_first_run)
      /\ (forall r, In r (w_jobs after_first_run) -> touched r = true ->
                    source_id r = 1 /\ is_active r = true
                    /\ r_url r ∉ ({[ "https://jobs.lever.co/acme/a" ]}
                                  : gset string))
      /\ w_next_job_id w' = w_next_job_id after_first_run
      /\ w_sources w' = w_sources after_first_run.
Proof.
  split; [exact (proj1 keyed_after_first_run)|].
  exact (sweep_touches_only_unseen 1 20 {[ "https://jobs.lever.co/acme/a" ]}
           after_first_run (proj1 keyed_after_first_run)).
Defined.

Lemma crawl_leaves_other_sources_witness :
  ((forall c r : JobRow,
       unique_conflict c r = true -> source_id r = source_id c)
   /\ keyed (w_jobs after_first_run) (w_next_job_id after_first_run))
  /\ others 1 (w_jobs (snd (crawl_source (board [card_a]) 20 1 None
                                         after_first_run)))
     = others 1 (w_jobs after_first_run).
Proof.
  split; [split; [exact reference_index_within_source
                 | exact keyed_after_first_run]|].
  exact (crawl_leaves_other_sources (board [card_a]) 20 1 None after_first_run
           reference_index_within_source keyed_after_first_run).
Defined.

(** The tally and the world after [posting_a] has been stored in the empty
    store. *)
Definition tally_a : Tally :=
  mkTally 1 0 ({[ lever_base ]} ∪ ∅).

Definition store_a : World :=
  with_jobs [candidate 1 1 "Acme" 10 posting_a] 2 empty_store.

Lemma written_listing_is_found_witness :
  ((forall c r : JobRow,
       unique_conflict c r = true -> source_id r = source_id c)
   /\ store_fails (w_faults empty_store) = false
   /\ store_iteration 1 "Acme" 10 posting_a (mkTally 0 0 ∅) empty_store
      = (Ret tally_a, store_a)
   /\ store_fails (w_faults store_a) = false)
  /\ (exists r, In r (w_jobs store_a) /\ source_id r = 1
                /\ r_url r = url posting_a /\ is_active r = true)
  /\ exists t2 w2,
      store_iteration 1 "Acme" 20 posting_a tally_a store_a = (Ret t2, w2)
      /\ updated_count t2 = S (updated_count tally_a)
      /\ new_count t2 = new_count tally_a.
Proof.
  assert (store_iteration 1 "Acme" 10 posting_a (mkTally 0 0 ∅) empty_store
          = (Ret tally_a, store_a)) as Hrun.
  { rewrite (store_iteration_stores 1 "Acme" 10 posting_a (mkTally 0 0 ∅)
               empty_store eq_refl). reflexivity. }
  split; [split; [exact reference_index_within_source|];
          split; [reflexivity|]; split; [exact Hrun | reflexivity]|].
  exact (written_listing_is_found 1 "Acme" 10 20 posting_a (mkTally 0 0 ∅)
           tally_a empty_store store_a reference_index_within_source
           eq_refl Hrun eq_refl).
Defined.

Lemma crawl_all_sources_reports_each_witness :
  hd false (w_faults after_first_run) = false
  /\ exists results w',
      crawl_all_sources offline 30 None after_first_run
      = (Ret (List.length results, results), w')
      /\ Forall2 (fun source r =>
                    forall s found new updated,
                      r = Success s found new updated -> s = source)
                 (select_enabled_sources after_first_run) results.
Proof.
  split; [reflexivity|].
  exact (proj2 (crawl_all_sources_reports_each offline 30 None
                  after_first_run) eq_refl).
Defined.

(** ** The endpoint [POST /trigger] *)

Lemma mapping_values (k : string) (e : Z) :
  mapping !! k = Some e -> (e = 24 \/ e = 168 \/ e = 360 \/ e = 720)%Z.
Proof.
  intros H. unfold mapping in H. apply elem_of_list_to_map_2 in H.
  repeat (apply elem_of_cons in H as [H|H];
          [inversion H; subst; lia|]).
  apply elem_of_nil in H. destruct H.
Qed.

Lemma effective_hours_bounds hours days window e :
  validated hours days ->
  effective_hours hours days window = Some e ->
  (1 <= e <= 8760)%Z.
Proof.
  intros [Hh Hd] He. unfold effective_hours in He.
  destruct hours as [h|].
  - inversion He; subst. specialize (Hh e eq_refl). lia.
  - destruct days as [d|].
    + inversion He; subst. specialize (Hd d eq_refl). lia.
    + unfold _window_to_hours in He. destruct window as [s|]; [|discriminate].
      destruct (negb (PyStr.truthy s)); [discriminate|].
      apply mapping_values in He. lia.
Qed.

(** X10. Under the bounds the endpoint validates, the window it resolves from
    [max_post_age_hours], [max_post_age_days] and [age_window] lies between
    one hour and 365 days; so, for every clock reading at least a year
    after the first representable instant, the age cutoff can be computed
    and the age filter returns the listings not older than the window. *)
Theorem validated_window_is_computable {X : Externals} (now : Z)
    (hours days : option Z) (window : option string) (e : Z)
    (jobs : list Job) (w : World) :
  validated hours days ->
  effective_hours hours days window = Some e ->
  (datetime_min + 8760 * hour <= now <= datetime_max)%Z ->
  (1 <= e <= 8760)%Z
  /\ filter_by_age now (Some e) jobs w
     = (Ret (List.filter (recent (now - e * hour)%Z) jobs), w).
Proof.
  intros Hv He Hnow.
  pose proof (effective_hours_bounds hours days window e Hv He) as Hb.
  split; [exact Hb|].
  unfold filter_by_age. erewrite bind_run; [reflexivity|].
  apply cutoff_of_run. split.
  - assert (0 <= e / 24)%Z by (apply Z.div_pos; lia).
    assert (e / 24 <= 365)%Z by (apply Z.div_le_upper_bound; lia).
    lia.
  - unfold hour, datetime_min, datetime_max in *. lia.
Qed.

Lemma within_spec lo hi v :
  within lo hi v = true <-> (forall x, v = Some x -> lo <= x <= hi)%Z.
Proof.
  unfold within. destruct v as [x|].
  - rewrite andb_true_iff, !Z.leb_le. split.
    + intros H y Hy. inversion Hy; subst. exact H.
    + intros H. apply H. reflexivity.
  - split; [intros _ x Hx; discriminate Hx | reflexivity].
Qed.

Lemma validated_spec hours days :
  within 1 (24 * 90) hours && within 1 365 days = true
  <-> validated hours days.
Proof.
  unfold validated. rewrite andb_true_iff, !within_spec. reflexivity.
Qed.

(** X9. A request whose [max_post_age_hours] or [max_post_age_days] is out
    of its bounds is answered with status 422, and nothing is crawled,
    written or logged. On every other request the endpoint answers with an
    HTTP error only when it was asked for every source and the query of
    the enabled sources raised: asked for one source it always returns
    status "success" with the result of [crawl_source] as data, also when
    that result is a failure. *)
Theorem trigger_answers_success {X : Externals} (web : Web) (now : Z)
    (hours days : option Z) (window : option string) (w : World) :
  (~ validated hours days ->
   forall source_id,
     trigger_crawl web now source_id hours days window w
     = (RequestValidationError 422, [], w))
  /\ (validated hours days ->
      (forall n,
          exists result w',
            crawl_source web now (S n) (effective_hours hours days window) w
            = (Ret result, w')
            /\ trigger_crawl web now (Some (S n)) hours days window w
               = (Returned "success" ("Crawled source " ++ str_of_nat (S n))
                           (OneSource result), [], w'))
      /\ (forall source_id,
             source_id = None \/ source_id = Some 0 ->
             (hd false (w_faults w) = true ->
              trigger_crawl web now source_id hours days window w
              = (HTTPException 500 DbError, [CrawlError DbError],
                 with_faults (tl (w_faults w))
                             (with_log (w_log w ++ [QueryExecutionError]) w)))
             /\ (hd false (w_faults w) = false ->
                 exists results w',
                   trigger_crawl web now source_id hours days window w
                   = (Returned "success" "Crawled all sources"
                               (AllSources (List.length results) results),
                      [], w')
                   /\ List.length results
                      = List.length (select_enabled_sources w)))).
Proof.
  split.
  { intros Hbad source_id. unfold trigger_crawl.
    destruct (within 1 (24 * 90) hours && within 1 365 days) eqn:E;
      [|reflexivity].
    exfalso. apply Hbad. apply validated_spec. exact E. }
  intros Hok. apply validated_spec in Hok. split.
  - intros n.
    destruct (crawl_source_cases web now (S n)
                (effective_hours hours days window) w)
      as [result [w' [Hrun _]]].
    exists result, w'. split; [exact Hrun|].
    unfold trigger_crawl. rewrite Hok. cbn [negb].
    erewrite bind_run by exact Hrun. reflexivity.
  - intros source_id Hall.
    destruct (crawl_all_sources_cases web now
                (effective_hours hours days window) w) as [Hexc Hret].
    assert (forall o w',
               crawl_all_sources web now (effective_hours hours days window) w
               = (o, w') ->
               trigger_crawl web now source_id hours days window w
               = match o with
                 | Ret result =>
                     (Returned "success" "Crawled all sources"
                               (AllSources (fst result) (snd result)), [], w')
                 | Exc e => (HTTPException 500 e, [CrawlError e], w')
                 end) as Hshape.
    { intros o w' Hrun. unfold trigger_crawl. rewrite Hok. cbn [negb].
      destruct Hall as [-> | ->]; unfold bind; rewrite Hrun;
        destruct o; reflexivity. }
    split.
    + intros Hf. exact (Hshape _ _ (Hexc Hf)).
    + intros Hf. destruct (Hret Hf) as [results [w' [Hrun HF]]].
      exists results, w'. split; [exact (Hshape _ _ Hrun)|].
      symmetry. exact (Forall2_length _ _ _ HF).
Qed.

(** ** The two filters *)

Lemma recent_wider {X : Externals} (c1 c2 : Z) (job : Job) :
  (c2 <= c1)%Z -> recent c1 job = true -> recent c2 job = true.
Proof.
  unfold recent. intros Hle.
  destruct (_parse_iso_datetime_maybe (posting_date job)); [|auto].
  rewrite !Z.leb_le. lia.
Qed.

Lemma filter_filter_implied {A} (p q : A -> bool) (l : list A) :
  (forall a, p a = true -> q a = true) ->
  List.filter p (List.filter q l) = List.filter p l.
Proof.
  intros Himp. induction l as [|a l IH]; [reflexivity|]. simpl.
  destruct (q a) eqn:Hq; simpl.
  - rewrite IH. reflexivity.
  - destruct (p a) eqn:Hp; [|exact IH].
    rewrite (Himp a Hp) in Hq. discriminate Hq.
Qed.

(** X11. A wider age window keeps at least what a narrower one keeps: the
    listings kept for [h1] hours are those kept for [h2 >= h1] hours that
    also pass the narrower cutoff, in the same order. *)
Theorem wider_window_keeps_more {X : Externals} (now h1 h2 : Z)
    (jobs : list Job) (w : World) :
  (h1 <= h2)%Z -> representable now h1 -> representable now h2 ->
  exists kept1 kept2,
    filter_by_age now (Some h1) jobs w = (Ret kept1, w)
    /\ filter_by_age now (Some h2) jobs w = (Ret kept2, w)
    /\ kept1 = List.filter (recent (now - h1 * hour)%Z) kept2
    /\ (forall job, In job kept1 -> In job kept2).
Proof.
  intros Hle H1 H2.
  exists (List.filter (recent (now - h1 * hour)%Z) jobs),
         (List.filter (recent (now - h2 * hour)%Z) jobs).
  assert (forall job, recent (now - h1 * hour)%Z job = true ->
                      recent (now - h2 * hour)%Z job = true) as Himp.
  { intros job. apply recent_wider. unfold hour. lia. }
  split; [|split; [|split]].
  - unfold filter_by_age. erewrite bind_run by (apply cutoff_of_run; exact H1).
    reflexivity.
  - unfold filter_by_age. erewrite bind_run by (apply cutoff_of_run; exact H2).
    reflexivity.
  - symmetry. apply filter_filter_implied. exact Himp.
  - intros job Hin. apply filter_In in Hin. destruct Hin as [Hin Hr].
    apply filter_In. split; [exact Hin | exact (Himp job Hr)].
Qed.

Lemma filter_by_age_length {X : Externals} now h jobs w kept w' :
  filter_by_age now h jobs w = (Ret kept, w') ->
  List.length kept <= List.length jobs /\ (h = None -> kept = jobs).
Proof.
  unfold filter_by_age. destruct h as [h|].
  - unfold bind. destruct (cutoff_of now h w) as [[c|e] w1]; simpl;
      intros Hrun; inversion Hrun; subst.
    split; [apply filter_length_le | discriminate].
  - intros Hrun. inversion Hrun; subst. split; [lia | reflexivity].
Qed.

Lemma filter_by_department_length {X : Externals} targets jobs w kept w' :
  filter_by_department targets jobs w = (Ret kept, w') ->
  List.length kept <= List.length jobs
  /\ (targets = None \/ targets = Some [] -> kept = jobs).
Proof.
  unfold filter_by_department. destruct targets as [[|first rest]|].
  - intros Hrun. inversion Hrun; subst. split; [lia | reflexivity].
  - unfold bind.
    destruct (compile_all (flat_map dept_pattern_sources (first :: rest)) w)
      as [[ps|e] w1]; simpl; intros Hrun; inversion Hrun; subst.
    split.
    + rewrite length_map. apply filter_length_le.
    + intros [H|H]; discriminate H.
  - intros Hrun. inversion Hrun; subst. split; [lia | reflexivity].
Qed.

Lemma filter_by_age_form {X : Externals} now h jobs w aged w1 :
  filter_by_age now h jobs w = (Ret aged, w1) ->
  w1 = w
  /\ aged = match h with
            | None => jobs
            | Some hours => List.filter (recent (now - hours * hour)%Z) jobs
            end.
Proof.
  unfold filter_by_age. destruct h as [h|].
  - unfold bind, cutoff_of.
    destruct ((h / 24 <? -999999999) || (999999999 <? h / 24))%Z;
      [intros Hrun; inversion Hrun|].
    destruct ((now - h * hour <? datetime_min)
              || (datetime_max <? now - h * hour))%Z;
      intros Hrun; inversion Hrun; subst. split; reflexivity.
  - intros Hrun. inversion Hrun; subst. split; reflexivity.
Qed.

Lemma compile_all_form {X : Externals} sources :
  forall w patterns w',
    compile_all sources w = (Ret patterns, w') ->
    w' = w /\ Forall2 (fun src p => re_compile src = Some p) sources patterns.
Proof.
  induction sources as [|src sources IH]; intros w patterns w' Hrun.
  - inversion Hrun; subst. split; [reflexivity | constructor].
  - simpl in Hrun. destruct (re_compile src) as [p|] eqn:Hp;
      [|inversion Hrun].
    unfold bind in Hrun. simpl in Hrun.
    destruct (compile_all sources w) as [[ps|e] w1] eqn:Hps;
      [|inversion Hrun].
    destruct (IH _ _ _ Hps) as [-> HF].
    inversion Hrun; subst. split; [reflexivity|]. constructor; assumption.
Qed.

(** The batch the department filter returns. *)
Definition department_batch {X : Externals} (targets : option (list string))
    (aged kept : list Job) : Prop :=
  match targets with
  | Some (first :: others) =>
      exists patterns,
        Forall2 (fun src p => re_compile src = Some p)
                (flat_map dept_pattern_sources (first :: others)) patterns
        /\ kept = map (set_department (Some first))
                      (List.filter (matches_department patterns) aged)
  | Some [] | None => kept = aged
  end.

Lemma filter_by_department_form {X : Externals} targets aged w kept w2 :
  filter_by_department targets aged w = (Ret kept, w2) ->
  department_batch targets aged kept.
Proof.
  unfold filter_by_department, department_batch.
  destruct targets as [[|first others]|].
  - intros Hrun. inversion Hrun; subst. reflexivity.
  - unfold bind.
    destruct (compile_all (flat_map dept_pattern_sources (first :: others)) w)
      as [[ps|e] w1] eqn:Hps; simpl; intros Hrun; inversion Hrun; subst.
    destruct (compile_all_form _ _ _ _ Hps) as [_ HF].
    exists ps. split; [exact HF | reflexivity].
  - intros Hrun. inversion Hrun; subst. reflexivity.
Qed.

(** X12. [jobs_found] counts the listings left after the two filters, not the
    listings the adapter returned: a crawl that reports success has run
    the age filter on the batch of the adapter and the department filter
    on what the age filter kept, and [found] is the number of listings the
    department filter returned. With a window of [hours] hours the age
    filter kept the listings that pass [recent]; with target departments
    the department filter kept, of those, the listings some compiled
    pattern matches; without a window, or without targets, the filter
    returned what it was given. *)
Theorem found_counts_the_filtered_batch {X : Externals} (now : Z)
    (run source : nat) (company : string) (targets : option (list string))
    (h : option Z) (jobs : list Job) (w w' : World)
    (s found new updated : nat) :
  reconcile now run source company targets h jobs w
  = (Ret (Success s found new updated), w') ->
  exists aged kept w1 w2,
    filter_by_age now h jobs w = (Ret aged, w1)
    /\ filter_by_department targets aged w1 = (Ret kept, w2)
    /\ aged = match h with
              | None => jobs
              | Some hours => List.filter (recent (now - hours * hour)%Z) jobs
              end
    /\ department_batch targets aged kept
    /\ found = List.length kept
    /\ found <= List.length jobs.
Proof.
  unfold reconcile. intros Hrun. unfold bind in Hrun.
  destruct (filter_by_age now h jobs w) as [[aged|e] w1] eqn:Hage;
    [|discriminate Hrun].
  destruct (filter_by_department targets aged w1) as [[kept|e] w2] eqn:Hdept;
    [|discriminate Hrun].
  destruct (filter_by_age_length _ _ _ _ _ _ Hage) as [Hl1 _].
  destruct (filter_by_department_length _ _ _ _ _ Hdept) as [Hl2 _].
  destruct (filter_by_age_form _ _ _ _ _ _ Hage) as [_ Haged].
  pose proof (filter_by_department_form _ _ _ _ _ Hdept) as Hkept.
  exists aged, kept, w1, w2.
  destruct (persist_cases now run source company kept w2)
    as [t [wa [wb [wc [_ [_ [_ [_ [_ [_ [Hp | Hp]]]]]]]]]]];
    rewrite Hp in Hrun; inversion Hrun; subst found.
  repeat (split; [first [reflexivity | assumption]|]). lia.
Qed.

(** ** The listings of the Ashby adapter *)

(** What every listing of the Ashby adapter looks like. *)
Definition ashby_shaped (slug : string) (job : Job) : Prop :=
  (exists ext, external_id job = Some ext /\ 20 <= PyStr.len ext)
  /\ PyStr.truthy (title job) = true
  /\ company job = slug
  /\ description job = EmptyString
  /\ (job_type job = "full_time" \/ job_type job = "unknown").

Lemma ashby_anchor_shaped {X : Externals} origin slug id_to_posting a w job w' :
  ashby_anchor origin slug id_to_posting a w = (Ret (Some job), w') ->
  ashby_shaped slug job.
Proof.
  unfold ashby_anchor. intros Hrun.
  destruct (accepted slug a) as [ext|] eqn:Hacc; [|inversion Hrun].
  destruct (accepted_last _ _ _ Hacc) as [_ [_ [_ Hlen]]].
  unfold bind in Hrun.
  destruct (urljoin origin
              (job_path slug (href_parts (PyStr.strip (a_href a))) ext))
    as [job_url|]; simpl in Hrun; [|inversion Hrun].
  match type of Hrun with
  | (if negb ?b then _ else _) _ = _ =>
      destruct b eqn:Htitle; simpl in Hrun; [|inversion Hrun]
  end.
  destruct (posting_location (id_to_posting !! ext) w) as [[loc|e] w1];
    [|inversion Hrun].
  simpl in Hrun. inversion Hrun; subst job. unfold ashby_shaped. simpl.
  split; [exists ext; auto|]. split; [exact Htitle|].
  split; [reflexivity|]. split; [reflexivity|].
  destruct (sql_eq _ "FullTime"); auto.
Qed.

Lemma ashby_anchors_shaped {X : Externals} origin slug id_to_posting anchors :
  forall jobs0 w jobs w',
    ashby_anchors origin slug id_to_posting anchors jobs0 w = (Ret jobs, w') ->
    Forall (ashby_shaped slug) jobs0 ->
    Forall (ashby_shaped slug) jobs
    /\ List.length jobs <= List.length jobs0 + List.length anchors.
Proof.
  induction anchors as [|a anchors IH]; intros jobs0 w jobs w' Hrun H0.
  - inversion Hrun; subst. split; [exact H0 | simpl; lia].
  - simpl in Hrun. unfold bind in Hrun.
    destruct (ashby_anchor origin slug id_to_posting a w) as [[r|e] w1] eqn:Ha;
      [|inversion Hrun].
    destruct r as [job|].
    + destruct (IH _ _ _ _ Hrun) as [HF Hlen].
      * apply Forall_app. split; [exact H0|].
        constructor; [|constructor].
        eapply ashby_anchor_shaped. exact Ha.
      * split; [exact HF|]. rewrite length_app in Hlen. simpl in *. lia.
    + destruct (IH _ _ _ _ Hrun H0) as [HF Hlen].
      split; [exact HF | simpl; lia].
Qed.

(** X13. Every listing the Ashby adapter returns has the final segment of its
    link as external id, of at least 20 characters, a non-empty title, the
    slug of the board as company, an empty description and job type
    "full_time" or "unknown"; and there is at most one listing per link of
    the page. *)
Theorem ashby_listings_shape {X : Externals} (web : Web) (base_url : string)
    (parsed : ParseResult) (jobs : list Job) (w w' : World) :
  urlparse base_url = Some parsed ->
  crawl_ashby web base_url w = (Ret jobs, w') ->
  Forall (ashby_shaped (PyStr.strip_slash (path parsed))) jobs
  /\ exists anchors app_data,
      ashby_render web base_url = AshbyPage anchors app_data
      /\ List.length jobs <= List.length anchors.
Proof.
  intros Hparse Hrun. unfold crawl_ashby in Hrun. rewrite Hparse in Hrun.
  unfold bind in Hrun. simpl in Hrun.
  destruct (ashby_render web base_url) as [| |anchors app_data];
    [inversion Hrun | inversion Hrun |].
  simpl in Hrun.
  match type of Hrun with
  | match ashby_anchors ?o ?s ?m ?a ?j ?x with _ => _ end = _ =>
      destruct (ashby_anchors o s m a j x) as [[found|e] w1] eqn:Hloop;
      [|inversion Hrun]
  end.
  simpl in Hrun. inversion Hrun; subst.
  destruct (ashby_anchors_shaped _ _ _ _ _ _ _ _ Hloop (List.Forall_nil _))
    as [HF Hlen].
  split; [exact HF|]. exists anchors, app_data. split; [reflexivity|].
  simpl in Hlen. exact Hlen.
Qed.

(** The step of the loop that fills [id_to_posting]. *)
Definition index_step (m : gmap string Posting) (p : Posting)
    : gmap string Posting :=
  match p_id p with
  | Some pid => if PyStr.truthy pid then <[pid := p]> m else m
  | None => m
  end.

Lemma index_fold_lookup (postings : list Posting) (k : string) :
  forall m : gmap string Posting,
    fold_left index_step postings m !! k
    = match last (List.filter
                    (fun p => bool_decide (p_id p = Some k)) postings) with
      | Some p => if PyStr.truthy k then Some p else m !! k
      | None => m !! k
      end.
Proof.
  induction postings as [|p postings IH]; intros m; [reflexivity|].
  simpl fold_left. rewrite IH. simpl List.filter.
  destruct (bool_decide (p_id p = Some k)) eqn:Hd.
  - apply bool_decide_eq_true in Hd.
    assert (index_step m p !! k = if PyStr.truthy k then Some p else m !! k)
      as Hstep.
    { unfold index_step. rewrite Hd.
      destruct (PyStr.truthy k); [apply lookup_insert_eq | reflexivity]. }
    destruct (List.filter (fun p0 => bool_decide (p_id p0 = Some k)) postings)
      as [|q rest].
    + simpl. exact Hstep.
    + change (last (p :: q :: rest)) with (last (q :: rest)).
      destruct (last (q :: rest)) eqn:Hlast; [|exfalso].
      * destruct (PyStr.truthy k); [reflexivity | exact Hstep].
      * apply last_None in Hlast. discriminate Hlast.
  - apply bool_decide_eq_false in Hd.
    assert (index_step m p !! k = m !! k) as Hsame.
    { unfold index_step. destruct (p_id p) as [pid|]; [|reflexivity].
      destruct (PyStr.truthy pid); [|reflexivity].
      apply lookup_insert_ne. intros ->. apply Hd. reflexivity. }
    rewrite Hsame. reflexivity.
Qed.

(** X14. The index of the postings of [window.__appData] gives, for an id, the
    last posting of the list carrying that id; a posting without an id, or
    with the empty id, is never found. *)
Theorem index_postings_last_wins (postings : list Posting) (k : string) :
  index_postings (Some postings) !! k
  = if PyStr.truthy k
    then last (List.filter (fun p => bool_decide (p_id p = Some k)) postings)
    else None.
Proof.
  unfold index_postings.
  change (fold_left index_step postings ∅ !! k
          = if PyStr.truthy k
            then last (List.filter (fun p => bool_decide (p_id p = Some k))
                                   postings)
            else None).
  rewrite index_fold_lookup. rewrite lookup_empty.
  destruct (last (List.filter _ postings));
    destruct (PyStr.truthy k); reflexivity.
Qed.

(** ** Reading posting dates *)

Lemma chars_nonempty c (s : string) : PyStr.chars (String c s) <> [].
Proof.
  simpl. destruct s as [|b s']; [discriminate|].
  destruct (PyStr.is_continuation b); [|discriminate].
  destruct (PyStr.chars (String b s')); discriminate.
Qed.

Definition starts_inside (s : string) : bool :=
  match s with
  | String b _ => PyStr.is_continuation b
  | EmptyString => false
  end.

Lemma chars_cons a (s : string) :
  PyStr.chars (String a s)
  = if starts_inside s
    then match PyStr.chars s with
         | h :: t => String a h :: t
         | [] => [String a EmptyString]
         end
    else String a EmptyString :: PyStr.chars s.
Proof. reflexivity. Qed.

(** Appending a text that starts a new character appends its characters. *)
Lemma chars_app (s t : string) c t' :
  t = String c t' -> PyStr.is_continuation c = false ->
  PyStr.chars (s ++ t) = PyStr.chars s ++ PyStr.chars t.
Proof.
  intros -> Hc. induction s as [|a s IH]; [reflexivity|].
  change (String a s ++ String c t')%string
    with (String a (s ++ String c t')%string).
  rewrite !chars_cons, IH.
  destruct s as [|b s'].
  - simpl. rewrite Hc. reflexivity.
  - change (starts_inside (String b s' ++ String c t')%string)
      with (PyStr.is_continuation b).
    change (starts_inside (String b s')) with (PyStr.is_continuation b).
    destruct (PyStr.is_continuation b); [|reflexivity].
    pose proof (chars_nonempty b s') as Hne.
    destruct (PyStr.chars (String b s')) as [|h r]; [congruence | reflexivity].
Qed.

Lemma append_associative (a b c : string) :
  ((a ++ b) ++ c)%string = (a ++ (b ++ c))%string.
Proof.
  induction a as [|x a IH]; [reflexivity|].
  change (String x ((a ++ b) ++ c)%string = String x (a ++ (b ++ c))%string).
  f_equal. exact IH.
Qed.

Lemma join_app (l k : list string) :
  PyStr.join (l ++ k) = (PyStr.join l ++ PyStr.join k)%string.
Proof.
  induction l as [|x l IH]; [reflexivity|].
  simpl. rewrite IH. symmetry. apply append_associative.
Qed.

Lemma lstrip_chars_app (l k : list string) ch k' :
  k = ch :: k' -> PyStr.is_space_char ch = false ->
  PyStr.lstrip_chars (l ++ k) = PyStr.lstrip_chars l ++ k.
Proof.
  intros -> Hch. induction l as [|x l IH]; simpl.
  - rewrite Hch. reflexivity.
  - destruct (PyStr.is_space_char x); [exact IH | reflexivity].
Qed.

Lemma rstrip_chars_app (l k : list string) :
  PyStr.rstrip_chars k = k -> k <> [] ->
  PyStr.rstrip_chars (l ++ k) = l ++ k.
Proof.
  intros Hk Hne. induction l as [|x l IH]; simpl; [exact Hk|].
  rewrite IH. destruct (l ++ k) eqn:E; [|reflexivity].
  apply app_eq_nil in E. destruct E as [_ E]. congruence.
Qed.

(** Stripping a text that ends in [t], when [t] starts a character, has no
    whitespace character at either end and is not empty, strips only what
    precedes [t]. *)
Lemma strip_app (s t : string) c t' ch k' :
  t = String c t' -> PyStr.is_continuation c = false ->
  PyStr.chars t = ch :: k' -> PyStr.is_space_char ch = false ->
  PyStr.rstrip_chars (PyStr.chars t) = PyStr.chars t ->
  PyStr.join (PyStr.chars t) = t ->
  PyStr.strip (s ++ t)
  = (PyStr.join (PyStr.lstrip_chars (PyStr.chars s)) ++ t)%string.
Proof.
  intros Ht Hc Hchars Hch Hr Hj. unfold PyStr.strip.
  rewrite (chars_app s t c t' Ht Hc).
  rewrite (lstrip_chars_app _ _ ch k' Hchars Hch).
  rewrite rstrip_chars_app; [|exact Hr | rewrite Hchars; discriminate].
  rewrite join_app, Hj. reflexivity.
Qed.

Lemma is_empty_app (s t : string) :
  PyStr.is_empty t = false -> PyStr.is_empty (s ++ t) = false.
Proof. destruct s; simpl; auto. Qed.

Lemma drop_final_app c (s : string) :
  PyStr.drop_final c (s ++ String c EmptyString) = Some s.
Proof.
  induction s as [|a s IH]; simpl.
  - rewrite Ascii.eqb_refl. reflexivity.
  - rewrite IH. destruct s; reflexivity.
Qed.

Lemma drop_final_app_none c (s t : string) :
  PyStr.drop_final c t = None -> PyStr.is_empty t = false ->
  PyStr.drop_final c (s ++ t) = None.
Proof.
  intros Ht Hne. induction s as [|a s IH]; simpl; [exact Ht|].
  rewrite IH. pose proof (is_empty_app s t Hne) as He.
  destruct (s ++ t)%string; [discriminate He | reflexivity].
Qed.

(** X15. A posting date written with a final "Z" is read as the same text with
    "+00:00" in its place, whatever surrounds it: both give the same
    datetime, or both are unparsable. *)
Theorem zulu_suffix_is_utc_offset {X : Externals} (s : string) :
  _parse_iso_datetime_maybe (PyStr (s ++ "Z"))
  = _parse_iso_datetime_maybe (PyStr (s ++ "+00:00")).
Proof.
  unfold _parse_iso_datetime_maybe.
  rewrite (strip_app s "Z" "Z"%char EmptyString "Z" [])
    by reflexivity.
  rewrite (strip_app s "+00:00" "+"%char "00:00" "+"
             ["0"; "0"; ":"; "0"; "0"])
    by reflexivity.
  rewrite !is_empty_app by reflexivity.
  rewrite drop_final_app.
  rewrite drop_final_app_none by reflexivity.
  reflexivity.
Qed.

(** ** The rows a crawl has written *)

Lemma stored_jobs_in faults jobs job :
  In job (stored_jobs faults jobs) -> In job jobs.
Proof.
  revert faults. induction jobs as [|j jobs IH]; intros faults; simpl; [auto|].
  destruct (store_fails faults); simpl; intros H.
  - right. eapply IH. exact H.
  - destruct H as [H|H]; [left; exact H | right; eapply IH; exact H].
Qed.

(** The stored row [r] is active and shows the listing [job]. *)
Definition carries (job : Job) (r : JobRow) : Prop :=
  is_active r = true /\ r_url r = url job /\ r_title r = title job
  /\ r_department r = department job.

Lemma upsert_candidate_written {X : Externals} next source company now job
    rows r' :
  In r' (upsert_rows (candidate next source company now job) now rows) ->
  In r' rows \/ carries job r'.
Proof.
  induction rows as [|r rows IH]; simpl.
  - intros [<-|[]]. right. repeat split.
  - destruct (unique_conflict (candidate next source company now job) r).
    + intros [<-|H]; [right; repeat split | left; right; exact H].
    + intros [<-|H]; [left; left; reflexivity|].
      destruct (IH H) as [Hin|Hw]; [left; right; exact Hin | right; exact Hw].
Qed.

Lemma upsert_all_written {X : Externals} source company now jobs :
  forall rows next r',
    In r' (fst (upsert_all source company now jobs rows next)) ->
    In r' rows \/ exists job, In job jobs /\ carries job r'.
Proof.
  induction jobs as [|job jobs IH]; intros rows next r'; simpl; [auto|].
  intros H. destruct (IH _ _ _ H) as [Hin | [j [Hj Hc]]].
  - destruct (upsert_candidate_written _ _ _ _ _ _ _ Hin) as [Hold | Hc].
    + left. exact Hold.
    + right. exists job. split; [left; reflexivity | exact Hc].
  - right. exists j. split; [right; exact Hj | exact Hc].
Qed.

(** What the rows of [jobs] are after [persist]. *)
Lemma persist_rows {X : Externals} (now : Z) (run source : nat)
    (company : string) (jobs : list Job) (w : World) (r' : JobRow) :
  keyed (w_jobs w) (w_next_job_id w) ->
  In r' (w_jobs (snd (persist now run source company jobs w))) ->
  In r' (w_jobs w)
  \/ (exists r, In r (w_jobs w) /\ r' = deactivated now r
                /\ source_id r = source /\ is_active r = true)
  \/ (exists job, In job jobs /\ carries job r').
Proof.
  intros Hk Hin.
  destruct (persist_cases now run source company jobs w)
    as [t [w1 [w2 [w' [Hstore [Hsweep [Hj [_ [_ [_ Hp]]]]]]]]]].
  assert (w_jobs (snd (persist now run source company jobs w)) = w_jobs w2)
    as Hw by (destruct Hp as [-> | ->]; exact Hj).
  rewrite Hw in Hin. clear Hw Hp Hj w'.
  destruct (store_jobs_run source company now jobs (mkTally 0 0 ∅) w)
    as [t0 [Hstore0 [_ Hseen]]].
  rewrite Hstore in Hstore0. inversion Hstore0; subst t0 w1. clear Hstore0.
  match type of Hsweep with
  | mark_inactive _ _ _ ?x = _ => set (w1 := x) in *
  end.
  assert (NoDup (map id (w_jobs w1))) as Hnd
      by (apply (upsert_all_keyed source company now _ _ _ Hk)).
  destruct (mark_inactive_any source now (crawled_job_urls t) w1 Hnd)
    as [touched [w2' [Hsweep' [Hrows [Htouched _]]]]].
  rewrite Hsweep in Hsweep'. inversion Hsweep'; subst w2'. clear Hsweep'.
  rewrite Hrows in Hin. apply in_map_iff in Hin.
  destruct Hin as [r1 [Heq Hin1]].
  pose proof Hin1 as Hin1'. simpl in Hin1'.
  apply upsert_all_written in Hin1'.
  destruct (touched r1) eqn:Ht.
  - destruct (Htouched r1 Hin1 Ht) as [Hs [Ha Hu]].
    destruct Hin1' as [Hold | [job [Hjob [_ [Hurl _]]]]].
    + right. left. exists r1. auto.
    + exfalso. apply Hu. rewrite Hseen. apply elem_of_union_l.
      apply elem_of_list_to_set. apply list_elem_of_In.
      rewrite Hurl. apply in_map. exact Hjob.
  - subst r'. destruct Hin1' as [Hold | [job [Hjob Hc]]].
    + left. exact Hold.
    + right. right. exists job.
      split; [eapply stored_jobs_in; exact Hjob | exact Hc].
Qed.

(** X16. After the storing loop and the sweep, whatever storage calls raised,
    every row of [jobs] is a row that was there and is unchanged, or a row
    of the source that was active and has been retired, or a row written
    in this run: such a row is active and carries the url, the title and
    the department of a listing of the batch. A run never retires what it
    has just written. *)
Theorem written_rows_stay_active {X : Externals} (now : Z) (run source : nat)
    (company : string) (jobs : list Job) (w : World) (r' : JobRow) :
  keyed (w_jobs w) (w_next_job_id w) ->
  In r' (w_jobs (snd (persist now run source company jobs w))) ->
  In r' (w_jobs w)
  \/ (exists r, In r (w_jobs w) /\ r' = deactivated now r
                /\ source_id r = source /\ is_active r = true)
  \/ (exists job, In job jobs /\ carries job r').
Proof. apply persist_rows. Qed.

Lemma filter_by_department_stamps {X : Externals} first others jobs w kept w' :
  filter_by_department (Some (first :: others)) jobs w = (Ret kept, w') ->
  Forall (fun job => department job = Some first) kept.
Proof.
  unfold filter_by_department, bind.
  destruct (compile_all (flat_map dept_pattern_sources (first :: others)) w)
    as [[ps|e] w1]; simpl; intros Hrun; inversion Hrun; subst.
  apply Forall_map. apply List.Forall_forall. intros; reflexivity.
Qed.

(** X21. With target departments configured, after the filters, the storing
    loop and the sweep, whatever storage calls raised, every row of [jobs]
    is a row that was there and is unchanged, or a row of the source that
    was active and has been retired - it is inactive now - or a row
    written in this run: such a row is active, carries the url and the
    title of a listing of the adapter's batch that some pattern of the
    targets matches, and is stamped with the first target department,
    whatever the listing's own department was. *)
Theorem written_rows_get_first_target {X : Externals} (now : Z)
    (run source : nat) (company : string) (first : string)
    (others : list string) (h : option Z) (jobs : list Job) (w : World)
    (r' : JobRow) :
  keyed (w_jobs w) (w_next_job_id w) ->
  In r' (w_jobs (snd (reconcile now run source company
                                (Some (first :: others)) h jobs w))) ->
  In r' (w_jobs w)
  \/ (exists r, In r (w_jobs w) /\ r' = deactivated now r
                /\ is_active r' = false
                /\ source_id r = source /\ is_active r = true)
  \/ (is_active r' = true /\ r_department r' = Some first
      /\ exists job,
          In job jobs /\ department_match (first :: others) job
          /\ r_url r' = url job /\ r_title r' = title job).
Proof.
  intros Hk Hin. unfold reconcile, bind in Hin.
  pose proof (stable_filter_by_age jobs_same
                ltac:(jobs_same_conditions) ltac:(jobs_same_conditions)
                now h jobs w) as H1.
  destruct (filter_by_age now h jobs w) as [[aged|e] w1] eqn:Hage;
    simpl in H1;
    [|simpl in Hin; destruct H1 as [<- _]; left; exact Hin].
  pose proof (stable_filter_by_department jobs_same
                ltac:(jobs_same_conditions) ltac:(jobs_same_conditions)
                ltac:(jobs_same_conditions)
                (Some (first :: others)) aged w1) as H2.
  destruct (filter_by_department (Some (first :: others)) aged w1)
    as [[kept|e] w2] eqn:Hdept; simpl in H2;
    [|simpl in Hin; destruct H1 as [<- _]; destruct H2 as [<- _];
      left; exact Hin].
  destruct (filter_by_age_form _ _ _ _ _ _ Hage) as [_ Haged].
  destruct (filter_by_department_form _ _ _ _ _ Hdept)
    as [patterns [HF Hkept]].
  destruct (jobs_same_trans _ _ _ H1 H2) as [Hj [Hn _]].
  assert (keyed (w_jobs w2) (w_next_job_id w2)) as Hk2
      by (rewrite Hj, Hn; exact Hk).
  destruct (persist_rows now run source company kept w2 r' Hk2 Hin)
    as [Hold | [[r [Hr [-> [Hs Ha]]]] | [job [Hjob [Ha [Hu [Ht Hd]]]]]]].
  - left. rewrite <- Hj. exact Hold.
  - right. left. exists r. rewrite <- Hj.
    split; [exact Hr|]. split; [reflexivity|]. split; [reflexivity|].
    split; [exact Hs | exact Ha].
  - right. right. rewrite Hkept in Hjob. apply in_map_iff in Hjob.
    destruct Hjob as [j [<- Hj0]]. apply filter_In in Hj0.
    destruct Hj0 as [Hj0 Hm].
    split; [exact Ha|]. split; [rewrite Hd; reflexivity|].
    exists j. split.
    + destruct h as [hours|]; subst aged; [|exact Hj0].
      apply filter_In in Hj0. exact (proj1 Hj0).
    + split; [apply (matches_department_spec _ _ _ HF); exact Hm|].
      split; [rewrite Hu | rewrite Ht]; reflexivity.
Qed.

(** ** Crawling the same batch again *)

Lemma persist_keeps_keys {X : Externals} now run source company jobs w :
  keyed (w_jobs w) (w_next_job_id w) ->
  keyed (w_jobs (snd (persist now run source company jobs w)))
        (w_next_job_id (snd (persist now run source company jobs w))).
Proof.
  intros Hk.
  assert (stable keys_kept (persist now run source company jobs)) as Hstable.
  { apply stable_persist.
    - intros w0. split; [auto|]. split; [auto | reflexivity].
    - exact keys_kept_trans.
    - intros w0 l. split; [auto|]. split; [auto | reflexivity].
    - intros w0 b fs _. split; [auto|]. split; [auto | reflexivity].
    - intros src co t job w0. split; [|split; [auto | reflexivity]].
      simpl. apply upsert_rows_keyed.
    - intros job_id t w0. split; [|split; [auto | reflexivity]].
      simpl. apply deactivate_rows_keyed.
    - intros rid found new updated t w0. split; [auto|].
      split; [|reflexivity]. apply update_run_keyed. }
  destruct (Hstable w) as [H1 _]. auto.
Qed.

Section Idempotence.
Context {X : Externals} {K : Type}.

(** The key of the unique index of [jobs], computed from the source, the
    external id and the url of a row. *)
Variable key : nat -> option string -> string -> K.

Definition key_of (r : JobRow) : K :=
  key (source_id r) (r_external_id r) (r_url r).

Definition job_key (source : nat) (job : Job) : K :=
  key source (external_id job) (url job).

(** Two rows collide when their keys are equal; the update of a colliding
    row, which replaces its url, does not change its key; and the
    existence check finds every row that has the key of the listing. *)
Hypothesis index_is_key :
  forall c r, unique_conflict c r = true <-> key_of c = key_of r.
Hypothesis update_keeps_key :
  forall c r, key_of c = key_of r ->
              key (source_id r) (r_external_id r) (r_url c) = key_of r.
Hypothesis key_is_checked :
  forall c r, key_of c = key_of r ->
              check_matches (source_id c) (PyStr.or_else (r_external_id c) "")
                            (r_url c) r = true.

Lemma upsert_rows_keys c now rows :
  map key_of (upsert_rows c now rows)
  = map key_of rows
    ++ (if existsb (unique_conflict c) rows then [] else [key_of c]).
Proof.
  induction rows as [|r rows IH]; simpl; [reflexivity|].
  destruct (unique_conflict c r) eqn:E; simpl.
  - rewrite app_nil_r. f_equal. unfold key_of at 1. simpl.
    apply update_keeps_key. apply index_is_key. exact E.
  - rewrite IH. reflexivity.
Qed.

Lemma upsert_rows_known_key c now rows :
  In (key_of c) (map key_of rows) ->
  map key_of (upsert_rows c now rows) = map key_of rows.
Proof.
  intros Hin. rewrite upsert_rows_keys.
  replace (existsb (unique_conflict c) rows) with true;
    [apply app_nil_r|].
  symmetry. apply existsb_exists. apply in_map_iff in Hin.
  destruct Hin as [r [Hkey Hr]]. exists r. split; [exact Hr|].
  apply index_is_key. symmetry. exact Hkey.
Qed.

Lemma upsert_rows_has_key c now rows :
  In (key_of c) (map key_of (upsert_rows c now rows))
  /\ forall k, In k (map key_of rows) ->
               In k (map key_of (upsert_rows c now rows)).
Proof.
  rewrite upsert_rows_keys. split.
  - destruct (existsb (unique_conflict c) rows) eqn:E.
    + rewrite app_nil_r. apply existsb_exists in E.
      destruct E as [r [Hr Hc]]. apply index_is_key in Hc. rewrite Hc.
      apply in_map. exact Hr.
    + apply in_or_app. right. left. reflexivity.
  - intros k Hk. apply in_or_app. left. exact Hk.
Qed.

Lemma upsert_all_has_keys source company now jobs :
  forall rows next,
    (forall job, In job jobs ->
                 In (job_key source job)
                    (map key_of (fst (upsert_all source company now jobs
                                                 rows next))))
    /\ forall k, In k (map key_of rows) ->
                 In k (map key_of (fst (upsert_all source company now jobs
                                                   rows next))).
Proof.
  induction jobs as [|job jobs IH]; intros rows next; simpl.
  - split; [intros job [] | auto].
  - destruct (IH (upsert_rows (candidate next source company now job) now rows)
                 (S next)) as [Hjobs Hold].
    destruct (upsert_rows_has_key (candidate next source company now job)
                now rows) as [Hnew Hkept].
    split.
    + intros j [<-|Hj]; [apply Hold; exact Hnew | apply Hjobs; exact Hj].
    + intros k Hk. apply Hold, Hkept, Hk.
Qed.

Lemma upsert_all_known_keys source company now jobs :
  forall rows next,
    (forall job, In job jobs -> In (job_key source job) (map key_of rows)) ->
    map key_of (fst (upsert_all source company now jobs rows next))
    = map key_of rows.
Proof.
  induction jobs as [|job jobs IH]; intros rows next Hall; simpl; [reflexivity|].
  assert (map key_of (upsert_rows (candidate next source company now job)
                                  now rows) = map key_of rows) as Hsame.
  { apply upsert_rows_known_key. apply (Hall job). left. reflexivity. }
  rewrite IH.
  - exact Hsame.
  - intros j Hj. rewrite Hsame. apply Hall. right. exact Hj.
Qed.

Lemma swept_keys source now seen rows :
  map key_of (swept source now seen rows) = map key_of rows.
Proof.
  unfold swept. rewrite map_map. apply map_ext. intros r.
  destruct (retired source seen r); reflexivity.
Qed.

(** When every listing of the batch has its key in the table, the storing
    loop counts none of them as new. *)
Lemma store_jobs_all_found source company now jobs :
  forall t w,
    quiet (w_faults w) ->
    (forall job, In job jobs ->
                 In (job_key source job) (map key_of (w_jobs w))) ->
    exists t' w',
      store_jobs source company now jobs t w = (Ret t', w')
      /\ new_count t' = new_count t.
Proof.
  induction jobs as [|job jobs IH]; intros t w Hq Hall.
  - exists t, w. split; reflexivity.
  - simpl store_jobs. fold (store_iteration source company now job t).
    erewrite bind_run
      by (apply store_iteration_stores; apply quiet_store_fails; exact Hq).
    match goal with
    | |- context [store_jobs _ _ _ _ ?t1 ?w1] =>
        destruct (IH t1 w1) as [t' [w' [Hrun Hnew]]]
    end.
    + simpl. apply quiet_store_rest. exact Hq.
    + intros j Hj. simpl.
      apply (proj2 (upsert_rows_has_key _ _ _)). apply Hall. right. exact Hj.
    + exists t', w'. split; [exact Hrun|]. rewrite Hnew.
      assert (check_query source (PyStr.or_else (external_id job) "")
                          (url job) w <> []) as Hne.
      { apply check_query_nonempty.
        assert (In (job_key source job) (map key_of (w_jobs w))) as Hin
            by (apply Hall; left; reflexivity).
        apply in_map_iff in Hin. destruct Hin as [r [Hkey Hr]].
        exists r. split; [exact Hr|].
        apply (key_is_checked
                 (candidate (w_next_job_id w) source company now job) r).
        symmetry. exact Hkey. }
      unfold tallied.
      destruct (check_query source (PyStr.or_else (external_id job) "")
                            (url job) w); [congruence | reflexivity].
Qed.

(** X22. Crawling the same batch again creates nothing. When the unique
    index of [jobs] is a key of source, external id and url that an update
    preserves and the existence check respects, then after a run in which
    no storage call raised, a second run on the same batch reports every
    listing as updated and none as new, and adds no row: the keys of the
    table are, row by row, what they were. *)
Theorem repeated_crawl_adds_nothing (now now' : Z) (run run' source : nat)
    (company : string) (jobs : list Job) (w : World) :
  quiet (w_faults w) ->
  keyed (w_jobs w) (w_next_job_id w) ->
  exists w2,
    persist now' run' source company jobs
            (snd (persist now run source company jobs w))
    = (Ret (Success source (List.length jobs) 0 (List.length jobs)), w2)
    /\ map key_of (w_jobs w2)
       = map key_of (w_jobs (snd (persist now run source company jobs w)))
    /\ List.length (w_jobs w2)
       = List.length (w_jobs (snd (persist now run source company jobs w))).
Proof.
  intros Hq Hk.
  pose proof (persist_keeps_keys now run source company jobs w Hk) as Hk1.
  destruct (persist_quiet now run source company jobs w Hq Hk)
    as [n1 [u1 [w1 [Hrun1 [_ [Hrows1 Hq1]]]]]].
  rewrite Hrun1 in *. simpl in *.
  assert (forall job, In job jobs ->
                      In (job_key source job) (map key_of (w_jobs w1)))
    as Hall.
  { intros job Hjob. rewrite Hrows1, swept_keys.
    apply (proj1 (upsert_all_has_keys source company now jobs _ _)).
    exact Hjob. }
  destruct (persist_quiet now' run' source company jobs w1 Hq1 Hk1)
    as [n2 [u2 [w2 [Hrun2 [Hsum [Hrows2 _]]]]]].
  assert (map key_of (w_jobs w2) = map key_of (w_jobs w1)) as Hkeys.
  { rewrite Hrows2, swept_keys. apply upsert_all_known_keys. exact Hall. }
  assert (n2 = 0) as Hzero.
  { destruct (store_jobs_all_found source company now' jobs (mkTally 0 0 ∅)
                w1 Hq1 Hall) as [t' [w' [Hstore Hnew]]].
    destruct (persist_cases now' run' source company jobs w1)
      as [t [wa [wb [wc [Hstore' [_ [_ [_ [_ [_ [Hp | Hp]]]]]]]]]]];
      rewrite Hrun2 in Hp; inversion Hp; subst.
    rewrite Hstore in Hstore'. inversion Hstore'; subst. exact Hnew. }
  subst n2. simpl in Hsum. subst u2.
  exists w2. split; [exact Hrun2|]. split; [exact Hkeys|].
  rewrite <- (length_map key_of (w_jobs w2)), Hkeys. apply length_map.
Qed.

End Idempotence.

(** ** The retention job *)

Section RetentionProperties.
Context {C : StoreClock}.

(** The rows [insert_sql] adds to [jobs_archived]. *)
Definition newly_archived (days now : Z) (t : Tables) : list ArchivedRow :=
  map (fun j => mkArchivedRow (id j) now j)
      (List.filter (fun j => eligible days now t j && negb (is_archived t j))
                   (w_jobs (t_world t))).

(** [archive_old_jobs] statement by statement: it raises the storage error
    of the first statement that fails, having deleted nothing; or it
    returns, having archived and then deleted. *)
Lemma archive_cases (cfg : Z) (rd : option Z) (nc ni nd : Z) (t : Tables) :
  let days := days_of cfg rd in
  let jobs := w_jobs (t_world t) in
  exists o t',
    archive_old_jobs cfg rd nc ni nd t = (o, t')
    /\ t_applications t' = t_applications t
    /\ t_cover_letters t' = t_cover_letters t
    /\ ((o = Exc DbError
         /\ w_jobs (t_world t') = jobs
         /\ (t_jobs_archived t' = t_jobs_archived t
             \/ t_jobs_archived t'
                = t_jobs_archived t ++ newly_archived days ni t)
         /\ t_retention_log t'
            = t_retention_log t ++ [FailedToArchive DbError])
        \/ (o = Ret (mkReport
                       (List.length (List.filter (eligible days nc t) jobs))
                       (List.length (List.filter (eligible days nc t) jobs))
                       (List.length (List.filter (eligible days nd t) jobs))
                       days)
            /\ w_jobs (t_world t')
               = List.filter (fun j => negb (eligible days nd t j)) jobs
            /\ t_jobs_archived t'
               = t_jobs_archived t ++ newly_archived days ni t
            /\ t_retention_log t'
               = t_retention_log t
                 ++ [ArchivedOldJobs
                       (List.length (List.filter (eligible days nc t) jobs))
                       days
                       (List.length (List.filter (eligible days nd t) jobs))])).
Proof.
  destruct t as [[srcs rows nid runs rid log faults] arch apps cls rlog].
  destruct faults as [|[|] [|[|] [|[|] fs]]];
    (eexists; eexists; split; [reflexivity|];
     split; [reflexivity|]; split; [reflexivity|];
     lazymatch goal with
     | |- (Exc _ = _ /\ _) \/ _ =>
         left; split; [reflexivity|]; split; [reflexivity|];
         split; [|reflexivity];
         simpl;
         lazymatch goal with
         | |- ?a = ?a \/ _ => left; reflexivity
         | |- _ => right; reflexivity
         end
     | |- _ =>
         right; split; [reflexivity|]; split; [reflexivity|];
         split; reflexivity
     end).
Qed.

(** X17. The retention job never deletes a job that has an application or a
    cover letter, nor one that is not older than the retention when the
    DELETE runs; it adds no row to [jobs] and changes none; it leaves
    [applications] and [cover_letters] alone. This holds whichever of its
    statements raises. *)
Theorem archive_spares_referenced (cfg : Z) (rd : option Z) (nc ni nd : Z)
    (t : Tables) :
  let t' := snd (archive_old_jobs cfg rd nc ni nd t) in
  (forall j, In j (w_jobs (t_world t)) ->
             has_application t j = true \/ has_cover_letter t j = true
             \/ aged (days_of cfg rd) nd j = false ->
             In j (w_jobs (t_world t')))
  /\ (forall j, In j (w_jobs (t_world t')) -> In j (w_jobs (t_world t)))
  /\ t_applications t' = t_applications t
  /\ t_cover_letters t' = t_cover_letters t.
Proof.
  destruct (archive_cases cfg rd nc ni nd t)
    as [o [t' [Hrun [Ha [Hc Hcases]]]]].
  rewrite Hrun. simpl.
  split; [|split; [|split; assumption]].
  - intros j Hin Hkeep.
    destruct Hcases as [[_ [-> _]] | [_ [-> _]]]; [exact Hin|].
    apply filter_In. split; [exact Hin|].
    unfold eligible.
    destruct Hkeep as [H | [H | H]]; rewrite H; simpl;
      rewrite ?andb_false_r; reflexivity.
  - intros j Hin.
    destruct Hcases as [[_ [Hj _]] | [_ [Hj _]]]; rewrite Hj in Hin;
      [exact Hin|].
    apply filter_In in Hin. tauto.
Qed.

(** X18. When no job crosses the age limit between the INSERT and the DELETE -
    as when both read the same clock - every job the retention job removes
    from [jobs] has a row in [jobs_archived] afterwards: the copy made by
    this run, or a row that was there. This holds whichever statement
    raises. *)
Theorem archived_before_deleted (cfg : Z) (rd : option Z) (nc ni nd : Z)
    (t : Tables) (j : JobRow) :
  (forall j0, In j0 (w_jobs (t_world t)) ->
              aged (days_of cfg rd) nd j0 = true ->
              aged (days_of cfg rd) ni j0 = true) ->
  In j (w_jobs (t_world t)) ->
  ~ In j (w_jobs (t_world (snd (archive_old_jobs cfg rd nc ni nd t)))) ->
  exists ja,
    In ja (t_jobs_archived (snd (archive_old_jobs cfg rd nc ni nd t)))
    /\ original_job_id ja = id j
    /\ (In ja (t_jobs_archived t)
        \/ (archived_job ja = j /\ archived_at ja = ni)).
Proof.
  intros Hclock Hin Hgone.
  destruct (archive_cases cfg rd nc ni nd t)
    as [o [t' [Hrun [Ha [Hc Hcases]]]]].
  rewrite Hrun in *. simpl in *.
  destruct Hcases as [[_ [Hj _]] | [_ [Hj [Harch _]]]].
  { exfalso. apply Hgone. rewrite Hj. exact Hin. }
  assert (eligible (days_of cfg rd) nd t j = true) as Hel.
  { destruct (eligible (days_of cfg rd) nd t j) eqn:E; [reflexivity|].
    exfalso. apply Hgone. rewrite Hj. apply filter_In.
    split; [exact Hin|]. rewrite E. reflexivity. }
  assert (eligible (days_of cfg rd) ni t j = true) as Hel'.
  { unfold eligible in *.
    apply andb_true_iff in Hel. destruct Hel as [Hel H3].
    apply andb_true_iff in Hel. destruct Hel as [H1 H2].
    rewrite (Hclock j Hin H1), H2, H3. reflexivity. }
  rewrite Harch.
  destruct (is_archived t j) eqn:Harc.
  - unfold is_archived in Harc. apply existsb_exists in Harc.
    destruct Harc as [ja [Hja Hid]]. apply Nat.eqb_eq in Hid.
    exists ja. split; [apply in_or_app; left; exact Hja|].
    split; [exact Hid | left; exact Hja].
  - exists (mkArchivedRow (id j) ni j).
    split; [|split; [reflexivity | right; split; reflexivity]].
    apply in_or_app. right. unfold newly_archived.
    apply in_map_iff. exists j. split; [reflexivity|].
    apply filter_In. split; [exact Hin|]. rewrite Hel', Harc. reflexivity.
Qed.

Lemma filter_ids_NoDup (p : JobRow -> bool) (rows : list JobRow) :
  NoDup (map id rows) -> NoDup (map id (List.filter p rows)).
Proof.
  induction rows as [|r rows IH]; simpl; [auto|].
  intros Hnd. apply NoDup_cons in Hnd. destruct Hnd as [Hnot Hnd].
  destruct (p r); simpl; [|auto].
  apply NoDup_cons. split; [|auto].
  intros Hin. apply Hnot. apply list_elem_of_In in Hin.
  apply list_elem_of_In. apply in_map_iff in Hin.
  destruct Hin as [x [Hx Hin]]. apply filter_In in Hin.
  apply in_map_iff. exists x. tauto.
Qed.

(** X19. A job is archived at most once: when the ids of [jobs] are distinct
    and no two rows of [jobs_archived] are of the same job, this is still
    so after the retention job, also when it raised after archiving and
    before deleting, and however often it is run again. *)
Theorem archived_at_most_once (cfg : Z) (rd : option Z) (nc ni nd : Z)
    (t : Tables) :
  NoDup (map id (w_jobs (t_world t))) ->
  NoDup (map original_job_id (t_jobs_archived t)) ->
  NoDup (map id (w_jobs (t_world (snd (archive_old_jobs cfg rd nc ni nd t)))))
  /\ NoDup (map original_job_id
                (t_jobs_archived (snd (archive_old_jobs cfg rd nc ni nd t)))).
Proof.
  intros Hjobs Harch.
  destruct (archive_cases cfg rd nc ni nd t)
    as [o [t' [Hrun [Ha [Hc Hcases]]]]].
  rewrite Hrun. simpl.
  assert (NoDup (map original_job_id
                     (t_jobs_archived t
                      ++ newly_archived (days_of cfg rd) ni t))) as Hnew.
  { rewrite map_app. apply NoDup_app. split; [exact Harch|]. split.
    - intros i Hi Hi'. apply list_elem_of_In in Hi, Hi'.
      unfold newly_archived in Hi'. rewrite map_map in Hi'. simpl in Hi'.
      apply in_map_iff in Hi'. destruct Hi' as [j [Hid Hj]].
      apply filter_In in Hj. destruct Hj as [_ Hj].
      apply andb_true_iff in Hj. destruct Hj as [_ Hj].
      apply negb_true_iff in Hj.
      apply in_map_iff in Hi. destruct Hi as [ja [Hja Hin]].
      assert (is_archived t j = true) as Hyes.
      { unfold is_archived. apply existsb_exists. exists ja.
        split; [exact Hin|]. apply Nat.eqb_eq. congruence. }
      congruence.
    - unfold newly_archived. rewrite map_map. simpl.
      apply filter_ids_NoDup. exact Hjobs. }
  destruct Hcases as [[_ [-> [[-> | ->] _]]] | [_ [-> [-> _]]]].
  - split; assumption.
  - split; assumption.
  - split; [apply filter_ids_NoDup; exact Hjobs | exact Hnew].
Qed.

(** X20. The retention job raises only a storage error, and then it has deleted
    nothing from [jobs]. When it returns, the number it reports as deleted
    is the number of rows that left [jobs]; what it reports as archived is
    the count taken before the INSERT, not the number of rows the INSERT
    added. *)
Theorem failed_archive_deletes_nothing (cfg : Z) (rd : option Z)
    (nc ni nd : Z) (t : Tables) :
  let r := archive_old_jobs cfg rd nc ni nd t in
  match fst r with
  | Exc e =>
      e = DbError
      /\ w_jobs (t_world (snd r)) = w_jobs (t_world t)
      /\ t_retention_log (snd r)
         = t_retention_log t ++ [FailedToArchive DbError]
  | Ret report =>
      rep_deleted report + List.length (w_jobs (t_world (snd r)))
      = List.length (w_jobs (t_world t))
      /\ rep_archived report
         = List.length (List.filter (eligible (days_of cfg rd) nc t)
                                    (w_jobs (t_world t)))
      /\ rep_eligible report = rep_archived report
      /\ rep_retention_days report = days_of cfg rd
      /\ t_jobs_archived (snd r)
         = t_jobs_archived t ++ newly_archived (days_of cfg rd) ni t
  end.
Proof.
  destruct (archive_cases cfg rd nc ni nd t)
    as [o [t' [Hrun [Ha [Hc Hcases]]]]].
  simpl. rewrite Hrun. simpl.
  destruct Hcases as [[-> [Hj [_ Hlog]]] | [-> [Hj [Harch _]]]].
  - split; [reflexivity|]. split; assumption.
  - simpl. rewrite Hj. split; [|repeat split; assumption].
    clear. induction (w_jobs (t_world t)) as [|j rows IH]; [reflexivity|].
    simpl. destruct (eligible (days_of cfg rd) nd t j); simpl; lia.
Qed.

End RetentionProperties.

(** ** Scenarios: the endpoint, the filters, the Ashby board *)

Lemma a_week_is_validated : validated None (Some 7%Z).
Proof.
  split; intros x H; [discriminate H | inversion H; subst; lia].
Defined.

Lemma noon_is_late_enough :
  (datetime_min + 8760 * hour <= noon <= datetime_max)%Z.
Proof. unfold datetime_min, datetime_max, hour, noon. lia. Defined.

Lemma validated_window_is_computable_witness :
  (validated None (Some 7%Z)
   /\ effective_hours None (Some 7%Z) (Some "24h") = Some 168%Z
   /\ (datetime_min + 8760 * hour <= noon <= datetime_max)%Z)
  /\ (1 <= 168 <= 8760)%Z
  /\ filter_by_age noon (Some 168%Z) dated_postings empty_store
     = (Ret (List.filter (recent (noon - 168 * hour)%Z) dated_postings),
        empty_store).
Proof.
  split; [split; [exact a_week_is_validated
                 | split; [reflexivity | exact noon_is_late_enough]]|].
  exact (validated_window_is_computable noon None (Some 7%Z) (Some "24h")
           168%Z dated_postings empty_store a_week_is_validated eq_refl
           noon_is_late_enough).
Defined.

Lemma no_day_is_out_of_bounds : ~ validated None (Some 0%Z).
Proof. intros [_ H]. specialize (H 0%Z eq_refl). lia. Defined.

Lemma a_preset_window_is_validated : validated None None.
Proof. split; intros x H; discriminate H. Defined.

Lemma trigger_answers_success_witness :
  (~ validated None (Some 0%Z) /\ validated None None
   /\ hd false (w_faults empty_store) = false)
  /\ trigger_crawl offline 0 (Some 1) None (Some 0%Z) None empty_store
     = (RequestValidationError 422, [], empty_store)
  /\ (exists result w',
         crawl_source offline 0 3
                      (effective_hours None None (Some "7d")) empty_store
         = (Ret result, w')
         /\ trigger_crawl offline 0 (Some 3) None None (Some "7d") empty_store
            = (Returned "success" ("Crawled source " ++ str_of_nat 3)
                        (OneSource result), [], w'))
  /\ exists results w',
      trigger_crawl offline 0 None None None (Some "7d") empty_store
      = (Returned "success" "Crawled all sources"
                  (AllSources (List.length results) results), [], w')
      /\ List.length results
         = List.length (select_enabled_sources empty_store).
Proof.
  split; [split; [exact no_day_is_out_of_bounds
                 | split; [exact a_preset_window_is_validated
                          | reflexivity]]|].
  destruct (trigger_answers_success offline 0 None (Some 0%Z) None
              empty_store) as [Hbad _].
  destruct (trigger_answers_success offline 0 None None (Some "7d")
              empty_store) as [_ Hok].
  destruct (Hok a_preset_window_is_validated) as [Hone Hall].
  split; [exact (Hbad no_day_is_out_of_bounds (Some 1))|].
  split; [exact (Hone 2)|].
  exact (proj2 (Hall None (or_introl eq_refl)) eq_refl).
Defined.

Lemma representable_two_days : representable noon 48.
Proof. unfold representable. vm_compute. repeat split; discriminate. Defined.

Lemma wider_window_keeps_more_witness :
  ((24 <= 48)%Z /\ representable noon 24 /\ representable noon 48)
  /\ exists kept1 kept2,
      filter_by_age noon (Some 24%Z) dated_postings empty_store
      = (Ret kept1, empty_store)
      /\ filter_by_age noon (Some 48%Z) dated_postings empty_store
         = (Ret kept2, empty_store)
      /\ kept1 = List.filter (recent (noon - 24 * hour)%Z) kept2
      /\ (forall job, In job kept1 -> In job kept2).
Proof.
  assert (24 <= 48)%Z as Hle by lia.
  split; [split; [exact Hle
                 | split; [exact representable_noon
                          | exact representable_two_days]]|].
  exact (wider_window_keeps_more noon 24 48 dated_postings empty_store Hle
           representable_noon representable_two_days).
Defined.

(** Three listings, of which two are of the target department. *)
Lemma found_counts_the_filtered_batch_witness :
  (List.length titled_postings = 3
   /\ reconcile 10 1 1 "Acme" (Some ["Engineering"]) None titled_postings
                empty_store
      = (Ret (Success 1 2 2 0),
         snd (reconcile 10 1 1 "Acme" (Some ["Engineering"]) None
                        titled_postings empty_store)))
  /\ exists aged kept w1 w2,
      filter_by_age 10 None titled_postings empty_store = (Ret aged, w1)
      /\ filter_by_department (Some ["Engineering"]) aged w1 = (Ret kept, w2)
      /\ aged = titled_postings
      /\ department_batch (Some ["Engineering"]) aged kept
      /\ 2 = List.length kept
      /\ 2 <= List.length titled_postings.
Proof.
  assert (reconcile 10 1 1 "Acme" (Some ["Engineering"]) None titled_postings
                    empty_store
          = (Ret (Success 1 2 2 0),
             snd (reconcile 10 1 1 "Acme" (Some ["Engineering"]) None
                            titled_postings empty_store))) as Hrun
      by (vm_compute; reflexivity).
  split; [split; [reflexivity | exact Hrun]|].
  exact (found_counts_the_filtered_batch 10 1 1 "Acme" (Some ["Engineering"])
           None titled_postings empty_store _ 1 2 2 0 Hrun).
Defined.

(** An Ashby board with a link to a posting and a link to its form. *)
Definition ashby_board : Web :=
  mkWeb (fun _ => Unreachable) (fun _ => Unreachable)
        (fun _ => WorkdayRenderFailure)
        (fun _ => AshbyPage
                    [direct_anchor;
                     mkAnchor "/acme/0123456789abcdefghij/apply" "Apply"]
                    None).

Definition direct_anchor_listing : Job :=
  mkJob (Some "0123456789abcdefghij") "Designer" "acme" "Remote" None ""
        "unknown" "https://jobs.ashbyhq.com/acme/0123456789abcdefghij"
        PyNone.

Lemma ashby_listings_shape_witness :
  (urlparse "https://jobs.ashbyhq.com/acme"
   = Some (mkParseResult "https" "jobs.ashbyhq.com" "/acme")
   /\ crawl_ashby ashby_board "https://jobs.ashbyhq.com/acme" empty_store
      = (Ret [direct_anchor_listing],
         snd (crawl_ashby ashby_board "https://jobs.ashbyhq.com/acme"
                          empty_store)))
  /\ Forall (ashby_shaped "acme") [direct_anchor_listing]
  /\ exists anchors app_data,
      ashby_render ashby_board "https://jobs.ashbyhq.com/acme"
      = AshbyPage anchors app_data
      /\ List.length [direct_anchor_listing] <= List.length anchors.
Proof.
  assert (urlparse "https://jobs.ashbyhq.com/acme"
          = Some (mkParseResult "https" "jobs.ashbyhq.com" "/acme")) as Hparse
      by (vm_compute; reflexivity).
  assert (crawl_ashby ashby_board "https://jobs.ashbyhq.com/acme" empty_store
          = (Ret [direct_anchor_listing],
             snd (crawl_ashby ashby_board "https://jobs.ashbyhq.com/acme"
                              empty_store))) as Hrun
      by (vm_compute; reflexivity).
  split; [split; [exact Hparse | exact Hrun]|].
  exact (ashby_listings_shape ashby_board "https://jobs.ashbyhq.com/acme"
           (mkParseResult "https" "jobs.ashbyhq.com" "/acme")
           [direct_anchor_listing] empty_store _ Hparse Hrun).
Defined.

(** A final segment of twelve two-byte characters: 24 bytes, but shorter
    than 20 for [len]. The link is skipped. *)
Definition accented_segment : string :=
  PyStr.of_codes (List.concat (List.repeat [195; 169] 12)).

Example short_accented_segment_is_skipped :
  String.length accented_segment = 24
  /\ PyStr.len accented_segment = 12
  /\ accepted "acme" (mkAnchor ("/acme/" ++ accented_segment) "Designer")
     = None.
Proof. vm_compute. repeat split. Qed.

(** The second crawl finds listing A only: the row of listing B is
    retired. *)
Definition retired_b : JobRow :=
  deactivated 20 (stored 2 1 (Some "B") "Data Engineer"
                         "https://jobs.lever.co/acme/b" true).

Lemma written_rows_stay_active_witness :
  (keyed (w_jobs after_first_run) (w_next_job_id after_first_run)
   /\ In retired_b
         (w_jobs (snd (persist 20 1 1 "Acme"
                         [posting (Some "A") "Backend Engineer"
                                  "https://jobs.lever.co/acme/a"]
                         after_first_run))))
  /\ (In retired_b (w_jobs after_first_run)
      \/ (exists r, In r (w_jobs after_first_run)
                    /\ retired_b = deactivated 20 r
                    /\ source_id r = 1 /\ is_active r = true)
      \/ (exists job,
             In job [posting (Some "A") "Backend Engineer"
                             "https://jobs.lever.co/acme/a"]
             /\ carries job retired_b)).
Proof.
  assert (In retired_b
             (w_jobs (snd (persist 20 1 1 "Acme"
                             [posting (Some "A") "Backend Engineer"
                                      "https://jobs.lever.co/acme/a"]
                             after_first_run)))) as Hin
      by (vm_compute; right; left; reflexivity).
  split; [split; [exact keyed_after_first_run | exact Hin]|].
  exact (written_rows_stay_active 20 1 1 "Acme"
           [posting (Some "A") "Backend Engineer"
                    "https://jobs.lever.co/acme/a"]
           after_first_run retired_b keyed_after_first_run Hin).
Defined.

(** The first of three listings, kept by the department filter and
    stored. *)
Definition stamped_row : JobRow :=
  candidate 1 1 "Acme" 10
            (set_department (Some "Engineering")
               (posting None "Senior Backend Engineer"
                        "https://jobs.lever.co/acme/1")).

Lemma keyed_empty_store :
  keyed (w_jobs empty_store) (w_next_job_id empty_store).
Proof. split; constructor. Defined.

Lemma written_rows_get_first_target_witness :
  (keyed (w_jobs empty_store) (w_next_job_id empty_store)
   /\ In stamped_row
         (w_jobs (snd (reconcile 10 1 1 "Acme" (Some ["Engineering"]) None
                                 titled_postings empty_store))))
  /\ ~ In stamped_row (w_jobs empty_store)
  /\ department (posting None "Senior Backend Engineer"
                         "https://jobs.lever.co/acme/1") <> Some "Engineering"
  /\ (In stamped_row (w_jobs empty_store)
      \/ (exists r, In r (w_jobs empty_store)
                    /\ stamped_row = deactivated 10 r
                    /\ is_active stamped_row = false
                    /\ source_id r = 1 /\ is_active r = true)
      \/ (is_active stamped_row = true
          /\ r_department stamped_row = Some "Engineering"
          /\ exists job,
              In job titled_postings
              /\ department_match ["Engineering"] job
              /\ r_url stamped_row = url job
              /\ r_title stamped_row = title job)).
Proof.
  assert (In stamped_row
             (w_jobs (snd (reconcile 10 1 1 "Acme" (Some ["Engineering"]) None
                                     titled_postings empty_store)))) as Hin
      by (vm_compute; left; reflexivity).
  split; [split; [exact keyed_empty_store | exact Hin]|].
  split; [intros []|]. split; [discriminate|].
  exact (written_rows_get_first_target 10 1 1 "Acme" "Engineering" [] None
           titled_postings empty_store stamped_row keyed_empty_store Hin).
Defined.

(** ** Scenario: the same two postings twice, under the natural key *)

(** The natural key as a function of source, external id and url. *)
Definition natural (source : nat) (ext : option string) (u : string)
    : nat * (string + string) :=
  (source,
   if PyStr.truthy (PyStr.or_else ext "") then inl (PyStr.or_else ext "")
   else inr u).

Lemma natural_is_index :
  forall c r : JobRow,
    unique_conflict c r = true <-> key_of natural c = key_of natural r.
Proof.
  intros c r. simpl. unfold Reference.natural_key_conflict.
  rewrite bool_decide_eq_true. reflexivity.
Defined.

Lemma natural_kept_by_update :
  forall c r : JobRow,
    key_of natural c = key_of natural r ->
    natural (source_id r) (r_external_id r) (r_url c) = key_of natural r.
Proof.
  intros c r. unfold key_of, natural.
  destruct (PyStr.truthy (PyStr.or_else (r_external_id r) "")); [reflexivity|].
  destruct (PyStr.truthy (PyStr.or_else (r_external_id c) ""));
    intros H; inversion H; reflexivity.
Defined.

Lemma natural_is_checked :
  forall c r : JobRow,
    key_of natural c = key_of natural r ->
    check_matches (source_id c) (PyStr.or_else (r_external_id c) "")
                  (r_url c) r = true.
Proof.
  intros c r. unfold key_of, natural. intros H.
  apply check_matches_spec.
  destruct (PyStr.truthy (PyStr.or_else (r_external_id c) "")) eqn:Ec;
    destruct (PyStr.truthy (PyStr.or_else (r_external_id r) "")) eqn:Er;
    inversion H as [[Hs Hk]]; (split; [reflexivity|]).
  - left. rewrite Hk. unfold PyStr.or_else in *.
    destruct (r_external_id r) as [e|]; [|discriminate Er].
    destruct (PyStr.truthy e); [reflexivity | discriminate Er].
  - right. reflexivity.
Defined.

Lemma repeated_crawl_adds_nothing_witness :
  (quiet (w_faults empty_store)
   /\ keyed (w_jobs empty_store) (w_next_job_id empty_store))
  /\ exists w2,
      persist 20 2 1 "Acme" [posting_a; posting_b]
              (snd (persist 10 1 1 "Acme" [posting_a; posting_b] empty_store))
      = (Ret (Success 1 2 0 2), w2)
      /\ map (key_of natural) (w_jobs w2)
         = map (key_of natural)
               (w_jobs (snd (persist 10 1 1 "Acme" [posting_a; posting_b]
                                     empty_store)))
      /\ List.length (w_jobs w2)
         = List.length
             (w_jobs (snd (persist 10 1 1 "Acme" [posting_a; posting_b]
                                   empty_store))).
Proof.
  assert (quiet (w_faults empty_store)) as Hq by reflexivity.
  split; [split; [exact Hq | exact keyed_empty_store]|].
  exact (repeated_crawl_adds_nothing natural natural_is_index
           natural_kept_by_update natural_is_checked 10 20 1 2 1 "Acme"
           [posting_a; posting_b] empty_store Hq keyed_empty_store).
Defined.

(** ** Scenario: the retention job after forty days *)

(** A store that keeps posting dates as instants and subtracts days
    exactly. *)
Definition exact_clock : StoreClock :=
  mkStoreClock
    (fun v => match v with
              | PyDatetime d => Some (instant d)
              | _ => None
              end)
    (fun now days => Some (now - days * 24 * hour)%Z).

#[local] Existing Instance exact_clock.

Definition forty_days : Z := (40 * 24 * hour)%Z.

(** The three listings of the first run, the second with an application. *)
Definition applied_to_b : Tables :=
  mkTables after_first_run [] [2] [] [].

Definition listing_a : JobRow :=
  stored 1 1 (Some "A") "Backend Engineer" "https://jobs.lever.co/acme/a" true.

Lemma archive_spares_referenced_witness :
  has_application applied_to_b
    (stored 2 1 (Some "B") "Data Engineer" "https://jobs.lever.co/acme/b" true)
  = true
  /\ In (stored 2 1 (Some "B") "Data Engineer" "https://jobs.lever.co/acme/b"
                true)
        (w_jobs (t_world (snd (archive_old_jobs 30 None forty_days forty_days
                                                forty_days applied_to_b)))).
Proof.
  split; [reflexivity|].
  apply (proj1 (archive_spares_referenced 30 None forty_days forty_days
                  forty_days applied_to_b)).
  - right. left. reflexivity.
  - left. reflexivity.
Defined.

Lemma same_clock_for_both :
  forall j0, In j0 (w_jobs (t_world applied_to_b)) ->
             aged (days_of 30 None) forty_days j0 = true ->
             aged (days_of 30 None) forty_days j0 = true.
Proof. intros j0 _ H. exact H. Defined.

Lemma listing_a_is_gone :
  ~ In listing_a
       (w_jobs (t_world (snd (archive_old_jobs 30 None forty_days forty_days
                                               forty_days applied_to_b)))).
Proof. vm_compute. intros [H|[]]. discriminate H. Defined.

Lemma archived_before_deleted_witness :
  ((forall j0, In j0 (w_jobs (t_world applied_to_b)) ->
               aged (days_of 30 None) forty_days j0 = true ->
               aged (days_of 30 None) forty_days j0 = true)
   /\ In listing_a (w_jobs (t_world applied_to_b))
   /\ ~ In listing_a
          (w_jobs (t_world (snd (archive_old_jobs 30 None forty_days
                                   forty_days forty_days applied_to_b)))))
  /\ exists ja,
      In ja (t_jobs_archived
               (snd (archive_old_jobs 30 None forty_days forty_days
                                      forty_days applied_to_b)))
      /\ original_job_id ja = id listing_a
      /\ (In ja (t_jobs_archived applied_to_b)
          \/ (archived_job ja = listing_a /\ archived_at ja = forty_days)).
Proof.
  assert (In listing_a (w_jobs (t_world applied_to_b))) as Hin
      by (left; reflexivity).
  split; [split; [exact same_clock_for_both
                 | split; [exact Hin | exact listing_a_is_gone]]|].
  exact (archived_before_deleted 30 None forty_days forty_days forty_days
           applied_to_b listing_a same_clock_for_both Hin listing_a_is_gone).
Defined.

Lemma archived_at_most_once_witness :
  (NoDup (map id (w_jobs (t_world applied_to_b)))
   /\ NoDup (map original_job_id (t_jobs_archived applied_to_b)))
  /\ NoDup (map id (w_jobs (t_world
              (snd (archive_old_jobs 30 None forty_days forty_days
                                     forty_days applied_to_b)))))
  /\ NoDup (map original_job_id
               (t_jobs_archived
                  (snd (archive_old_jobs 30 None forty_days forty_days
                                         forty_days applied_to_b)))).
Proof.
  split; [split; [exact (proj1 keyed_after_first_run) | apply NoDup_nil_2]|].
  exact (archived_at_most_once 30 None forty_days forty_days forty_days
           applied_to_b (proj1 keyed_after_first_run) (NoDup_nil_2)).
Defined.

(** The retention job on that store: two listings archived and deleted,
    the one applied to kept; and when the DELETE raises, the two copies
    are in the archive and nothing has left [jobs]. *)
Example retention_after_forty_days :
  let quiet_run := archive_old_jobs 30 None forty_days forty_days forty_days
                                    applied_to_b in
  let delete_raises :=
    archive_old_jobs 30 None forty_days forty_days forty_days
      (with_world (with_faults [false; false; true] after_first_run)
                  applied_to_b) in
  fst quiet_run = Ret (mkReport 2 2 2 30)
  /\ map id (w_jobs (t_world (snd quiet_run))) = [2]
  /\ map original_job_id (t_jobs_archived (snd quiet_run)) = [1; 3]
  /\ fst delete_raises = Exc DbError
  /\ map id (w_jobs (t_world (snd delete_raises))) = [1; 2; 3]
  /\ map original_job_id (t_jobs_archived (snd delete_raises)) = [1; 3].
Proof. repeat split; vm_compute; reflexivity. Qed.
